(** * Exquisite Corpse bot: the session engine, embedded and verified

    A shallow embedding of [exquisite_corpse_bot.py]: the [Game] dataclass
    and its methods, the SQLite store ([save_game], [load_all_games],
    [delete_game]), the bot's three process-wide dictionaries, the slash
    command handlers, the direct-message handler and the timeout sweep.

    Conventions of the embedding:
    - Python [int] is [Z]; [Optional[int]] is [option Z]; a Python truth
      test on an optional identity ([if uid:]) is [truthy], which is false on
      [None] and on [0];
    - Python [str] is [string], read as text over the code points below 256;
    - the four values of [Game.status] are the constructors of [Status];
    - a naive [datetime] is the record of its seven fields, a [timedelta] a
      number of microseconds;
    - a [dict] is a [gmap]; the in-place mutation of a game that lives in
      [bot.games] is an insert at its key;
    - [datetime.utcnow()], [bot.get_channel] and [bot.fetch_user] are inputs
      of each handler, gathered in [env];
    - a handler is a function from the state before to the state after and
      its first answer; an exception that leaves a handler after its state
      changes is the answer [Crashed]. *)

From Stdlib Require Import ZArith String Ascii List Lia Bool.
From Stdlib Require Import DecimalString DecimalPos DecimalFacts DecimalZ.
From stdpp Require Import base option list gmap strings.
Import ListNotations.

Local Open Scope Z_scope.

(** ** Text *)

Module Text.

(** [str.isspace] on the code points below 256. *)
Definition is_space (c : ascii) : bool :=
  let n := N_of_ascii c in
  ((9 <=? n) && (n <=? 13) || (28 <=? n) && (n <=? 32)
   || (n =? 133) || (n =? 160))%N.

Definition starts_token (s : string) : bool :=
  match s with
  | EmptyString => false
  | String c _ => negb (is_space c)
  end.

(** [s.split()] with no separator: the maximal runs of non-blank
    characters, in order. *)
Fixpoint split (s : string) : list string :=
  match s with
  | EmptyString => []
  | String c s' =>
      if is_space c then split s'
      else if starts_token s' then
        match split s' with
        | t :: ts => String c t :: ts
        | [] => [String c EmptyString]
        end
      else String c EmptyString :: split s'
  end.

Fixpoint lstrip (s : string) : string :=
  match s with
  | EmptyString => EmptyString
  | String c s' => if is_space c then lstrip s' else s
  end.

Fixpoint rstrip (s : string) : string :=
  match s with
  | EmptyString => EmptyString
  | String c s' =>
      match rstrip s' with
      | EmptyString => if is_space c then EmptyString else String c EmptyString
      | r => String c r
      end
  end.

(** [s.strip()] *)
Definition strip (s : string) : string := rstrip (lstrip s).

(** [sep.join(parts)] *)
Fixpoint join (sep : string) (parts : list string) : string :=
  match parts with
  | [] => EmptyString
  | [p] => p
  | p :: rest => (p ++ sep ++ join sep rest)%string
  end.

(** Python truth value of a string: non-empty. *)
Definition nonempty (s : string) : bool :=
  match s with EmptyString => false | _ => true end.

End Text.

(** [count_words(text)] *)
Definition count_words (text : string) : Z :=
  Z.of_nat (length (Text.split text)).

(** ** Naive UTC timestamps *)

Record datetime := mk_datetime {
  year : Z; month : Z; day : Z;
  hour : Z; minute : Z; second : Z; microsecond : Z
}.

Module Datetime.

Definition is_leap (y : Z) : bool :=
  (y mod 4 =? 0) && (negb (y mod 100 =? 0) || (y mod 400 =? 0)).

Definition days_before_year (y : Z) : Z :=
  let p := y - 1 in p * 365 + p / 4 - p / 100 + p / 400.

Definition days_before_month_table : list Z :=
  [-1; 0; 31; 59; 90; 120; 151; 181; 212; 243; 273; 304; 334].

Definition days_before_month (y m : Z) : Z :=
  nth (Z.to_nat m) days_before_month_table 0
  + (if (2 <? m) && is_leap y then 1 else 0).

Definition days_in_month (y m : Z) : Z :=
  if (m =? 2) && is_leap y then 29
  else nth (Z.to_nat m) [-1; 31; 28; 31; 30; 31; 30; 31; 31; 30; 31; 30; 31] 0.

Definition toordinal (d : datetime) : Z :=
  days_before_year (year d) + days_before_month (year d) (month d) + day d.

(** The value of a [datetime] in microseconds since the start of the
    proleptic calendar; [a - b] on two naive datetimes is the difference
    of these, a [timedelta] counted in microseconds. *)
Definition to_micros (d : datetime) : Z :=
  ((toordinal d * 86400
    + hour d * 3600 + minute d * 60 + second d) * 1000000)
  + microsecond d.

Definition sub (a b : datetime) : Z := to_micros a - to_micros b.

(** The class invariant of [datetime]. *)
Definition valid (d : datetime) : bool :=
  (1 <=? year d) && (year d <=? 9999)
  && (1 <=? month d) && (month d <=? 12)
  && (1 <=? day d) && (day d <=? days_in_month (year d) (month d))
  && (0 <=? hour d) && (hour d <? 24)
  && (0 <=? minute d) && (minute d <? 60)
  && (0 <=? second d) && (second d <? 60)
  && (0 <=? microsecond d) && (microsecond d <? 1000000).

End Datetime.

(** [timedelta(hours=2)] in microseconds. *)
Definition timeout_delta : Z := 2 * 3600 * 1000000.

(** ** Game state *)

Inductive Status := pending | open | active | complete.

#[global] Instance Status_eq_dec : EqDecision Status.
Proof. solve_decision. Defined.

Record Game := mk_Game {
  channel_id : Z;
  starter_id : Z;
  first_words : string;
  words_per_turn : Z;
  total_lines : Z;
  skip_init : bool;
  contributions : list string;
  contributors : list Z;
  player_a : option Z;
  player_b : option Z;
  status : Status;
  last_activity : datetime;
  current_turn : Z
}.

(** Field assignments [game.f = v]. *)
Definition set_first_words (v : string) (g : Game) : Game :=
  mk_Game (channel_id g) (starter_id g) v (words_per_turn g) (total_lines g)
    (skip_init g) (contributions g) (contributors g) (player_a g) (player_b g)
    (status g) (last_activity g) (current_turn g).
Definition set_contributions (v : list string) (g : Game) : Game :=
  mk_Game (channel_id g) (starter_id g) (first_words g) (words_per_turn g)
    (total_lines g) (skip_init g) v (contributors g) (player_a g) (player_b g)
    (status g) (last_activity g) (current_turn g).
Definition set_contributors (v : list Z) (g : Game) : Game :=
  mk_Game (channel_id g) (starter_id g) (first_words g) (words_per_turn g)
    (total_lines g) (skip_init g) (contributions g) v (player_a g) (player_b g)
    (status g) (last_activity g) (current_turn g).
Definition set_player_a (v : option Z) (g : Game) : Game :=
  mk_Game (channel_id g) (starter_id g) (first_words g) (words_per_turn g)
    (total_lines g) (skip_init g) (contributions g) (contributors g) v
    (player_b g) (status g) (last_activity g) (current_turn g).
Definition set_player_b (v : option Z) (g : Game) : Game :=
  mk_Game (channel_id g) (starter_id g) (first_words g) (words_per_turn g)
    (total_lines g) (skip_init g) (contributions g) (contributors g)
    (player_a g) v (status g) (last_activity g) (current_turn g).
Definition set_status (v : Status) (g : Game) : Game :=
  mk_Game (channel_id g) (starter_id g) (first_words g) (words_per_turn g)
    (total_lines g) (skip_init g) (contributions g) (contributors g)
    (player_a g) (player_b g) v (last_activity g) (current_turn g).
Definition set_last_activity (v : datetime) (g : Game) : Game :=
  mk_Game (channel_id g) (starter_id g) (first_words g) (words_per_turn g)
    (total_lines g) (skip_init g) (contributions g) (contributors g)
    (player_a g) (player_b g) (status g) v (current_turn g).
Definition set_current_turn (v : Z) (g : Game) : Game :=
  mk_Game (channel_id g) (starter_id g) (first_words g) (words_per_turn g)
    (total_lines g) (skip_init g) (contributions g) (contributors g)
    (player_a g) (player_b g) (status g) (last_activity g) v.

(** The generated [__init__] followed by [__post_init__]: the keyword
    arguments the bot passes, the dataclass defaults for the rest, and
    [default_factory=datetime.utcnow] read from [now]. *)
Definition new_Game (channel starter : Z) (words : string)
    (wordcount lines : Z) (skip : bool) (now : datetime) : Game :=
  let g := mk_Game channel starter words wordcount lines skip
             [] [] None None open now 1 in
  if skip then g
  else set_player_a (Some starter)
         (set_contributors [starter] (set_contributions [words] g)).

Definition total_turns (g : Game) : Z := total_lines g * 2.

Definition current_player (g : Game) : option Z :=
  if decide (status g = open) then None
  else if current_turn g mod 2 =? 0 then player_a g else player_b g.

(** Outcome of a Python expression that may raise. *)
Inductive exn := IndexError.
Inductive result (A : Type) := Ok (a : A) | Raised (e : exn).
Arguments Ok {A} a.
Arguments Raised {A} e.

(** [self.contributions[-1].split()[-1]], or [None] without contributions;
    indexing an empty token list raises. *)
Definition last_word (g : Game) : result (option string) :=
  match last (contributions g) with
  | None => Ok None
  | Some c =>
      match last (Text.split c) with
      | Some w => Ok (Some w)
      | None => Raised IndexError
      end
  end.

Definition lines_complete (g : Game) : Z :=
  Z.of_nat (length (contributions g)) / 2.

Definition add_contribution (user_id : Z) (words : string) (now : datetime)
    (g : Game) : Game :=
  let g1 := set_contributions (contributions g ++ [words]) g in
  let g2 := set_contributors (contributors g1 ++ [user_id]) g1 in
  let g3 := set_current_turn (current_turn g2 + 1) g2 in
  let g4 := set_last_activity now g3 in
  if total_turns g4 <=? current_turn g4 then set_status complete g4 else g4.

(** [range(0, n, 2)] *)
Definition range_by_2 (n : nat) : list nat :=
  (fun k => 2 * k)%nat <$> seq 0 (Nat.div2 (n + 1)).

(** The body of the loop of [get_poem] at index [i]; an index out of range
    would raise, which the loop bounds exclude. *)
Definition poem_line (cs : list string) (i : nat) : list string :=
  if (i + 1 <? length cs)%nat then
    match cs !! i, cs !! (i + 1)%nat with
    | Some x, Some y => [(x ++ " / " ++ y)%string]
    | _, _ => []
    end
  else
    match cs !! i with
    | Some x => [x]
    | None => []
    end.

Definition newline : string := String (ascii_of_nat 10) EmptyString.

Definition get_poem (g : Game) : string :=
  let lines :=
    fold_left (fun lines i => lines ++ poem_line (contributions g) i)
      (range_by_2 (length (contributions g))) [] in
  Text.join newline lines.

Definition get_unique_contributors (g : Game) : list Z :=
  fold_left (fun seen uid => if decide (uid ∈ seen) then seen else seen ++ [uid])
    (contributors g) [].

Definition timeout_current_player (g : Game) : Game :=
  if current_turn g mod 2 =? 0 then set_player_a None g
  else set_player_b None g.

Definition is_None {A} (o : option A) : bool :=
  match o with None => true | Some _ => false end.

Definition slot_is_open (g : Game) : bool :=
  match status g with
  | pending => false
  | open => true
  | active =>
      (current_turn g mod 2 =? 0) && is_None (player_a g)
      || (current_turn g mod 2 =? 1) && is_None (player_b g)
  | complete => false
  end.

(** Python truth value of an optional identity. *)
Definition truthy (o : option Z) : bool :=
  match o with
  | Some u => negb (u =? 0)
  | None => false
  end.

(** ** Column codecs of the store

    [json.dumps] and [json.loads] on the two shapes the bot stores (a list
    of strings, a list of integers), and [datetime.isoformat] and
    [datetime.fromisoformat] on naive timestamps.  A decoder answers [None]
    where Python raises, and also on a document of another shape. *)

Module Json.

Definition quote : ascii := ascii_of_nat 34.
Definition backslash : ascii := ascii_of_nat 92.

Definition hex_digit (n : N) : ascii :=
  if (n <? 10)%N then ascii_of_N (48 + n) else ascii_of_N (87 + n).

Definition hex_value (c : ascii) : option N :=
  let n := N_of_ascii c in
  if (48 <=? n)%N && (n <=? 57)%N then Some (n - 48)%N
  else if (97 <=? n)%N && (n <=? 102)%N then Some (n - 87)%N
  else if (65 <=? n)%N && (n <=? 70)%N then Some (n - 55)%N
  else None.

Definition one (c : ascii) : string := String c EmptyString.

(** The replacement of one character under [ensure_ascii=True]. *)
Definition escape_char (c : ascii) : string :=
  let n := N_of_ascii c in
  if (n =? 34)%N then String backslash (one quote)
  else if (n =? 92)%N then String backslash (one backslash)
  else if (n =? 10)%N then String backslash "n"
  else if (n =? 13)%N then String backslash "r"
  else if (n =? 9)%N then String backslash "t"
  else if (n =? 8)%N then String backslash "b"
  else if (n =? 12)%N then String backslash "f"
  else if (32 <=? n)%N && (n <=? 126)%N then one c
  else String backslash
         (String "u" (String "0" (String "0"
           (String (hex_digit (n / 16)) (one (hex_digit (n mod 16))))))).

Fixpoint escape (s : string) : string :=
  match s with
  | EmptyString => EmptyString
  | String c s' => (escape_char c ++ escape s')%string
  end.

Definition encode_string (s : string) : string :=
  String quote (escape s ++ one quote)%string.

(** [repr] of an [int]. *)
Definition repr_int (z : Z) : string :=
  DecimalString.NilZero.string_of_int (Z.to_int z).

Definition dumps_array (items : list string) : string :=
  ("[" ++ Text.join ", " items ++ "]")%string.

Definition dumps_strs (l : list string) : string :=
  dumps_array (encode_string <$> l).

Definition dumps_ints (l : list Z) : string :=
  dumps_array (repr_int <$> l).

(** JSON white space. *)
Definition is_ws (c : ascii) : bool :=
  let n := N_of_ascii c in
  ((n =? 32) || (n =? 9) || (n =? 10) || (n =? 13))%N.

Definition unescape (e : ascii) : option ascii :=
  let n := N_of_ascii e in
  if (n =? 34)%N then Some quote
  else if (n =? 92)%N then Some backslash
  else if (n =? 47)%N then Some "/"%char
  else if (n =? 98)%N then Some (ascii_of_nat 8)
  else if (n =? 102)%N then Some (ascii_of_nat 12)
  else if (n =? 110)%N then Some (ascii_of_nat 10)
  else if (n =? 114)%N then Some (ascii_of_nat 13)
  else if (n =? 116)%N then Some (ascii_of_nat 9)
  else None.

(** The character of a [\uXXXX] escape; a code point from 256 on has no
    counterpart in [string]. *)
Definition hex4 (a b c d : ascii) : option ascii :=
  match hex_value a, hex_value b, hex_value c, hex_value d with
  | Some x, Some y, Some z, Some w =>
      let n := (((x * 16 + y) * 16 + z) * 16 + w)%N in
      if (n <? 256)%N then Some (ascii_of_N n) else None
  | _, _, _, _ => None
  end.

Definition snoc (s : string) (c : ascii) : string := (s ++ one c)%string.

Inductive mode (tok : Type) :=
| Start | Open | Value | Inside (t : tok) | After | Done.
Arguments Start {tok}.
Arguments Open {tok}.
Arguments Value {tok}.
Arguments Inside {tok} t.
Arguments After {tok}.
Arguments Done {tok}.

Definition is_char (c : ascii) (n : N) : bool := (N_of_ascii c =? n)%N.

(** The decoder of an array of strings, one character at a time. *)
Fixpoint strs_go (m : mode string) (acc : list string) (s : string)
    {struct s} : option (list string) :=
  match s with
  | EmptyString => match m with Done => Some acc | _ => None end
  | String c s' =>
      match m with
      | Start =>
          if is_ws c then strs_go Start acc s'
          else if is_char c 91 then strs_go Open acc s' else None
      | Open =>
          if is_ws c then strs_go Open acc s'
          else if is_char c 93 then strs_go Done acc s'
          else if is_char c 34 then strs_go (Inside EmptyString) acc s'
          else None
      | Value =>
          if is_ws c then strs_go Value acc s'
          else if is_char c 34 then strs_go (Inside EmptyString) acc s'
          else None
      | After =>
          if is_ws c then strs_go After acc s'
          else if is_char c 44 then strs_go Value acc s'
          else if is_char c 93 then strs_go Done acc s'
          else None
      | Done => if is_ws c then strs_go Done acc s' else None
      | Inside cur =>
          if is_char c 34 then strs_go After (acc ++ [cur]) s'
          else if is_char c 92 then
            match s' with
            | String e s'' =>
                if is_char e 117 then
                  match s'' with
                  | String h1 (String h2 (String h3 (String h4 s3))) =>
                      match hex4 h1 h2 h3 h4 with
                      | Some ch => strs_go (Inside (snoc cur ch)) acc s3
                      | None => None
                      end
                  | _ => None
                  end
                else
                  match unescape e with
                  | Some ch => strs_go (Inside (snoc cur ch)) acc s''
                  | None => None
                  end
            | EmptyString => None
            end
          else if (N_of_ascii c <? 32)%N then None
          else strs_go (Inside (snoc cur c)) acc s'
      end
  end.

Definition loads_strs (s : string) : option (list string) :=
  strs_go Start [] s.

Definition is_digit (c : ascii) : bool :=
  let n := N_of_ascii c in ((48 <=? n) && (n <=? 57))%N.

(** The integer of a number token: an optional minus sign, then either a
    single zero or digits that do not start with a zero. *)
Definition int_of_token (tok : string) : option Z :=
  let digits :=
    match tok with
    | String c t => if is_char c 45 then t else tok
    | EmptyString => tok
    end in
  match digits with
  | String z (String _ _) =>
      if is_char z 48 then None
      else Z.of_int <$> DecimalString.NilZero.int_of_string tok
  | _ => Z.of_int <$> DecimalString.NilZero.int_of_string tok
  end.

(** The decoder of an array of integers. *)
Fixpoint ints_go (m : mode string) (acc : list Z) (s : string)
    {struct s} : option (list Z) :=
  match s with
  | EmptyString => match m with Done => Some acc | _ => None end
  | String c s' =>
      match m with
      | Start =>
          if is_ws c then ints_go Start acc s'
          else if is_char c 91 then ints_go Open acc s' else None
      | Open =>
          if is_ws c then ints_go Open acc s'
          else if is_char c 93 then ints_go Done acc s'
          else if is_digit c || is_char c 45
          then ints_go (Inside (one c)) acc s'
          else None
      | Value =>
          if is_ws c then ints_go Value acc s'
          else if is_digit c || is_char c 45
          then ints_go (Inside (one c)) acc s'
          else None
      | After =>
          if is_ws c then ints_go After acc s'
          else if is_char c 44 then ints_go Value acc s'
          else if is_char c 93 then ints_go Done acc s'
          else None
      | Done => if is_ws c then ints_go Done acc s' else None
      | Inside tok =>
          if is_digit c || is_char c 45
          then ints_go (Inside (snoc tok c)) acc s'
          else
            match int_of_token tok with
            | None => None
            | Some z =>
                if is_ws c then ints_go After (acc ++ [z]) s'
                else if is_char c 44 then ints_go Value (acc ++ [z]) s'
                else if is_char c 93 then ints_go Done (acc ++ [z]) s'
                else None
            end
      end
  end.

Definition loads_ints (s : string) : option (list Z) :=
  ints_go Start [] s.

End Json.

Module Iso.

Definition digit (n : Z) : ascii := ascii_of_N (48 + Z.to_N n).

(** [n] printed on exactly [w] decimal digits, zero padded. *)
Fixpoint zfill (w : nat) (n : Z) : string :=
  match w with
  | O => EmptyString
  | S w' => Json.snoc (zfill w' (n / 10)) (digit (n mod 10))
  end.

(** [datetime.isoformat()] of a naive timestamp: the fraction is printed
    only when [microsecond] is not zero. *)
Definition isoformat (d : datetime) : string :=
  (zfill 4 (year d) ++ "-" ++ zfill 2 (month d) ++ "-" ++ zfill 2 (day d)
   ++ "T" ++ zfill 2 (hour d) ++ ":" ++ zfill 2 (minute d) ++ ":"
   ++ zfill 2 (second d)
   ++ (if (microsecond d =? 0)%Z then EmptyString
       else "." ++ zfill 6 (microsecond d)))%string.

(** Reads [w] decimal digits. *)
Fixpoint digits (w : nat) (acc : Z) (s : string) : option (Z * string) :=
  match w with
  | O => Some (acc, s)
  | S w' =>
      match s with
      | String c s' =>
          if Json.is_digit c
          then digits w' (acc * 10 + (Z.of_N (N_of_ascii c) - 48)) s'
          else None
      | EmptyString => None
      end
  end.

Definition expect (n : N) (s : string) : option string :=
  match s with
  | String c s' => if Json.is_char c n then Some s' else None
  | EmptyString => None
  end.

Definition skip1 (s : string) : option string :=
  match s with
  | String _ s' => Some s'
  | EmptyString => None
  end.

(** [datetime.fromisoformat] on the two layouts [isoformat] prints. *)
Definition fromisoformat (s : string) : option datetime :=
  '(y, s) ← digits 4 0 s; s ← expect 45 s;
  '(m, s) ← digits 2 0 s; s ← expect 45 s;
  '(d, s) ← digits 2 0 s; s ← skip1 s;
  '(hh, s) ← digits 2 0 s; s ← expect 58 s;
  '(mm, s) ← digits 2 0 s; s ← expect 58 s;
  '(ss, s) ← digits 2 0 s;
  '(us, s) ← match s with
             | EmptyString => Some (0, s)
             | _ => s ← expect 46 s; digits 6 0 s
             end;
  match s with
  | EmptyString =>
      let dt := mk_datetime y m d hh mm ss us in
      if Datetime.valid dt then Some dt else None
  | _ => None
  end.

End Iso.

(** ** The [games] table *)

(** One row, without its primary key [channel_id], which is the key of the
    table. *)
Record row := mk_row {
  row_starter_id : Z;
  row_first_words : string;
  row_words_per_turn : Z;
  row_total_lines : Z;
  row_contributions : string;
  row_contributors : string;
  row_player_a : option Z;
  row_player_b : option Z;
  row_status : Status;
  row_last_activity : string;
  row_current_turn : Z
}.

Definition row_of_game (g : Game) : row :=
  mk_row (starter_id g) (first_words g) (words_per_turn g) (total_lines g)
    (Json.dumps_strs (contributions g)) (Json.dumps_ints (contributors g))
    (player_a g) (player_b g) (status g)
    (Iso.isoformat (last_activity g)) (current_turn g).

(** [INSERT OR REPLACE INTO games ...] *)
Definition save_game (g : Game) (db : gmap Z row) : gmap Z row :=
  <[channel_id g := row_of_game g]> db.

(** The body of the loop of [load_all_games] on one selected row. *)
Definition game_of_row (channel : Z) (r : row) : option Game :=
  cs ← Json.loads_strs (row_contributions r);
  us ← Json.loads_ints (row_contributors r);
  t ← Iso.fromisoformat (row_last_activity r);
  Some (mk_Game channel (row_starter_id r) (row_first_words r)
          (row_words_per_turn r) (row_total_lines r) true
          cs us (row_player_a r) (row_player_b r) (row_status r) t
          (row_current_turn r)).

(** [SELECT * FROM games WHERE status != 'complete'] *)
Definition select_non_complete (db : gmap Z row) : list (Z * row) :=
  filter (fun kr => row_status kr.2 ≠ complete) (map_to_list db).

Fixpoint load_rows (rows : list (Z * row)) (games : gmap Z Game)
    : option (gmap Z Game) :=
  match rows with
  | [] => Some games
  | (c, r) :: rest =>
      g ← game_of_row c r; load_rows rest (<[channel_id g := g]> games)
  end.

Definition load_all_games (db : gmap Z row) : option (gmap Z Game) :=
  load_rows (select_non_complete db) ∅.

(** [DELETE FROM games WHERE channel_id = ?] *)
Definition delete_game (channel : Z) (db : gmap Z row) : gmap Z row :=
  delete channel db.


(** ** The bot *)

(** The three dictionaries of [ExquisiteCorpseBot] and the table on disk. *)
Record State := mk_State {
  games : gmap Z Game;
  player_games : gmap Z Z;
  pending_responses : gmap Z Z;
  store : gmap Z row
}.

Definition set_games (v : gmap Z Game) (st : State) : State :=
  mk_State v (player_games st) (pending_responses st) (store st).
Definition set_player_games (v : gmap Z Z) (st : State) : State :=
  mk_State (games st) v (pending_responses st) (store st).
Definition set_pending_responses (v : gmap Z Z) (st : State) : State :=
  mk_State (games st) (player_games st) v (store st).
Definition set_store (v : gmap Z row) (st : State) : State :=
  mk_State (games st) (player_games st) (pending_responses st) v.

(** What a handler reads from outside the process. *)
Record env := mk_env {
  now : datetime;
  get_channel : Z -> bool;
  fetch_user : Z -> bool
}.

(** The first answer of a handler, by the message it sends; [Crashed] is an
    exception that leaves the handler. *)
Inductive reply :=
| AlreadyInGame | ChannelBusy | NeedExactly (expected given : Z)
| Started | Starting
| NoActiveGame | WaitingForStarter | InOtherGame (other_channel : Z)
| TwoActivePlayers | CantPlayYourself
| JoinedPoem | TakesOver | JoinedCheckDMs
| StatusYours (your_turn : bool) | StatusChannel | StatusNone
| NotInGame | LeftGame
| UnknownAction
| Ignored | NoPendingTurn | NoPendingTurnNow
| NeedExactlyTryAgain (expected given : Z)
| WordsLockedIn | Received
| SweepDone
| Crashed (e : exn).

(** [if words:] on an optional string. *)
Definition given (words : option string) : option string :=
  match words with
  | Some w => if Text.nonempty w then Some w else None
  | None => None
  end.

(** [bot.player_games.pop(uid, None); bot.pending_responses.pop(uid, None)] *)
Definition untrack (uid : Z) (st : State) : State :=
  set_pending_responses (delete uid (pending_responses st))
    (set_player_games (delete uid (player_games st)) st).

(** The state changes of [prompt_next_player]. *)
Definition prompt_next_player (e : env) (g : Game) (st : State) : State :=
  match current_player g with
  | Some p =>
      if p =? 0 then st
      else if fetch_user e p
      then set_pending_responses (<[p := channel_id g]> (pending_responses st)) st
      else st
  | None => st
  end.

(** The body of the clean-up loop of [post_completed_poem]: [if uid:] and
    the two pops. *)
Definition forget (st : State) (uid : option Z) : State :=
  match uid with
  | Some u => if truthy uid then untrack u st else st
  | None => st
  end.

(** The state changes of [post_completed_poem]. *)
Definition post_completed_poem (e : env) (g : Game) (st : State) : State :=
  if get_channel e (channel_id g) then
    let st1 := fold_left forget [player_a g; player_b g] st in
    set_store (delete_game (channel_id g) (store st1))
      (set_games (delete (channel_id g) (games st1)) st1)
  else st.

(** A game mutated in place under key [c] of [bot.games], then
    [save_game(game)]. *)
Definition commit (c : Z) (g : Game) (st : State) : State :=
  set_store (save_game g (store st)) (set_games (<[c := g]> (games st)) st).

Definition finish_turn (e : env) (g : Game) (st : State) : State :=
  if decide (status g = complete) then post_completed_poem e g st
  else prompt_next_player e g st.

Definition cmd_start (e : env) (user channel : Z) (words : option string)
    (lines wordcount : Z) (st : State) : State * reply :=
  if decide (is_Some (player_games st !! user)) then (st, AlreadyInGame)
  else
    let busy :=
      match games st !! channel with
      | Some existing => bool_decide (status existing ≠ complete)
      | None => false
      end in
    if busy then (st, ChannelBusy)
    else
      match given words with
      | Some w =>
          if decide (count_words w ≠ wordcount)
          then (st, NeedExactly wordcount (count_words w))
          else
            let g := new_Game channel user w wordcount lines false (now e) in
            let st1 := set_games (<[channel := g]> (games st)) st in
            let st2 :=
              set_player_games (<[user := channel]> (player_games st1)) st1 in
            (set_store (save_game g (store st2)) st2, Started)
      | None =>
          let g0 :=
            new_Game channel user EmptyString wordcount lines true (now e) in
          let g :=
            set_status pending
              (set_player_a (Some user)
                 (set_contributors [] (set_contributions [] g0))) in
          let st1 := set_games (<[channel := g]> (games st)) st in
          let st2 :=
            set_player_games (<[user := channel]> (player_games st1)) st1 in
          let st3 :=
            set_pending_responses
              (<[user := channel]> (pending_responses st2)) st2 in
          (set_store (save_game g (store st3)) st3, Starting)
      end.

(** The slot assignment of a takeover: the slot of the current turn. *)
Definition take_slot (user : Z) (g : Game) : Game :=
  if current_turn g mod 2 =? 0 then set_player_a (Some user) g
  else set_player_b (Some user) g.

Definition cmd_join (e : env) (user channel : Z) (words : option string)
    (st : State) : State * reply :=
  match games st !! channel with
  | None => (st, NoActiveGame)
  | Some game =>
      if decide (status game = complete) then (st, NoActiveGame)
      else if decide (status game = pending) then (st, WaitingForStarter)
      else
        let elsewhere :=
          match player_games st !! user with
          | Some other => if decide (other ≠ channel) then Some other else None
          | None => None
          end in
        match elsewhere with
        | Some other => (st, InOtherGame other)
        | None =>
            if negb (slot_is_open game) then (st, TwoActivePlayers)
            else if decide (status game = open ∧ player_a game = Some user)
            then (st, CantPlayYourself)
            else
              match given words with
              | Some w =>
                  if decide (count_words w ≠ words_per_turn game)
                  then (st, NeedExactly (words_per_turn game) (count_words w))
                  else
                    let seated :=
                      if decide (status game = open)
                      then set_status active (set_player_b (Some user) game)
                      else take_slot user game in
                    let g := add_contribution user w (now e) seated in
                    let st1 := set_games (<[channel := g]> (games st)) st in
                    let st2 :=
                      set_player_games
                        (<[user := channel]> (player_games st1)) st1 in
                    let st3 := set_store (save_game g (store st2)) st2 in
                    (finish_turn e g st3,
                     if decide (status game = open) then JoinedPoem
                     else TakesOver)
              | None =>
                  let g :=
                    if decide (status game = open)
                    then set_status active (set_player_b (Some user) game)
                    else take_slot user game in
                  let st1 := set_games (<[channel := g]> (games st)) st in
                  let st2 :=
                    set_player_games
                      (<[user := channel]> (player_games st1)) st1 in
                  let st3 :=
                    set_pending_responses
                      (<[user := channel]> (pending_responses st2)) st2 in
                  (set_store (save_game g (store st3)) st3, JoinedCheckDMs)
              end
        end
  end.

Definition cmd_status (user channel : Z) (st : State) : State * reply :=
  let own :=
    match player_games st !! user with
    | Some c => games st !! c
    | None => None
    end in
  match own with
  | Some game =>
      match last_word game with
      | Ok _ =>
          (st, StatusYours (bool_decide (current_player game = Some user)))
      | Raised x => (st, Crashed x)
      end
  | None =>
      match games st !! channel with
      | Some game =>
          if decide (status game ≠ complete) then
            match last_word game with
            | Ok _ => (st, StatusChannel)
            | Raised x => (st, Crashed x)
            end
          else (st, StatusNone)
      | None => (st, StatusNone)
      end
  end.

(** [cmd_abandon]'s two conditional slot assignments. *)
Definition leave_slots (user : Z) (g : Game) : Game :=
  let g1 := if decide (player_a g = Some user) then set_player_a None g else g in
  if decide (player_b g1 = Some user) then set_player_b None g1 else g1.

Definition cmd_abandon (e : env) (user : Z) (st : State) : State * reply :=
  match player_games st !! user with
  | None => (st, NotInGame)
  | Some channel =>
      let st1 := untrack user st in
      match games st1 !! channel with
      | Some game =>
          let g := leave_slots user game in
          let st2 := commit channel g st1 in
          if get_channel e channel then
            match last_word g with
            | Ok _ => (st2, LeftGame)
            | Raised x => (st2, Crashed x)
            end
          else (st2, LeftGame)
      | None => (st1, LeftGame)
      end
  end.

(** The action of [/corpse], after [action.lower().strip()] is matched. *)
Inductive action :=
| ActStart (words : option string) (lines wordcount : Z)
| ActJoin (words : option string)
| ActStatus
| ActAbandon
| ActOther.

Definition corpse (e : env) (user channel : Z) (a : action) (st : State)
    : State * reply :=
  match a with
  | ActStart words lines wordcount =>
      cmd_start e user channel words lines wordcount st
  | ActJoin words => cmd_join e user channel words st
  | ActStatus => cmd_status user channel st
  | ActAbandon => cmd_abandon e user st
  | ActOther => (st, UnknownAction)
  end.

Definition clear_mark (author : Z) (st : State) : State :=
  set_pending_responses (delete author (pending_responses st)) st.

Definition on_message (e : env) (author : Z) (is_bot in_guild : bool)
    (content : string) (st : State) : State * reply :=
  if is_bot then (st, Ignored)
  else if in_guild then (st, Ignored)
  else
    match pending_responses st !! author with
    | None => (st, NoPendingTurn)
    | Some channel =>
        match games st !! channel with
        | None => (clear_mark author st, NoPendingTurnNow)
        | Some game =>
            let words := Text.strip content in
            if decide (count_words words ≠ words_per_turn game)
            then (st, NeedExactlyTryAgain (words_per_turn game)
                        (count_words words))
            else if decide (status game = pending) then
              let g :=
                set_last_activity (now e)
                  (set_status open
                     (set_contributors [author]
                        (set_contributions [words]
                           (set_first_words words game)))) in
              (commit channel g (clear_mark author st), WordsLockedIn)
            else if decide (current_player game ≠ Some author)
            then (clear_mark author st, NoPendingTurnNow)
            else
              let g := add_contribution author words (now e) game in
              (finish_turn e g (commit channel g (clear_mark author st)),
               Received)
        end
    end.

(** One iteration of the loop of [timeout_checker] on the pair
    [(channel_id, game)] of the snapshot [list(self.games.items())].  The
    notice sent to the channel evaluates [game.last_word]; an exception
    there leaves the loop after the state changes of this iteration. *)
Definition sweep_step (e : env) (c : Z) (g : Game) (st : State)
    : State * option exn :=
  if decide (status g ≠ active) then (st, None)
  else if Datetime.sub (now e) (last_activity g) <=? timeout_delta
  then (st, None)
  else
    match current_player g with
    | None => (st, None)
    | Some p =>
        if p =? 0 then (st, None)
        else
          let g' := timeout_current_player g in
          let st' := untrack p (commit c g' st) in
          if get_channel e c then
            match last_word g' with
            | Ok _ => (st', None)
            | Raised x => (st', Some x)
            end
          else (st', None)
    end.

Fixpoint sweep_loop (e : env) (items : list (Z * Game)) (st : State)
    : State * reply :=
  match items with
  | [] => (st, SweepDone)
  | (c, g) :: rest =>
      match sweep_step e c g st with
      | (st', None) => sweep_loop e rest st'
      | (st', Some x) => (st', Crashed x)
      end
  end.

Definition timeout_checker (e : env) (st : State) : State * reply :=
  sweep_loop e (map_to_list (games st)) st.

(** What reaches the bot. *)
Inductive event :=
| Command (user channel : Z) (a : action)
| Message (author : Z) (is_bot in_guild : bool) (content : string)
| Tick.

Definition step (e : env) (ev : event) (st : State) : State * reply :=
  match ev with
  | Command user channel a => corpse e user channel a st
  | Message author is_bot in_guild content =>
      on_message e author is_bot in_guild content st
  | Tick => timeout_checker e st
  end.

(** [bot.player_games[uid] = channel_id] under [if uid:]. *)
Definition track (uid : option Z) (c : Z) (m : gmap Z Z) : gmap Z Z :=
  match uid with
  | Some u => if truthy uid then <[u := c]> m else m
  | None => m
  end.

(** One iteration of the loop of [ExquisiteCorpseBot.__init__] that
    rebuilds the two router indices from a loaded game. *)
Definition rebuild (st : State) (item : Z * Game) : State :=
  let '(c, g) := item in
  let st1 :=
    set_player_games
      (track (player_b g) c (track (player_a g) c (player_games st))) st in
  if bool_decide (status g = pending) && truthy (player_a g)
  then set_pending_responses (track (player_a g) c (pending_responses st1)) st1
  else if bool_decide (status g = active) && truthy (current_player g)
  then set_pending_responses
         (track (current_player g) c (pending_responses st1)) st1
  else st1.

(** [ExquisiteCorpseBot.__init__] on the table [db]. *)
Definition startup (db : gmap Z row) : option State :=
  loaded ← load_all_games db;
  Some (fold_left rebuild (map_to_list loaded) (mk_State loaded ∅ ∅ db)).

(** The bot on an empty table. *)
Definition initial : State := mk_State ∅ ∅ ∅ ∅.

(** ** Poem assembly, as specified *)

(** The pairing as the specification words it: contributions are taken two
    by two, a pair makes one line, a last contribution without a partner is
    a line of its own. *)
Fixpoint paired_lines (cs : list string) : list string :=
  match cs with
  | a :: b :: rest => (a ++ " / " ++ b)%string :: paired_lines rest
  | [a] => [a]
  | [] => []
  end.


(** ** Vocabulary of the statements *)

(** The seat a join takes: slot b of an open game, which becomes active,
    or the slot of the current turn of an active one. *)
Definition seat (user : Z) (g : Game) : Game :=
  if decide (status g = open)
  then set_status active (set_player_b (Some user) g)
  else take_slot user g.

(** The guards of [cmd_join] that come before the words are looked at. *)
Definition join_allows (st : State) (user c : Z) (g : Game) : Prop :=
  status g <> complete /\ status g <> pending
  /\ (forall other, player_games st !! user = Some other -> other = c)
  /\ slot_is_open g = true
  /\ ~ (status g = open /\ player_a g = Some user).

(** The slot that is not the one of the current turn. *)
Definition other_slot (g : Game) : option Z :=
  if current_turn g mod 2 =? 0 then player_b g else player_a g.

(** The text an event submits and the identity that submits it. *)
Definition entry_of (ev : event) : option (string * Z) :=
  match ev with
  | Command user _ (ActStart words _ _) => (fun w => (w, user)) <$> given words
  | Command user _ (ActJoin words) => (fun w => (w, user)) <$> given words
  | Command _ _ _ => None
  | Message author _ _ content => Some (Text.strip content, author)
  | Tick => None
  end.

(** The game a pending [cmd_start] builds. *)
Definition pending_Game (channel starter wordcount lines : Z) (t : datetime)
    : Game :=
  set_status pending
    (set_player_a (Some starter)
       (set_contributors []
          (set_contributions []
             (new_Game channel starter EmptyString wordcount lines true t)))).

(** The game [on_message] makes of a pending one. *)
Definition first_words_Game (author : Z) (words : string) (t : datetime)
    (g : Game) : Game :=
  set_last_activity t
    (set_status open
       (set_contributors [author]
          (set_contributions [words] (set_first_words words g)))).

(** Every way in which one event, at time [t] and submitting [entry], puts
    a game under a key of [bot.games]: what was under the key before, and
    the game that is under it after. *)
Inductive change (t : datetime) (entry : option (string * Z))
  : option Game -> Game -> Prop :=
| ch_start (o : option Game) (c u lines wordcount : Z) (w : string) :
    entry = Some (w, u) ->
    change t entry o (new_Game c u w wordcount lines false t)
| ch_start_pending (o : option Game) (c u lines wordcount : Z) :
    change t entry o (pending_Game c u wordcount lines t)
| ch_seat (g : Game) (u : Z) :
    status g = open \/ status g = active ->
    change t entry (Some g) (seat u g)
| ch_seat_words (g : Game) (u : Z) (w : string) :
    entry = Some (w, u) ->
    status g = open \/ status g = active ->
    change t entry (Some g) (add_contribution u w t (seat u g))
| ch_leave (g : Game) (u : Z) :
    change t entry (Some g) (leave_slots u g)
| ch_first_words (g : Game) (u : Z) (w : string) :
    entry = Some (w, u) ->
    status g = pending ->
    change t entry (Some g) (first_words_Game u w t g)
| ch_turn (g : Game) (u : Z) (w : string) :
    entry = Some (w, u) ->
    status g <> pending -> current_player g = Some u ->
    change t entry (Some g) (add_contribution u w t g)
| ch_timeout (g : Game) :
    status g = active ->
    change t entry (Some g) (timeout_current_player g).

(** The condition under which the sweep vacates a slot of a game. *)
Definition eligible (t : datetime) (g : Game) : bool :=
  bool_decide (status g = active)
  && negb (Datetime.sub t (last_activity g) <=? timeout_delta)
  && truthy (current_player g).

(** What a sweep at time [t] makes of a game. *)
Definition swept (t : datetime) (g : Game) : Game :=
  if eligible t g then timeout_current_player g else g.

(** The states the bot reaches from the empty table. *)
Inductive reachable : State -> Prop :=
| reach_initial : reachable initial
| reach_step (e : env) (ev : event) (st : State) :
    reachable st -> reachable (step e ev st).1.

(** The bot after a sequence of events, each with what it reads from
    outside. *)
Definition run (evs : list (env * event)) (st : State) : State :=
  fold_left (fun s x => (step x.1 x.2 s).1) evs st.

(** A property of every live game. *)
Definition all_games (P : Game -> Prop) (st : State) : Prop :=
  forall c g, games st !! c = Some g -> P g.

(** For a game of at least one line: complete exactly when the turn counter
    has reached [total_turns]. *)
Definition completion_inv (g : Game) : Prop :=
  0 < total_lines g ->
  (status g = complete <-> total_turns g <= current_turn g).

(** The two lists of a game run in parallel. *)
Definition parallel (g : Game) : Prop :=
  length (contributions g) = length (contributors g).

(** The contributions and contributors under a key, none without a game. *)
Definition texts_at (st : State) (c : Z) : list string :=
  from_option contributions [] (games st !! c).
Definition authors_at (st : State) (c : Z) : list Z :=
  from_option contributors [] (games st !! c).

(** Every character of a string is a digit or a minus sign. *)
Fixpoint number_chars (s : string) : bool :=
  match s with
  | EmptyString => true
  | String c s' => (Json.is_digit c || Json.is_char c 45) && number_chars s'
  end.

(** A game as [load_all_games] rebuilds it: every stored field, and the
    transient [_skip_init] set. *)
Definition reloaded (g : Game) : Game :=
  mk_Game (channel_id g) (starter_id g) (first_words g) (words_per_turn g)
    (total_lines g) true (contributions g) (contributors g) (player_a g)
    (player_b g) (status g) (last_activity g) (current_turn g).

(** ** A small scenario, for the examples *)

Definition noon : datetime := mk_datetime 2024 1 1 12 0 0 0.
Definition three_pm : datetime := mk_datetime 2024 1 1 15 0 0 0.

(** Every channel and every user is found. *)
Definition e_noon : env := mk_env noon (fun _ => true) (fun _ => true).
Definition e_three_pm : env := mk_env three_pm (fun _ => true) (fun _ => true).

(** The channel of the game is not found by [bot.get_channel]: deleted, or
    out of the cache of the bot. *)
Definition e_lost : env := mk_env noon (fun _ => false) (fun _ => true).

(** User 1 starts a four-line game in channel 7 with six words. *)
Definition st_open : State :=
  (step e_noon (Command 1 7 (ActStart (Some "a b c d e f") 4 6)) initial).1.

(** User 2 joins it with six words: turn 2, user 1 is prompted. *)
Definition st_active : State :=
  (step e_noon (Command 2 7 (ActJoin (Some "g h i j k l"))) st_open).1.

(** The game of channel 7 in [st_active]. *)
Definition g_active : Game :=
  add_contribution 2 "g h i j k l" noon
    (seat 2 (new_Game 7 1 "a b c d e f" 6 4 false noon)).

(** Three hours later the sweep vacates the slot of user 1. *)
Definition st_vacated : State := (step e_three_pm Tick st_active).1.

(** User 1 starts a one-line game in channel 7 with six words, and user 2
    joins it without words: user 2 is awaited for the second contribution. *)
Definition st_short : State :=
  (step e_noon (Command 1 7 (ActStart (Some "a b c d e f") 1 6)) initial).1.
Definition st_short_joined : State :=
  (step e_noon (Command 2 7 (ActJoin None)) st_short).1.

(** Marks that no slot backs.  [prompt_next_player] reads the identity to
    prompt, may wait for [bot.fetch_user], and sets the mark on resuming;
    what other handlers did in between is not looked at again.
    [st_stale_active]: user 1, awaited in the active game of channel 7,
    has left it, and the mark of user 1 was set after that.
    [st_stale_pending]: user 1 has started a game in channel 7 without
    words, the game is pending, and user 2 holds a mark on channel 7 from
    a game that was there before. *)
Definition st_left : State :=
  (step e_noon (Command 1 7 ActAbandon) st_active).1.
Definition st_stale_active : State :=
  set_pending_responses (<[1 := 7]> (pending_responses st_left)) st_left.

Definition st_pending : State :=
  (step e_noon (Command 1 7 (ActStart None 4 6)) initial).1.
Definition st_stale_pending : State :=
  set_pending_responses (<[2 := 7]> (pending_responses st_pending)) st_pending.

(** A second game, in channel 8, and a table that holds its row. *)
Definition g_other : Game := new_Game 8 3 "u v w x y z" 6 4 false noon.
Definition db_other : gmap Z row := save_game g_other ∅.

(** ** Further vocabulary *)

(** The distinct elements of a list in the order of their first
    appearance, as the specification words [unique_contributors]. *)
Fixpoint first_seen (l : list Z) : list Z :=
  match l with
  | [] => []
  | x :: l' => x :: filter (fun y => y <> x) (first_seen l')
  end.

(** No character of a string is blank. *)
Fixpoint blank_free (s : string) : bool :=
  match s with
  | EmptyString => true
  | String c s' => negb (Text.is_space c) && blank_free s'
  end.

(** A channel in which [cmd_start] may create a game: no game there, or a
    complete one. *)
Definition channel_free (st : State) (c : Z) : Prop :=
  games st !! c = None
  \/ exists g, games st !! c = Some g /\ status g = complete.

(** The identity is bound to no channel other than [c]. *)
Definition not_elsewhere (st : State) (user c : Z) : Prop :=
  forall other, player_games st !! user = Some other -> other = c.

(** The game awaits a text of the identity: its starter's first words, or
    the turn of the current player. *)
Definition backs (g : Game) (u : Z) : Prop :=
  (status g = pending /\ player_a g = Some u)
  \/ (status g = active /\ current_player g = Some u).

(** The identity holds a slot of the game. *)
Definition seated (g : Game) (u : Z) : Prop :=
  player_a g = Some u \/ player_b g = Some u.

(** ** Invariants of the live games and of the table *)

(** Contributions are counted by the turn counter: none while the game is
    pending, at turn 1; afterwards as many as [current_turn]. *)
Definition counted (g : Game) : Prop :=
  (status g = pending -> contributions g = [] /\ current_turn g = 1)
  /\ (status g <> pending ->
      Z.of_nat (length (contributions g)) = current_turn g).

(** Every contribution has [words_per_turn] words. *)
Definition worded (g : Game) : Prop :=
  Forall (fun w => count_words w = words_per_turn g) (contributions g).

(** A game under key [c] of [bot.games]. *)
Definition shaped (c : Z) (g : Game) : Prop :=
  channel_id g = c /\ counted g /\ worded g.

(** The table follows the live games: the row of a live game is the one
    [save_game] writes for it, and a row of a channel without a live game
    is the row of a complete game. *)
Definition synced (st : State) : Prop :=
  (forall c g, games st !! c = Some g -> store st !! c = Some (row_of_game g))
  /\ (forall c r, store st !! c = Some r -> games st !! c = None ->
                  row_status r = complete).

Definition wf (st : State) : Prop :=
  synced st /\ forall c g, games st !! c = Some g -> shaped c g.

(** The list [lines] that the loop of [get_poem] builds. *)
Definition poem_lines (g : Game) : list string :=
  fold_left (fun lines i => lines ++ poem_line (contributions g) i)
    (range_by_2 (length (contributions g))) [].

(** The order of the statuses in the life of a game. *)
Definition rank (s : Status) : Z :=
  match s with pending => 0 | open => 1 | active => 2 | complete => 3 end.

(** The event is a [start] in channel [c]. *)
Definition starts_in (ev : event) (c : Z) : Prop :=
  exists user words lines wordcount,
    ev = Command user c (ActStart words lines wordcount).

(** Every timestamp of a live game is within the ranges of [datetime]. *)
Definition timed (st : State) : Prop :=
  forall c g, games st !! c = Some g ->
              Datetime.valid (last_activity g) = true.

(** The states of the bot in operation: from the empty table, by the
    events, with [datetime.utcnow()] within the ranges of [datetime], and
    by restarts, where [ExquisiteCorpseBot.__init__] runs on the table as
    the process before has left it. *)
Inductive operated : State -> Prop :=
| op_initial : operated initial
| op_step (e : env) (ev : event) (st : State) :
    Datetime.valid (now e) = true -> operated st ->
    operated (step e ev st).1
| op_restart (st st' : State) :
    operated st -> startup (store st) = Some st' -> operated st'.

(** User 2 joins the one-line game of channel 7 with six words while the
    channel is not found: the game is complete and stays.  Then the bot
    is started again. *)
Definition st_lost : State :=
  (step e_lost (Command 2 7 (ActJoin (Some "g h i j k l"))) st_short).1.
Definition st_restarted : State :=
  default initial (startup (store st_lost)).

(** * Methods of [Game] on examples *)

Example count_words_example :
  count_words "  one two   three " = 3 /\ count_words EmptyString = 0.
Proof. split; reflexivity. Qed.

Example last_word_example (g : Game) :
  last_word (set_contributions ["a b c"; "one two three"] g) = Ok (Some "three")
  /\ last_word (set_contributions [] g) = Ok None
  /\ last_word (set_contributions [" "] g) = Raised IndexError.
Proof. repeat split. Qed.

Example unique_contributors_example (g : Game) :
  get_unique_contributors (set_contributors [1; 2; 1; 3] g) = [1; 2; 3].
Proof. reflexivity. Qed.

Example slot_is_open_example (g : Game) :
  slot_is_open (set_status pending g) = false
  /\ slot_is_open (set_status open g) = true
  /\ slot_is_open (set_status complete g) = false
  /\ slot_is_open
       (set_status active (set_current_turn 2 (set_player_a None g))) = true
  /\ slot_is_open
       (set_status active (set_current_turn 2 (set_player_a (Some 1) g)))
     = false.
Proof. repeat split. Qed.

(** * Poem assembly *)

Lemma pair_list_ind {A} (P : list A -> Prop) :
  P [] -> (forall a, P [a]) -> (forall a b l, P l -> P (a :: b :: l)) ->
  forall l, P l.
Proof.
  intros Hnil Hone Hstep l.
  enough (P l /\ forall a, P (a :: l)) by tauto.
  induction l as [|x l [IH1 IH2]]; split; auto.
Qed.

Lemma range_by_2_step (n : nat) :
  range_by_2 (S (S n)) = 0%nat :: ((fun i => 2 + i)%nat <$> range_by_2 n).
Proof.
  unfold range_by_2.
  replace (S (S n) + 1)%nat with (S (S (n + 1))) by lia.
  cbn [Nat.div2 seq fmap list_fmap]. f_equal.
  rewrite <- fmap_S_seq, <- !list_fmap_compose.
  apply list_fmap_ext. intros ? k _. cbn. lia.
Qed.

Lemma poem_line_last (pre : list string) (a : string) :
  poem_line (pre ++ [a]) (length pre) = [a].
Proof.
  unfold poem_line. rewrite length_app. cbn [length].
  destruct (Nat.ltb_spec (length pre + 1) (length pre + 1)); [lia|].
  by rewrite list_lookup_middle.
Qed.

Lemma poem_line_pair (pre : list string) (a b : string) (l : list string) :
  poem_line (pre ++ a :: b :: l) (length pre) = [(a ++ " / " ++ b)%string].
Proof.
  unfold poem_line. rewrite length_app. cbn [length].
  destruct (Nat.ltb_spec (length pre + 1) (length pre + S (S (length l))));
    [|lia].
  rewrite list_lookup_middle by done.
  replace (pre ++ a :: b :: l) with ((pre ++ [a]) ++ b :: l)
    by (by rewrite <- app_assoc).
  by rewrite list_lookup_middle by (rewrite length_app; cbn; lia).
Qed.

Lemma poem_lines_from (suf : list string) :
  forall (pre acc : list string),
    fold_left (fun lines i => lines ++ poem_line (pre ++ suf) i)
      ((fun i => length pre + i)%nat <$> range_by_2 (length suf)) acc
    = acc ++ paired_lines suf.
Proof.
  induction suf as [|a|a b l IH] using pair_list_ind; intros pre acc.
  - cbn. by rewrite app_nil_r.
  - change (range_by_2 (length [a])) with [0%nat].
    cbn [fmap list_fmap fold_left paired_lines].
    by rewrite Nat.add_0_r, poem_line_last.
  - cbn [length]. rewrite range_by_2_step. cbn [fmap list_fmap fold_left].
    rewrite Nat.add_0_r, poem_line_pair, <- list_fmap_compose.
    replace (pre ++ a :: b :: l) with ((pre ++ [a; b]) ++ l)
      by (by rewrite <- app_assoc).
    erewrite (list_fmap_ext _ (fun i => length (pre ++ [a; b]) + i)%nat);
      [rewrite IH | intros ? k _; cbn; rewrite length_app; cbn; lia].
    by rewrite <- app_assoc.
Qed.


(** * Records *)

(** Reduces the field reads of the field assignments, and nothing else. *)
Ltac fields :=
  cbn [channel_id starter_id first_words words_per_turn total_lines skip_init
       contributions contributors player_a player_b status last_activity
       current_turn set_first_words set_contributions set_contributors
       set_player_a set_player_b set_status set_last_activity set_current_turn
       games player_games pending_responses store set_games set_player_games
       set_pending_responses set_store fst snd] in *.

(** Decides a closed statement by running the definitions. *)
Ltac run := vm_compute; first [reflexivity | discriminate | done].

(** * Withdrawal *)

Lemma leave_slots_frame (user : Z) (g : Game) :
  player_a (leave_slots user g)
  = (if decide (player_a g = Some user) then None else player_a g)
  /\ player_b (leave_slots user g)
     = (if decide (player_b g = Some user) then None else player_b g)
  /\ status (leave_slots user g) = status g
  /\ contributions (leave_slots user g) = contributions g
  /\ contributors (leave_slots user g) = contributors g
  /\ current_turn (leave_slots user g) = current_turn g
  /\ last_activity (leave_slots user g) = last_activity g
  /\ channel_id (leave_slots user g) = channel_id g
  /\ starter_id (leave_slots user g) = starter_id g
  /\ first_words (leave_slots user g) = first_words g
  /\ words_per_turn (leave_slots user g) = words_per_turn g
  /\ total_lines (leave_slots user g) = total_lines g.
Proof.
  unfold leave_slots. destruct g as [? ? ? ? ? ? ? ? pa pb ? ? ?]; cbn.
  repeat case_decide; cbn in *; repeat split; congruence.
Qed.

Lemma cmd_abandon_state (e : env) (user : Z) (st : State) :
  (cmd_abandon e user st).1
  = match player_games st !! user with
    | None => st
    | Some channel =>
        match games st !! channel with
        | Some game => commit channel (leave_slots user game) (untrack user st)
        | None => untrack user st
        end
    end.
Proof.
  unfold cmd_abandon. destruct (player_games st !! user) as [c|]; [|done].
  change (games (untrack user st)) with (games st).
  destruct (games st !! c) as [g|]; [|done].
  destruct (get_channel e c); [destruct (last_word _)|]; done.
Qed.



(** * Joining *)

Lemma join_allows_decidable (st : State) (user c : Z) (g : Game) :
  join_allows st user c g \/ ~ join_allows st user c g.
Proof.
  unfold join_allows.
  destruct (decide (status g = complete)); [right; tauto|].
  destruct (decide (status g = pending)); [right; tauto|].
  destruct (slot_is_open g); [|right; intros (_ & _ & _ & ? & _); done].
  destruct (decide (status g = open ∧ player_a g = Some user));
    [right; tauto|].
  destruct (player_games st !! user) as [o|].
  - destruct (decide (o = c)) as [->|].
    + left. repeat split; try done. congruence.
    + right. intros (_ & _ & H & _). by specialize (H o eq_refl).
  - left. repeat split; done.
Qed.

Lemma cmd_join_allowed (e : env) (user c : Z) (words : option string)
    (st : State) (g : Game) :
  games st !! c = Some g -> join_allows st user c g ->
  cmd_join e user c words st
  = match given words with
    | Some w =>
        if decide (count_words w ≠ words_per_turn g)
        then (st, NeedExactly (words_per_turn g) (count_words w))
        else
          let g' := add_contribution user w (now e) (seat user g) in
          (finish_turn e g'
             (set_store (save_game g' (store st))
                (set_player_games (<[user := c]> (player_games st))
                   (set_games (<[c := g']> (games st)) st))),
           if decide (status g = open) then JoinedPoem else TakesOver)
    | None =>
        let g' := seat user g in
        (set_store (save_game g' (store st))
           (set_pending_responses (<[user := c]> (pending_responses st))
              (set_player_games (<[user := c]> (player_games st))
                 (set_games (<[c := g']> (games st)) st))),
         JoinedCheckDMs)
    end.
Proof.
  intros Hg (Hc & Hp & Hb & Ho & Hs). unfold cmd_join. rewrite Hg.
  rewrite !decide_False by done.
  assert (match player_games st !! user with
          | Some other => if decide (other ≠ c) then Some other else None
          | None => None
          end = None) as ->.
  { destruct (player_games st !! user) as [o|] eqn:Ho'; [|done].
    rewrite decide_False; [done|]. intros Hne. by apply Hne, Hb. }
  rewrite Ho. cbn [negb]. unfold seat. destruct (given words) as [w|]; [|done].
  by destruct (decide (count_words w ≠ words_per_turn g)).
Qed.

Lemma cmd_join_refused (e : env) (user c : Z) (words : option string)
    (st : State) :
  (forall g, games st !! c = Some g -> ~ join_allows st user c g) ->
  (cmd_join e user c words st).1 = st.
Proof.
  intros Hno. unfold cmd_join.
  destruct (games st !! c) as [g|] eqn:Hg; [|done].
  specialize (Hno g eq_refl).
  destruct (decide (status g = complete)); [done|].
  destruct (decide (status g = pending)); [done|].
  destruct (player_games st !! user) as [o|] eqn:Hpg.
  - destruct (decide (o ≠ c)) as [|Heq]; [done|].
    apply dec_stable in Heq. subst o.
    destruct (slot_is_open g) eqn:Hso; [|done]. cbn [negb].
    destruct (decide (status g = open ∧ player_a g = Some user)); [done|].
    exfalso. apply Hno. unfold join_allows. rewrite Hpg.
    repeat split; try done. congruence.
  - destruct (slot_is_open g) eqn:Hso; [|done]. cbn [negb].
    destruct (decide (status g = open ∧ player_a g = Some user)); [done|].
    exfalso. apply Hno. unfold join_allows. rewrite Hpg.
    repeat split; done.
Qed.

Lemma take_slot_both (user : Z) (g : Game) :
  other_slot g = Some user ->
  player_a (take_slot user g) = Some user
  /\ player_b (take_slot user g) = Some user
  /\ status (take_slot user g) = status g
  /\ current_turn (take_slot user g) = current_turn g
  /\ total_lines (take_slot user g) = total_lines g.
Proof.
  unfold other_slot, take_slot.
  destruct (current_turn g mod 2 =? 0); intros H; done.
Qed.

Lemma add_contribution_slots (u : Z) (w : string) (t : datetime) (g : Game) :
  player_a (add_contribution u w t g) = player_a g
  /\ player_b (add_contribution u w t g) = player_b g
  /\ channel_id (add_contribution u w t g) = channel_id g
  /\ words_per_turn (add_contribution u w t g) = words_per_turn g
  /\ total_lines (add_contribution u w t g) = total_lines g
  /\ current_turn (add_contribution u w t g) = current_turn g + 1.
Proof.
  unfold add_contribution, total_turns. fields.
  by destruct (total_lines g * 2 <=? current_turn g + 1).
Qed.

Lemma add_contribution_status (u : Z) (w : string) (t : datetime) (g : Game) :
  status (add_contribution u w t g)
  = if total_turns g <=? current_turn g + 1 then complete else status g.
Proof.
  unfold add_contribution, total_turns. fields.
  by destruct (total_lines g * 2 <=? current_turn g + 1).
Qed.

Lemma prompt_next_player_games (e : env) (g : Game) (st : State) :
  games (prompt_next_player e g st) = games st
  /\ player_games (prompt_next_player e g st) = player_games st
  /\ store (prompt_next_player e g st) = store st.
Proof. unfold prompt_next_player. by repeat case_match. Qed.

(** C9. In an active session whose current-turn slot is vacant, [cmd_join]
    accepts an identity that already holds the other slot and is bound to
    this very session: neither the check on another session nor the guard
    against playing oneself, which looks at open games only, refuses it.
    Without words the identity is seated and holds both slots; with the
    right number of words it is seated, its contribution is appended, and
    it holds both slots of the session, which stays live and active unless
    this contribution was the last one. *)
Theorem join_own_session (e : env) (user c : Z) (words : option string)
    (st : State) (g : Game) :
  games st !! c = Some g ->
  status g = active ->
  slot_is_open g = true ->
  player_games st !! user = Some c ->
  other_slot g = Some user ->
  let out := cmd_join e user c words st in
  (given words = None ->
     out.2 = JoinedCheckDMs
     /\ exists g', games out.1 !! c = Some g' /\ status g' = active
          /\ player_a g' = Some user /\ player_b g' = Some user)
  /\ (forall w,
        given words = Some w -> count_words w = words_per_turn g ->
        let g' := add_contribution user w (now e) (take_slot user g) in
        out.2 = TakesOver
        /\ player_a g' = Some user /\ player_b g' = Some user
        /\ (current_turn g + 1 < total_turns g ->
            games out.1 !! c = Some g' /\ status g' = active)).
Proof.
  intros Hg Hact Hopen Hbound Hother out.
  assert (Hok : join_allows st user c g).
  { unfold join_allows. rewrite Hact, Hbound. repeat split; try done.
    - congruence.
    - by intros [? _]. }
  assert (Hseat : seat user g = take_slot user g).
  { unfold seat. rewrite decide_False; [done|]. by rewrite Hact. }
  destruct (take_slot_both user g Hother) as (Ha & Hb & Hs & Ht & Hl).
  subst out. rewrite (cmd_join_allowed _ _ _ _ _ _ Hg Hok), Hseat. split.
  - intros ->. cbn. split; [done|]. exists (take_slot user g).
    rewrite lookup_insert_eq. repeat split; congruence.
  - intros w -> Hcount. rewrite decide_False by (by intros []).
    rewrite decide_False by (by rewrite Hact).
    destruct (add_contribution_slots user w (now e) (take_slot user g))
      as (Ha' & Hb' & _).
    cbn zeta. cbn [fst snd]. repeat split; try congruence.
    + unfold finish_turn. rewrite add_contribution_status.
      unfold total_turns in *. rewrite Hl, Ht.
      destruct (Z.leb_spec (total_lines g * 2) (current_turn g + 1)); [lia|].
      rewrite decide_False by congruence.
      rewrite (proj1 (prompt_next_player_games _ _ _)). cbn.
      by rewrite lookup_insert_eq.
    + rewrite add_contribution_status. unfold total_turns in *.
      rewrite Hl, Ht.
      destruct (Z.leb_spec (total_lines g * 2) (current_turn g + 1)); [lia|].
      congruence.
Qed.

(** After the sweep has vacated slot a of the game in channel 7, user 2,
    who holds slot b, joins again without words. *)
Lemma join_own_session_witness :
  games st_vacated !! 7 = Some (timeout_current_player g_active)
  /\ player_games st_vacated !! 2 = Some 7
  /\ (cmd_join e_three_pm 2 7 None st_vacated).2 = JoinedCheckDMs.
Proof.
  split; [run|]. split; [run|].
  refine (proj1 (proj1 (join_own_session e_three_pm 2 7 None st_vacated _
                          ltac:(run) ltac:(run) ltac:(run) ltac:(run)
                          ltac:(run)) ltac:(run))).
Defined.

(** * Free text *)

Lemma on_message_routed (e : env) (author : Z) (content : string)
    (st : State) (c : Z) (g : Game) :
  pending_responses st !! author = Some c -> games st !! c = Some g ->
  on_message e author false false content st
  = let words := Text.strip content in
    if decide (count_words words ≠ words_per_turn g)
    then (st, NeedExactlyTryAgain (words_per_turn g) (count_words words))
    else if decide (status g = pending) then
      (commit c
         (set_last_activity (now e)
            (set_status open
               (set_contributors [author]
                  (set_contributions [words] (set_first_words words g)))))
         (clear_mark author st), WordsLockedIn)
    else if decide (current_player g ≠ Some author)
    then (clear_mark author st, NoPendingTurnNow)
    else
      let g' := add_contribution author words (now e) g in
      (finish_turn e g' (commit c g' (clear_mark author st)), Received).
Proof. intros Hm Hg. unfold on_message. by rewrite Hm, Hg. Qed.

(** C6. A submission whose number of blank-separated tokens differs from
    [words_per_turn] fails with the word-count error and changes nothing:
    the whole state, hence every field of the session, is as before.  This
    holds for free text routed to a session by the mark, and for a join
    that carries words; for the join the error is the word-count one when
    the guards before it let the identity through, and another refusal
    otherwise. *)
Theorem word_count_mismatch_rejected :
  (forall e author content st c g,
     pending_responses st !! author = Some c -> games st !! c = Some g ->
     count_words (Text.strip content) <> words_per_turn g ->
     on_message e author false false content st
     = (st, NeedExactlyTryAgain (words_per_turn g)
              (count_words (Text.strip content))))
  /\ (forall e user c words w st g,
        games st !! c = Some g -> given words = Some w ->
        count_words w <> words_per_turn g ->
        (cmd_join e user c words st).1 = st
        /\ (join_allows st user c g ->
            (cmd_join e user c words st).2
            = NeedExactly (words_per_turn g) (count_words w))).
Proof.
  split.
  - intros e author content st c g Hm Hg Hne.
    rewrite (on_message_routed _ _ _ _ _ _ Hm Hg). cbv zeta.
    by rewrite decide_True.
  - intros e user c words w st g Hg Hw Hne.
    assert (Hok : join_allows st user c g ->
                   cmd_join e user c words st
                   = (st, NeedExactly (words_per_turn g) (count_words w))).
    { intros Hok. rewrite (cmd_join_allowed _ _ _ _ _ _ Hg Hok), Hw.
      by rewrite decide_True. }
    split; [|by intros ->%Hok].
    destruct (join_allows_decidable st user c g) as [->%Hok|Hno]; [done|].
    apply cmd_join_refused. intros g' Hg'. congruence.
Qed.

(** The one-line game of six words a turn: five words as the second
    contribution are refused, by direct message and by [/corpse join], and
    [current_turn] stays at 1. *)
Lemma word_count_mismatch_rejected_witness :
  pending_responses st_short_joined !! 2 = Some 7
  /\ (current_turn <$> games st_short_joined !! 7) = Some 1
  /\ count_words (Text.strip "a b c d e") <> 6
  /\ on_message e_noon 2 false false "a b c d e" st_short_joined
     = (st_short_joined, NeedExactlyTryAgain 6 5)
  /\ (cmd_join e_noon 2 7 (Some "a b c d e") st_short).1 = st_short.
Proof.
  split; [run|]. split; [run|]. split; [run|].
  split.
  - refine (proj1 word_count_mismatch_rejected e_noon 2 "a b c d e"
              st_short_joined 7 _ ltac:(run) ltac:(run) ltac:(run)).
  - refine (proj1 (proj2 word_count_mismatch_rejected e_noon 2 7
                     (Some "a b c d e") "a b c d e" st_short _
                     ltac:(run) ltac:(run) ltac:(run))).
Defined.

(** C2, as amended. Free text routed to a session by the mark: with a
    number of tokens other than [words_per_turn] it is refused before any
    look at the occupant, and nothing changes, the mark included; with the
    right number of tokens, on a session that is not pending and whose
    current occupant (none while open, else by the parity of
    [current_turn]) is not the sender, the stale mark is cleared and the
    text refused, with no change to any session, to the store or to the
    bindings. *)
Theorem stale_mark_rejected (e : env) (author : Z) (content : string)
    (st : State) (c : Z) (g : Game) :
  pending_responses st !! author = Some c -> games st !! c = Some g ->
  let out := on_message e author false false content st in
  (count_words (Text.strip content) <> words_per_turn g ->
   out = (st, NeedExactlyTryAgain (words_per_turn g)
                (count_words (Text.strip content))))
  /\ (count_words (Text.strip content) = words_per_turn g ->
      status g <> pending -> current_player g <> Some author ->
      out.2 = NoPendingTurnNow
      /\ pending_responses out.1 = delete author (pending_responses st)
      /\ games out.1 = games st
      /\ store out.1 = store st
      /\ player_games out.1 = player_games st).
Proof.
  intros Hm Hg out. subst out.
  rewrite (on_message_routed _ _ _ _ _ _ Hm Hg). cbv zeta. split.
  - intros Hne. by rewrite decide_True.
  - intros Heq Hp Hcur. rewrite decide_False by (by intros []).
    by rewrite decide_False, decide_True.
Qed.

(** User 1 has left the game of channel 7 and still holds a mark on it:
    six words of user 1 are refused and the mark is cleared. *)
Lemma stale_mark_rejected_witness :
  pending_responses st_stale_active !! 1 = Some 7
  /\ (current_player <$> games st_stale_active !! 7) = Some None
  /\ (on_message e_noon 1 false false "m n o p q r" st_stale_active).2
     = NoPendingTurnNow
  /\ games (on_message e_noon 1 false false "m n o p q r" st_stale_active).1
     = games st_stale_active.
Proof.
  split; [run|]. split; [run|].
  pose proof (proj2 (stale_mark_rejected e_noon 1 "m n o p q r"
                       st_stale_active 7 _ ltac:(run) ltac:(run))) as H.
  destruct H as (H1 & _ & H3 & _); [run..|].
  exact (conj H1 H3).
Defined.

(** C2, as stated, fails.  On the pending game of channel 7, started by
    user 1, six words of user 2 are accepted as the first words, with user 2
    as their contributor: the pending branch of [on_message] does not look
    at the sender.  And in the active game that user 1 has left, five words
    of user 1, who is not the current occupant, are refused as a word-count
    mismatch with the mark of user 1 still in place: the count is checked
    before the occupant. *)
Lemma turn_guard_counterexample :
  ((status <$> games st_stale_pending !! 7) = Some pending
   /\ (starter_id <$> games st_stale_pending !! 7) = Some 1
   /\ pending_responses st_stale_pending !! 2 = Some 7
   /\ let out :=
        on_message e_noon 2 false false "a b c d e f" st_stale_pending in
      out.2 = WordsLockedIn
      /\ (contributors <$> games out.1 !! 7) = Some [2]
      /\ (status <$> games out.1 !! 7) = Some open)
  /\ ((current_player <$> games st_stale_active !! 7) = Some None
      /\ pending_responses st_stale_active !! 1 = Some 7
      /\ let out :=
           on_message e_noon 1 false false "a b c d e" st_stale_active in
         out.2 = NeedExactlyTryAgain 6 5
         /\ pending_responses out.1 !! 1 = Some 7).
Proof. by vm_compute. Qed.

(** * What one event does to the live games *)

Lemma forget_frame (st : State) (uid : option Z) :
  games (forget st uid) = games st /\ store (forget st uid) = store st.
Proof. unfold forget. by repeat case_match. Qed.

Lemma post_completed_poem_games (e : env) (g : Game) (st : State) (c : Z)
    (g' : Game) :
  games (post_completed_poem e g st) !! c = Some g' -> games st !! c = Some g'.
Proof.
  unfold post_completed_poem. destruct (get_channel e (channel_id g)); [|done].
  cbn [fold_left]. fields. intros [_ H]%lookup_delete_Some.
  by rewrite !(proj1 (forget_frame _ _)) in H.
Qed.

Lemma finish_turn_games (e : env) (g : Game) (st : State) (c : Z) (g' : Game) :
  games (finish_turn e g st) !! c = Some g' -> games st !! c = Some g'.
Proof.
  unfold finish_turn. case_decide.
  - apply post_completed_poem_games.
  - by rewrite (proj1 (prompt_next_player_games _ _ _)).
Qed.

Lemma sweep_step_state (e : env) (c : Z) (g : Game) (st : State) :
  (sweep_step e c g st).1
  = if eligible (now e) g then
      match current_player g with
      | Some p => untrack p (commit c (timeout_current_player g) st)
      | None => st
      end
    else st.
Proof.
  unfold sweep_step, eligible.
  destruct (decide (status g ≠ active)) as [Hs|Hs].
  - by rewrite bool_decide_eq_false_2.
  - apply dec_stable in Hs. rewrite bool_decide_eq_true_2 by done.
    destruct (_ <=? _); [done|]. cbn [negb andb].
    destruct (current_player g) as [p|]; [|done]. cbn [truthy].
    destruct (p =? 0); [done|]. cbn [negb].
    destruct (get_channel e c); [destruct (last_word _)|]; done.
Qed.

Lemma eligible_active (t : datetime) (g : Game) :
  eligible t g = true -> status g = active.
Proof.
  unfold eligible. intros [[H _]%andb_prop _]%andb_prop.
  by apply bool_decide_eq_true in H.
Qed.

Lemma sweep_loop_lookup (e : env) (l : list (Z * Game)) :
  forall (st : State) (c : Z) (g' : Game),
    NoDup l.*1 ->
    games (sweep_loop e l st).1 !! c = Some g' ->
    games st !! c = Some g'
    \/ exists g, (c, g) ∈ l /\ eligible (now e) g = true
                 /\ g' = timeout_current_player g.
Proof.
  induction l as [|[k g] l IH]; intros st c g' Hnd Hlook; [by left|].
  cbn [fmap list_fmap fst] in Hnd. apply NoDup_cons in Hnd as [Hk Hnd].
  cbn [sweep_loop] in Hlook.
  pose proof (sweep_step_state e k g st) as Hst.
  destruct (sweep_step e k g st) as [st' [x|]]; cbn [fst] in Hst.
  - cbn [fst] in Hlook. subst st'.
    destruct (eligible (now e) g) eqn:He; [|by left].
    destruct (current_player g) as [p|]; [|by left].
    unfold untrack, commit in Hlook. fields.
    destruct (decide (k = c)) as [->|Hne].
    + rewrite lookup_insert_eq in Hlook. injection Hlook as <-.
      right. exists g. split; [left|done].
    + rewrite lookup_insert_ne in Hlook by done. by left.
  - destruct (IH st' c g' Hnd Hlook) as [H|(g0 & Hin & He0 & ->)].
    + subst st'. destruct (eligible (now e) g) eqn:He; [|by left].
      destruct (current_player g) as [p|]; [|by left].
      unfold untrack, commit in H. fields.
      destruct (decide (k = c)) as [->|Hne].
      * rewrite lookup_insert_eq in H. injection H as <-.
        right. exists g. split; [left|done].
      * rewrite lookup_insert_ne in H by done. by left.
    + right. exists g0. split; [by right|done].
Qed.

Lemma timeout_checker_lookup (e : env) (st : State) (c : Z) (g' : Game) :
  games (timeout_checker e st).1 !! c = Some g' ->
  games st !! c = Some g'
  \/ exists g, games st !! c = Some g /\ eligible (now e) g = true
               /\ g' = timeout_current_player g.
Proof.
  intros H. apply sweep_loop_lookup in H; [|apply NoDup_fst_map_to_list].
  destruct H as [H|(g & Hin & He & ->)]; [by left|].
  right. exists g. by apply elem_of_map_to_list in Hin.
Qed.

Lemma step_games (e : env) (ev : event) (st : State) (c : Z) (g' : Game) :
  games (step e ev st).1 !! c = Some g' ->
  games st !! c = Some g'
  \/ change (now e) (entry_of ev) (games st !! c) g'.
Proof.
  destruct ev as [user ch a|author is_bot in_guild content|]; cbn [step].
  - destruct a as [words lines wordcount|words| | |]; cbn [corpse entry_of].
    + (* start *)
      unfold cmd_start. case_decide; [by left|].
      destruct (match games st !! ch with
                | Some existing => bool_decide (status existing ≠ complete)
                | None => false end); [by left|].
      destruct (given words) as [w|]; cbn [fmap option_fmap option_map].
      * case_decide; [by left|]. fields.
        destruct (decide (ch = c)) as [->|Hne].
        -- rewrite lookup_insert_eq. intros [= <-]. right.
           by eapply ch_start.
        -- rewrite lookup_insert_ne by done. by left.
      * fields. destruct (decide (ch = c)) as [->|Hne].
        -- rewrite lookup_insert_eq. intros [= <-]. right.
           apply ch_start_pending.
        -- rewrite lookup_insert_ne by done. by left.
    + (* join *)
      destruct (games st !! ch) as [g|] eqn:Hg;
        [|by rewrite cmd_join_refused by (intros; congruence); left].
      destruct (join_allows_decidable st user ch g) as [Hok|Hno];
        [|by rewrite cmd_join_refused by (intros; congruence); left].
      rewrite (cmd_join_allowed _ _ _ _ _ _ Hg Hok).
      assert (Hs : status g = open \/ status g = active).
      { destruct Hok as (? & ? & _). destruct (status g); tauto. }
      destruct (given words) as [w|]; cbn [fmap option_fmap option_map].
      * case_decide; [by left|]. cbv zeta. fields.
        intros Hl%finish_turn_games. fields.
        destruct (decide (ch = c)) as [->|Hne].
        -- rewrite lookup_insert_eq in Hl. injection Hl as <-. right.
           rewrite Hg. by apply ch_seat_words.
        -- rewrite lookup_insert_ne in Hl by done. by left.
      * cbv zeta. fields. destruct (decide (ch = c)) as [->|Hne].
        -- rewrite lookup_insert_eq. intros [= <-]. right.
           rewrite Hg. by apply ch_seat.
        -- rewrite lookup_insert_ne by done. by left.
    + (* status *)
      unfold cmd_status. repeat case_match; by left.
    + (* abandon *)
      rewrite cmd_abandon_state.
      destruct (player_games st !! user) as [k|]; [|by left].
      destruct (games st !! k) as [g|] eqn:Hg; [|by left].
      unfold commit, untrack. fields.
      destruct (decide (k = c)) as [->|Hne].
      * rewrite lookup_insert_eq. intros [= <-]. right.
        rewrite Hg. apply ch_leave.
      * rewrite lookup_insert_ne by done. by left.
    + by left.
  - (* free text *)
    cbn [entry_of]. destruct is_bot; [by left|].
    destruct in_guild; [by left|].
    destruct (pending_responses st !! author) as [k|] eqn:Hm;
      [|by unfold on_message; rewrite Hm; left].
    destruct (games st !! k) as [g|] eqn:Hg;
      [|by unfold on_message; rewrite Hm, Hg; left].
    rewrite (on_message_routed _ _ _ _ _ _ Hm Hg). cbv zeta.
    case_decide; [by left|]. case_decide as Hp.
    + unfold commit, clear_mark. fields.
      destruct (decide (k = c)) as [->|Hne].
      * rewrite lookup_insert_eq. intros [= <-]. right.
        rewrite Hg. by apply ch_first_words.
      * rewrite lookup_insert_ne by done. by left.
    + case_decide as Hcur; [by left|].
      fields. intros Hl%finish_turn_games. unfold commit, clear_mark in Hl.
      fields. destruct (decide (k = c)) as [->|Hne].
      * rewrite lookup_insert_eq in Hl. injection Hl as <-. right.
        rewrite Hg. by apply ch_turn.
      * rewrite lookup_insert_ne in Hl by done. by left.
  - (* sweep *)
    intros [H|(g & Hg & He & ->)]%timeout_checker_lookup; [by left|].
    right. rewrite Hg. apply ch_timeout. by eapply eligible_active.
Qed.

Lemma startup_empty : startup ∅ = Some initial.
Proof. reflexivity. Qed.

Lemma all_games_initial (P : Game -> Prop) : all_games P initial.
Proof. intros c g H. change (games initial) with (∅ : gmap Z Game) in H. done. Qed.

(** * Completion *)

Lemma seat_fields (u : Z) (g : Game) :
  status g = open \/ status g = active ->
  status (seat u g) = active
  /\ current_turn (seat u g) = current_turn g
  /\ total_lines (seat u g) = total_lines g
  /\ contributions (seat u g) = contributions g
  /\ contributors (seat u g) = contributors g.
Proof.
  unfold seat, take_slot. intros [H|H]; rewrite H.
  - by rewrite decide_True.
  - rewrite decide_False by done. by destruct (_ =? _).
Qed.

Lemma timeout_current_player_fields (g : Game) :
  status (timeout_current_player g) = status g
  /\ current_turn (timeout_current_player g) = current_turn g
  /\ total_lines (timeout_current_player g) = total_lines g
  /\ contributions (timeout_current_player g) = contributions g
  /\ contributors (timeout_current_player g) = contributors g
  /\ last_activity (timeout_current_player g) = last_activity g
  /\ channel_id (timeout_current_player g) = channel_id g.
Proof. unfold timeout_current_player. by destruct (_ =? _). Qed.

Lemma add_contribution_completion (u : Z) (w : string) (t : datetime)
    (g : Game) :
  status g <> complete \/ total_turns g <= current_turn g ->
  completion_inv (add_contribution u w t g).
Proof.
  intros Hg Hpos. rewrite add_contribution_status. unfold total_turns in *.
  destruct (add_contribution_slots u w t g) as (_ & _ & _ & _ & -> & ->).
  destruct (Z.leb_spec (total_lines g * 2) (current_turn g + 1)).
  - done.
  - split; [|lia]. intros Hc. destruct Hg; [done|lia].
Qed.

Lemma change_completion (t : datetime) (entry : option (string * Z))
    (o : option Game) (g' : Game) :
  change t entry o g' ->
  (forall g, o = Some g -> completion_inv g) ->
  completion_inv g'.
Proof.
  intros Hch Ho.
  destruct Hch as [o c u lines wc w _|o c u lines wc|g u Hs|g u w _ Hs|g u
                  |g u w _ Hp|g u w _ Hp Hcur|g Hs].
  - intros Hpos. unfold new_Game, total_turns in *. fields. split; [done|lia].
  - intros Hpos. unfold pending_Game, new_Game, total_turns in *. fields.
    split; [done|lia].
  - specialize (Ho g eq_refl). intros Hpos.
    destruct (seat_fields u g Hs) as (Hst & Hct & Htl & _).
    unfold completion_inv, total_turns in *. rewrite Hst, Hct, Htl in *.
    split; [done|]. intros Hle. apply Ho in Hle; [|done].
    destruct Hs; congruence.
  - apply add_contribution_completion. left.
    destruct (seat_fields u g Hs) as (-> & _). done.
  - specialize (Ho g eq_refl).
    destruct (leave_slots_frame u g)
      as (_ & _ & Hst & _ & _ & Hct & _ & _ & _ & _ & _ & Htl).
    unfold completion_inv, total_turns in *. by rewrite Hst, Hct, Htl.
  - specialize (Ho g eq_refl). intros Hpos.
    unfold first_words_Game, completion_inv, total_turns in *. fields.
    split; [done|]. intros Hle. apply Ho in Hle; [|done]. congruence.
  - specialize (Ho g eq_refl). unfold completion_inv in Ho.
    intros Hpos. apply add_contribution_completion; [|done].
    destruct (decide (status g = complete)) as [Hc|]; [|by left].
    right. apply Ho; [|done].
    by destruct (add_contribution_slots u w t g) as (_ & _ & _ & _ & <- & _).
  - specialize (Ho g eq_refl).
    destruct (timeout_current_player_fields g) as (Hst & Hct & Htl & _).
    unfold completion_inv, total_turns in *. by rewrite Hst, Hct, Htl.
Qed.

Lemma change_completes (t : datetime) (entry : option (string * Z))
    (o : option Game) (g' : Game) :
  change t entry o g' -> status g' = complete ->
  (exists g, o = Some g /\ status g = complete)
  \/ (exists g0 u w, entry = Some (w, u)
        /\ g' = add_contribution u w t g0
        /\ total_turns g0 <= current_turn g0 + 1).
Proof.
  intros Hch Hc.
  destruct Hch as [o c u lines wc w _|o c u lines wc|g u Hs|g u w He Hs|g u
                  |g u w _ Hp|g u w He Hp Hcur|g Hs].
  - by unfold new_Game in Hc.
  - by unfold pending_Game in Hc.
  - destruct (seat_fields u g Hs) as (Hst & _). congruence.
  - right. exists (seat u g), u, w. repeat split; try done.
    rewrite add_contribution_status in Hc.
    destruct (Z.leb_spec (total_turns (seat u g)) (current_turn (seat u g) + 1));
      [done|].
    destruct (seat_fields u g Hs) as (Hst & _). congruence.
  - left. exists g. split; [done|].
    destruct (leave_slots_frame u g) as (_ & _ & Hst & _). congruence.
  - by unfold first_words_Game in Hc.
  - rewrite add_contribution_status in Hc.
    destruct (Z.leb_spec (total_turns g) (current_turn g + 1)).
    + right. by exists g, u, w.
    + left. by exists g.
  - left. exists g. split; [done|].
    destruct (timeout_current_player_fields g) as (Hst & _). congruence.
Qed.

Lemma step_completion (e : env) (ev : event) (st : State) :
  all_games completion_inv st -> all_games completion_inv (step e ev st).1.
Proof.
  intros Hinv c g' [Hsame|Hch]%step_games; [by eapply Hinv|].
  eapply change_completion; [done|]. intros g Hg. by eapply Hinv.
Qed.

Lemma reachable_completion (st : State) :
  reachable st -> all_games completion_inv st.
Proof.
  induction 1 as [|e ev st _ IH]; [|by apply step_completion].
  apply all_games_initial.
Qed.

(** C1. [add_contribution] increments [current_turn] and sets the status
    to complete exactly when the incremented turn has reached
    [total_turns], leaving the status alone otherwise.  Every operation of
    the bot keeps, for each live session with a positive [total_lines]:
    the status is complete if and only if [current_turn >= total_lines * 2];
    so this holds in every state the bot reaches.  And a live session is
    complete after an operation only if it was complete before it or the
    operation appended a contribution with [add_contribution]. *)
Theorem complete_iff_turns_reached :
  (forall u w t g,
     current_turn (add_contribution u w t g) = current_turn g + 1
     /\ status (add_contribution u w t g)
        = if total_turns g <=? current_turn g + 1 then complete else status g)
  /\ (forall e ev st,
        all_games completion_inv st ->
        all_games completion_inv (step e ev st).1)
  /\ (forall st, reachable st -> all_games completion_inv st)
  /\ (forall e ev st c g',
        games (step e ev st).1 !! c = Some g' -> status g' = complete ->
        (exists g, games st !! c = Some g /\ status g = complete)
        \/ (exists g0 u w,
              entry_of ev = Some (w, u)
              /\ g' = add_contribution u w (now e) g0
              /\ total_turns g0 <= current_turn g0 + 1)).
Proof.
  split; [|split; [|split]].
  - intros u w t g. split; [|apply add_contribution_status].
    by destruct (add_contribution_slots u w t g) as (_ & _ & _ & _ & _ & ->).
  - apply step_completion.
  - apply reachable_completion.
  - intros e ev st c g' [Hsame|Hch]%step_games Hc.
    + left. by exists g'.
    + by apply (change_completes _ _ _ _ Hch).
Qed.

(** The active game of channel 7 satisfies the invariant, and still does
    after user 1, whose turn it is, has sent six words. *)
Lemma complete_iff_turns_reached_witness :
  all_games completion_inv st_active
  /\ all_games completion_inv
       (step e_noon (Message 1 false false "m n o p q r") st_active).1.
Proof.
  assert (H : all_games completion_inv st_active).
  { intros c g Hg.
    assert (Hgames : games st_active = {[ 7 := g_active ]}) by run.
    rewrite Hgames in Hg. apply lookup_singleton_Some in Hg as [_ <-].
    intros _. vm_compute. split; [done|]. by intros H. }
  split; [exact H|].
  exact (proj1 (proj2 complete_iff_turns_reached) e_noon _ st_active H).
Defined.

(** * Parallel lists *)

Lemma change_parallel (t : datetime) (entry : option (string * Z))
    (o : option Game) (g' : Game) :
  change t entry o g' ->
  (forall g, o = Some g -> parallel g) ->
  parallel g'.
Proof.
  intros Hch Ho. unfold parallel in *.
  destruct Hch as [o c u lines wc w _|o c u lines wc|g u Hs|g u w _ Hs|g u
                  |g u w _ Hp|g u w _ Hp Hcur|g Hs];
    try specialize (Ho g eq_refl).
  - done.
  - done.
  - destruct (seat_fields u g Hs) as (_ & _ & _ & -> & ->). done.
  - unfold add_contribution. case_match; fields;
      destruct (seat_fields u g Hs) as (_ & _ & _ & -> & ->);
      rewrite !length_app; cbn; lia.
  - destruct (leave_slots_frame u g) as (_ & _ & _ & -> & -> & _). done.
  - done.
  - unfold add_contribution. case_match; fields;
      rewrite !length_app; cbn; lia.
  - destruct (timeout_current_player_fields g) as (_ & _ & _ & -> & -> & _).
    done.
Qed.

Lemma add_contribution_lists (u : Z) (w : string) (t : datetime) (g : Game) :
  contributions (add_contribution u w t g) = contributions g ++ [w]
  /\ contributors (add_contribution u w t g) = contributors g ++ [u].
Proof. unfold add_contribution. by case_match. Qed.

Lemma change_lists (t : datetime) (entry : option (string * Z))
    (o : option Game) (g' : Game) :
  change t entry o g' ->
  let cs := from_option contributions [] o in
  let us := from_option contributors [] o in
  (contributions g' = cs /\ contributors g' = us)
  \/ (contributions g' = [] /\ contributors g' = [])
  \/ (exists w u, entry = Some (w, u)
        /\ (contributions g' = cs ++ [w] /\ contributors g' = us ++ [u]
            \/ contributions g' = [w] /\ contributors g' = [u])).
Proof.
  intros Hch.
  destruct Hch as [o c u lines wc w He|o c u lines wc|g u Hs|g u w He Hs|g u
                  |g u w He Hp|g u w He Hp Hcur|g Hs]; cbn [from_option].
  - right. right. exists w, u. split; [done|]. by right.
  - right. by left.
  - left. by destruct (seat_fields u g Hs) as (_ & _ & _ & -> & ->).
  - right. right. exists w, u. split; [done|]. left.
    destruct (add_contribution_lists u w t (seat u g)) as [-> ->].
    by destruct (seat_fields u g Hs) as (_ & _ & _ & -> & ->).
  - left. by destruct (leave_slots_frame u g) as (_ & _ & _ & -> & -> & _).
  - right. right. exists w, u. split; [done|]. by right.
  - right. right. exists w, u. split; [done|]. left.
    apply add_contribution_lists.
  - left.
    by destruct (timeout_current_player_fields g) as (_ & _ & _ & -> & -> & _).
Qed.

Lemma step_parallel (e : env) (ev : event) (st : State) :
  all_games parallel st -> all_games parallel (step e ev st).1.
Proof.
  intros Hinv c g' [Hsame|Hch]%step_games; [by eapply Hinv|].
  eapply change_parallel; [done|]. intros g Hg. by eapply Hinv.
Qed.

Lemma run_reachable (evs : list (env * event)) :
  reachable (run evs initial).
Proof.
  induction evs as [|[e ev] evs IH] using rev_ind; [apply reach_initial|].
  unfold run. rewrite fold_left_app. cbn [fold_left fst snd].
  by apply reach_step.
Qed.

Lemma reachable_parallel (st : State) : reachable st -> all_games parallel st.
Proof.
  induction 1 as [|e ev st _ IH]; [|by apply step_parallel].
  apply all_games_initial.
Qed.

Lemma run_provenance (evs : list (env * event)) :
  forall c g i w u,
    games (run evs initial) !! c = Some g ->
    contributions g !! i = Some w -> contributors g !! i = Some u ->
    exists e ev, (e, ev) ∈ evs /\ entry_of ev = Some (w, u).
Proof.
  induction evs as [|[e ev] evs IH] using rev_ind; intros c g i w u Hg Hw Hu.
  - by apply (all_games_initial (fun _ => False)) in Hg.
  - unfold run in Hg. rewrite fold_left_app in Hg. cbn [fold_left fst snd] in Hg.
    fold (run evs initial) in Hg.
    assert (Hold : forall w' u',
               texts_at (run evs initial) c !! i = Some w' ->
               authors_at (run evs initial) c !! i = Some u' ->
               exists e0 ev0, (e0, ev0) ∈ evs ++ [(e, ev)]
                              /\ entry_of ev0 = Some (w', u')).
    { unfold texts_at, authors_at. intros w' u' Hw' Hu'.
      destruct (games (run evs initial) !! c) as [g0|] eqn:Hg0; [|done].
      destruct (IH c g0 i w' u' Hg0 Hw' Hu') as (e0 & ev0 & Hin & He).
      exists e0, ev0. split; [|done]. apply elem_of_app. by left. }
    assert (Hlen : length (texts_at (run evs initial) c)
                   = length (authors_at (run evs initial) c)).
    { unfold texts_at, authors_at.
      destruct (games (run evs initial) !! c) as [g0|] eqn:Hg0; [|done].
      by apply (reachable_parallel _ (run_reachable evs) c). }
    assert (Hnew : forall w' u',
               entry_of ev = Some (w', u') ->
               exists e0 ev0, (e0, ev0) ∈ evs ++ [(e, ev)]
                              /\ entry_of ev0 = Some (w', u')).
    { intros w' u' He. exists e, ev. split; [|done].
      apply elem_of_app. right. by left. }
    apply step_games in Hg as [Hsame|Hch].
    + apply Hold; unfold texts_at, authors_at; by rewrite Hsame.
    + apply change_lists in Hch. cbv zeta in Hch.
      fold (texts_at (run evs initial) c) in Hch.
      fold (authors_at (run evs initial) c) in Hch.
      destruct Hch as [[Hc1 Hc2]|[[Hc1 Hc2]|(w' & u' & He & Hc)]].
      * rewrite Hc1 in Hw. rewrite Hc2 in Hu. by apply Hold.
      * by rewrite Hc1 in Hw.
      * destruct Hc as [[Hc1 Hc2]|[Hc1 Hc2]]; rewrite Hc1 in Hw;
          rewrite Hc2 in Hu.
        -- apply lookup_app_Some in Hw as [Hw|[Hge Hw]].
           ++ apply lookup_app_Some in Hu as [Hu|[Hge Hu]]; [by apply Hold|].
              apply lookup_lt_Some in Hw. lia.
           ++ apply lookup_app_Some in Hu as [Hu|[_ Hu]].
              ** apply lookup_lt_Some in Hu. lia.
              ** rewrite Hlen in Hw.
                 destruct (i - length (authors_at (run evs initial) c))%nat;
                   [|done].
                 cbn in Hw, Hu. injection Hw as <-. injection Hu as <-.
                 by apply Hnew.
        -- destruct i; [|done]. cbn in Hw, Hu.
           injection Hw as <-. injection Hu as <-. by apply Hnew.
Qed.

(** C5. Every operation of the bot (start, first words of a pending game,
    join, turn, takeover, timeout, withdrawal) keeps the contributions and
    the contributors of each live session of equal length, so this holds in
    every state the bot reaches.  An operation leaves the two lists of a
    session as they were, or empties both (a pending game is created), or
    appends the submitted text to the one and the identity that submitted
    it to the other, at the same index, or makes them the one-element
    lists of this text and this identity.  Hence, after any sequence of
    events from the empty table, at every index [i] of a live session
    [contributors[i]] is an identity that submitted [contributions[i]] in
    one of these events. *)
Theorem contributions_parallel :
  (forall e ev st,
     all_games parallel st -> all_games parallel (step e ev st).1)
  /\ (forall st, reachable st -> all_games parallel st)
  /\ (forall e ev st c g',
        games (step e ev st).1 !! c = Some g' ->
        (contributions g' = texts_at st c /\ contributors g' = authors_at st c)
        \/ (contributions g' = [] /\ contributors g' = [])
        \/ (exists w u,
              entry_of ev = Some (w, u)
              /\ (contributions g' = texts_at st c ++ [w]
                  /\ contributors g' = authors_at st c ++ [u]
                  \/ contributions g' = [w] /\ contributors g' = [u])))
  /\ (forall evs c g i w u,
        games (run evs initial) !! c = Some g ->
        contributions g !! i = Some w -> contributors g !! i = Some u ->
        exists e ev, (e, ev) ∈ evs /\ entry_of ev = Some (w, u)).
Proof.
  split; [|split; [|split]].
  - apply step_parallel.
  - apply reachable_parallel.
  - intros e ev st c g' [Hsame|Hch]%step_games.
    + left. unfold texts_at, authors_at. by rewrite Hsame.
    + apply (change_lists _ _ _ _ Hch).
  - apply run_provenance.
Qed.

(** The two lists of the active game of channel 7 have two elements each,
    and stay parallel when user 1, whose turn it is, sends six words. *)
Lemma contributions_parallel_witness :
  all_games parallel st_active
  /\ all_games parallel
       (step e_noon (Message 1 false false "m n o p q r") st_active).1.
Proof.
  assert (H : all_games parallel st_active).
  { intros c g Hg.
    assert (Hgames : games st_active = {[ 7 := g_active ]}) by run.
    rewrite Hgames in Hg. apply lookup_singleton_Some in Hg as [_ <-]. run. }
  split; [exact H|].
  exact (proj1 contributions_parallel e_noon _ st_active H).
Defined.

(** * The timeout sweep *)

Lemma eligible_spec (t : datetime) (g : Game) :
  eligible t g = true
  <-> status g = active
      /\ timeout_delta < Datetime.sub t (last_activity g)
      /\ exists p, current_player g = Some p /\ p <> 0.
Proof.
  unfold eligible. rewrite !andb_true_iff, bool_decide_eq_true, negb_true_iff,
    Z.leb_gt.
  assert (truthy (current_player g) = true
          <-> exists p, current_player g = Some p /\ p <> 0) as ->.
  { destruct (current_player g) as [p|]; cbn.
    - rewrite negb_true_iff, Z.eqb_neq. split; [by exists p|].
      by intros (? & [= <-] & ?).
    - split; [done|]. by intros (? & ? & _). }
  tauto.
Qed.

Lemma sweep_step_skips (e : env) (c : Z) (g : Game) (st : State) :
  eligible (now e) g = false -> sweep_step e c g st = (st, None).
Proof.
  unfold sweep_step, eligible.
  destruct (decide (status g ≠ active)) as [Hs|Hs]; [done|].
  apply dec_stable in Hs. rewrite bool_decide_eq_true_2 by done.
  destruct (_ <=? _); [done|]. cbn [negb andb].
  destruct (current_player g) as [p|]; [|done]. cbn [truthy].
  by destruct (p =? 0).
Qed.

Lemma current_player_vacated (g : Game) :
  status g <> open -> current_player (timeout_current_player g) = None
  /\ (status g = open -> False).
Proof.
  intros Hs. split; [|done]. unfold current_player, timeout_current_player.
  destruct (current_turn g mod 2 =? 0) eqn:Hp; fields;
    rewrite decide_False by done; by rewrite Hp.
Qed.

Lemma eligible_swept (t : datetime) (g : Game) : eligible t (swept t g) = false.
Proof.
  unfold swept. destruct (eligible t g) eqn:He; [|done].
  apply eligible_active in He as Hs.
  apply not_true_is_false. intros (_ & _ & p & Hp & _)%eligible_spec.
  destruct (current_player_vacated g) as [Hnone _]; congruence.
Qed.

Lemma sweep_loop_skips (e : env) (l : list (Z * Game)) (st : State) :
  (forall c g, (c, g) ∈ l -> eligible (now e) g = false) ->
  sweep_loop e l st = (st, SweepDone).
Proof.
  induction l as [|[k g] l IH]; intros Hl; [done|]. cbn [sweep_loop].
  rewrite sweep_step_skips by (apply (Hl k); left).
  apply IH. intros c g' Hin. apply (Hl c). by right.
Qed.

Lemma sweep_loop_done (e : env) (l : list (Z * Game)) :
  forall (st : State),
    NoDup l.*1 ->
    (forall k g, (k, g) ∈ l -> games st !! k = Some g) ->
    (sweep_loop e l st).2 = SweepDone ->
    forall c,
      games (sweep_loop e l st).1 !! c
      = match (list_to_map l : gmap Z Game) !! c with
        | Some g => Some (swept (now e) g)
        | None => games st !! c
        end.
Proof.
  induction l as [|[k g] l IH]; intros st Hnd Hsnap Hdone c; [done|].
  cbn [fmap list_fmap fst] in Hnd. apply NoDup_cons in Hnd as [Hk Hnd].
  cbn [sweep_loop list_to_map foldr] in *. unfold uncurry. cbn [fst snd].
  pose proof (sweep_step_state e k g st) as Hst.
  destruct (sweep_step e k g st) as [st' [x|]]; [done|]. cbn [fst] in Hst.
  assert (Hother : forall j, j <> k -> games st' !! j = games st !! j).
  { intros j Hj. subst st'. destruct (eligible (now e) g); [|done].
    destruct (current_player g); [|done].
    unfold untrack, commit. fields. by rewrite lookup_insert_ne. }
  rewrite (IH st' Hnd); [| |done].
  - destruct (decide (k = c)) as [->|Hne].
    + rewrite lookup_insert_eq.
      rewrite (not_elem_of_list_to_map_1 _ c) by done.
      subst st'. unfold swept. destruct (eligible (now e) g) eqn:He.
      * destruct (proj1 (eligible_spec _ _) He) as (_ & _ & p & -> & _).
        unfold untrack, commit. fields. by rewrite lookup_insert_eq.
      * apply Hsnap. left.
    + rewrite lookup_insert_ne by done.
      destruct (list_to_map l !! c); [done|]. by apply Hother.
  - intros j g0 Hin. rewrite Hother; [apply Hsnap; by right|].
    intros ->. apply Hk. apply list_elem_of_fmap. by exists (k, g0).
Qed.

Lemma other_slot_vacated (g : Game) :
  other_slot (timeout_current_player g) = other_slot g.
Proof.
  unfold other_slot, timeout_current_player.
  destruct (current_turn g mod 2 =? 0) eqn:Hp; fields; by rewrite Hp.
Qed.

Lemma timeout_checker_done (e : env) (st st1 : State) (c : Z) :
  timeout_checker e st = (st1, SweepDone) ->
  games st1 !! c = swept (now e) <$> games st !! c.
Proof.
  intros Hrun. unfold timeout_checker in Hrun.
  pose proof (sweep_loop_done e (map_to_list (games st)) st
                (NoDup_fst_map_to_list _)) as H.
  rewrite Hrun in H. cbn [fst snd] in H.
  rewrite H; [|by intros k g ?%elem_of_map_to_list|done].
  rewrite list_to_map_to_list. by destruct (games st !! c).
Qed.

Lemma sweep_loop_stays (e : env) (l : list (Z * Game)) :
  forall st c,
    is_Some (games st !! c) -> is_Some (games (sweep_loop e l st).1 !! c).
Proof.
  induction l as [|[k g] l IH]; intros st c Hc; [done|]. cbn [sweep_loop].
  pose proof (sweep_step_state e k g st) as Hst.
  assert (Hc' : is_Some (games (sweep_step e k g st).1 !! c)).
  { rewrite Hst. destruct (eligible (now e) g); [|done].
    destruct (current_player g) as [p|]; [|done].
    unfold untrack, commit. fields.
    destruct (decide (k = c)) as [->|Hne].
    - rewrite lookup_insert_eq. by eexists.
    - by rewrite lookup_insert_ne. }
  destruct (sweep_step e k g st) as [st' [x|]]; cbn [fst] in *; [done|].
  by apply IH.
Qed.

Lemma sweep_loop_indices (e : env) (l : list (Z * Game)) :
  forall st u c,
    (player_games (sweep_loop e l st).1 !! u = Some c ->
     player_games st !! u = Some c)
    /\ (pending_responses (sweep_loop e l st).1 !! u = Some c ->
        pending_responses st !! u = Some c).
Proof.
  induction l as [|[k g] l IH]; intros st u c; [done|]. cbn [sweep_loop].
  pose proof (sweep_step_state e k g st) as Hst.
  assert (Hsub : (player_games (sweep_step e k g st).1 !! u = Some c ->
                  player_games st !! u = Some c)
                 /\ (pending_responses (sweep_step e k g st).1 !! u = Some c ->
                     pending_responses st !! u = Some c)).
  { rewrite Hst. destruct (eligible (now e) g); [|done].
    destruct (current_player g) as [p|]; [|done].
    unfold untrack, commit. fields.
    split; by intros [_ ?]%lookup_delete_Some. }
  destruct (sweep_step e k g st) as [st' [x|]]; cbn [fst] in *; [done|].
  destruct (IH st' u c) as [H1 H2]. destruct Hsub as [S1 S2].
  split; intros H; [apply S1, H1, H|apply S2, H2, H].
Qed.

Lemma sweep_loop_gone (e : env) (l : list (Z * Game)) (st : State) (u : Z) :
  (player_games st !! u = None ->
   player_games (sweep_loop e l st).1 !! u = None)
  /\ (pending_responses st !! u = None ->
      pending_responses (sweep_loop e l st).1 !! u = None).
Proof.
  split; intros Hn.
  - destruct (player_games (sweep_loop e l st).1 !! u) as [c|] eqn:Hc; [|done].
    apply (sweep_loop_indices e l st u c) in Hc. congruence.
  - destruct (pending_responses (sweep_loop e l st).1 !! u) as [c|] eqn:Hc;
      [|done].
    apply (sweep_loop_indices e l st u c) in Hc. congruence.
Qed.

Lemma sweep_loop_whole (e : env) (l : list (Z * Game)) :
  forall st,
    NoDup l.*1 ->
    (forall k g, (k, g) ∈ l -> channel_id g = k) ->
    (sweep_loop e l st).2 = SweepDone ->
    (forall c,
       store (sweep_loop e l st).1 !! c
       = match (list_to_map l : gmap Z Game) !! c with
         | Some g =>
             if eligible (now e) g
             then Some (row_of_game (timeout_current_player g))
             else store st !! c
         | None => store st !! c
         end)
    /\ (forall k g u,
          (k, g) ∈ l -> eligible (now e) g = true ->
          current_player g = Some u ->
          player_games (sweep_loop e l st).1 !! u = None
          /\ pending_responses (sweep_loop e l st).1 !! u = None)
    /\ (forall u,
          (forall k g, (k, g) ∈ l -> eligible (now e) g = true ->
                       current_player g <> Some u) ->
          player_games (sweep_loop e l st).1 !! u = player_games st !! u
          /\ pending_responses (sweep_loop e l st).1 !! u
             = pending_responses st !! u).
Proof.
  induction l as [|[k g] l IH]; intros st Hnd Hkey Hdone.
  - split; [done|]. split; [|done]. by intros k g u ?%elem_of_nil.
  - cbn [fmap list_fmap fst] in Hnd. apply NoDup_cons in Hnd as [Hk Hnd].
    cbn [sweep_loop list_to_map foldr] in *. unfold uncurry. cbn [fst snd].
    pose proof (sweep_step_state e k g st) as Hst.
    destruct (sweep_step e k g st) as [st' [x|]]; [done|]. cbn [fst] in Hst.
    destruct (IH st' Hnd) as (Hstore & Hhit & Hmiss); [|done|].
    { intros k' g' Hin. apply Hkey. by right. }
    assert (Hch : channel_id (timeout_current_player g) = k).
    { destruct (timeout_current_player_fields g)
        as (_ & _ & _ & _ & _ & _ & ->). apply Hkey. left. }
    split; [|split].
    + intros c. rewrite Hstore. destruct (decide (k = c)) as [->|Hne].
      * rewrite lookup_insert_eq.
        rewrite (not_elem_of_list_to_map_1 _ c) by done. subst st'.
        destruct (eligible (now e) g) eqn:He; [|done].
        destruct (proj1 (eligible_spec _ _) He) as (_ & _ & p & -> & _).
        unfold untrack, commit, save_game. fields.
        by rewrite Hch, lookup_insert_eq.
      * rewrite lookup_insert_ne by done.
        assert (store st' !! c = store st !! c) as ->; [|done].
        subst st'. destruct (eligible (now e) g); [|done].
        destruct (current_player g); [|done].
        unfold untrack, commit, save_game. fields.
        by rewrite Hch, lookup_insert_ne.
    + intros k' g' u Hin He Hu.
      apply elem_of_cons in Hin as [Heq|Hin]; [|by eapply Hhit].
      injection Heq as -> ->. subst st'. rewrite He, Hu.
      split; apply sweep_loop_gone; unfold untrack, commit; fields;
        apply lookup_delete_eq.
    + intros u Hu. destruct (Hmiss u) as [-> ->].
      { intros k' g' Hin. apply (Hu k'). by right. }
      subst st'. destruct (eligible (now e) g) eqn:He; [|done].
      destruct (current_player g) as [p|] eqn:Hp; [|done].
      assert (p <> u).
      { intros ->. by apply (Hu k g); [left|..]. }
      unfold untrack, commit. fields. by rewrite !lookup_delete_ne.
Qed.

(** C4. One iteration of the sweep changes the state only when the game
    is active, [now - last_activity] exceeds two hours and the occupant of
    the current turn is there (an identity other than [None] and [0]).
    Then it vacates the slot of the current turn and nothing else of the
    game, writes the game to the store under its key, and removes the
    vacated identity from both router indices.  A game that is pending,
    open or complete, or whose current-turn slot is vacant, is skipped.
    Over a whole sweep each live game is left as it was or is the vacated
    form of an eligible game; a game the sweep has vacated is not eligible
    at any later time; and a sweep that ran to its end, run again at the
    same time, changes nothing.  However the sweep ends, every live game
    stays in [bot.games], as it was or, being eligible, vacated.  And a
    sweep that ran to its end, over games kept under their own
    [channel_id], has vacated every eligible live game, written its row
    and removed its current player from both indices; it has left every
    other game and row, every channel without a game, and every other
    identity of the indices as they were. *)
Theorem timeout_sweep :
  (forall t g,
     eligible t g = true
     <-> status g = active
         /\ timeout_delta < Datetime.sub t (last_activity g)
         /\ exists p, current_player g = Some p /\ p <> 0)
  /\ (forall e c g st,
        eligible (now e) g = false -> sweep_step e c g st = (st, None))
  /\ (forall e c g st p,
        eligible (now e) g = true -> current_player g = Some p ->
        let g' := timeout_current_player g in
        let st' := (sweep_step e c g st).1 in
        games st' = <[c := g']> (games st)
        /\ store st' = <[channel_id g := row_of_game g']> (store st)
        /\ player_games st' = delete p (player_games st)
        /\ pending_responses st' = delete p (pending_responses st)
        /\ current_player g' = None
        /\ other_slot g' = other_slot g
        /\ status g' = status g
        /\ contributions g' = contributions g
        /\ contributors g' = contributors g
        /\ current_turn g' = current_turn g
        /\ last_activity g' = last_activity g)
  /\ (forall e c g st,
        status g <> active \/ current_player g = None ->
        sweep_step e c g st = (st, None))
  /\ (forall e st c g',
        games (timeout_checker e st).1 !! c = Some g' ->
        games st !! c = Some g'
        \/ exists g, games st !! c = Some g /\ eligible (now e) g = true
                     /\ g' = timeout_current_player g)
  /\ (forall t t' g,
        eligible t g = true -> eligible t' (timeout_current_player g) = false)
  /\ (forall e e' st st1,
        timeout_checker e st = (st1, SweepDone) -> now e' = now e ->
        timeout_checker e' st1 = (st1, SweepDone))
  /\ (forall e st c g,
        games st !! c = Some g ->
        exists g',
          games (timeout_checker e st).1 !! c = Some g'
          /\ (g' = g
              \/ eligible (now e) g = true /\ g' = timeout_current_player g))
  /\ (forall e st st1,
        timeout_checker e st = (st1, SweepDone) ->
        (forall c g, games st !! c = Some g -> channel_id g = c) ->
        (forall c g p,
           games st !! c = Some g -> eligible (now e) g = true ->
           current_player g = Some p ->
           games st1 !! c = Some (timeout_current_player g)
           /\ store st1 !! c = Some (row_of_game (timeout_current_player g))
           /\ player_games st1 !! p = None
           /\ pending_responses st1 !! p = None)
        /\ (forall c g,
              games st !! c = Some g -> eligible (now e) g = false ->
              games st1 !! c = Some g /\ store st1 !! c = store st !! c)
        /\ (forall c,
              games st !! c = None ->
              games st1 !! c = None /\ store st1 !! c = store st !! c)
        /\ (forall u,
              (forall c g, games st !! c = Some g ->
                           eligible (now e) g = true ->
                           current_player g <> Some u) ->
              player_games st1 !! u = player_games st !! u
              /\ pending_responses st1 !! u = pending_responses st !! u)).
Proof.
  split; [apply eligible_spec|]. split; [apply sweep_step_skips|].
  split; [|split; [|split; [|split; [|split; [|split]]]]].
  - intros e c g st p He Hp g' st'. subst st' g'.
    rewrite sweep_step_state, He, Hp. unfold untrack, commit, save_game.
    fields. apply eligible_active in He as Hs.
    destruct (current_player_vacated g) as [Hnone _]; [congruence|].
    destruct (timeout_current_player_fields g)
      as (? & ? & ? & ? & ? & ? & ->).
    repeat split; try done. apply other_slot_vacated.
  - intros e c g st Hskip. apply sweep_step_skips.
    apply not_true_is_false. intros (Hs & _ & p & Hp & _)%eligible_spec.
    destruct Hskip; congruence.
  - apply timeout_checker_lookup.
  - intros t t' g He. apply eligible_active in He as Hs.
    apply not_true_is_false. intros (_ & _ & p & Hp & _)%eligible_spec.
    destruct (current_player_vacated g) as [Hnone _]; congruence.
  - intros e e' st st1 Hrun Hnow. unfold timeout_checker.
    apply sweep_loop_skips. intros c g Hin%elem_of_map_to_list.
    rewrite (timeout_checker_done _ _ _ _ Hrun) in Hin.
    destruct (games st !! c) as [g0|]; [|done]. injection Hin as <-.
    rewrite Hnow. apply eligible_swept.
  - intros e st c g Hg.
    destruct (sweep_loop_stays e (map_to_list (games st)) st c) as [g' Hg'];
      [by rewrite Hg|].
    exists g'. split; [exact Hg'|].
    apply timeout_checker_lookup in Hg' as [H|(g0 & Hg0 & He & ->)].
    + left. congruence.
    + right. assert (g0 = g) as -> by congruence. done.
  - intros e st st1 Hrun Hkey.
    pose proof (fun c => timeout_checker_done e st st1 c Hrun) as Hgames.
    destruct (sweep_loop_whole e (map_to_list (games st)) st
                (NoDup_fst_map_to_list _))
      as (Hstore & Hhit & Hmiss).
    { intros k g Hin%elem_of_map_to_list. by apply Hkey. }
    { unfold timeout_checker in Hrun. by rewrite Hrun. }
    unfold timeout_checker in Hrun. rewrite Hrun in Hstore, Hhit, Hmiss.
    cbn [fst] in Hstore, Hhit, Hmiss.
    assert (Hrow : forall c,
              store st1 !! c
              = match games st !! c with
                | Some g =>
                    if eligible (now e) g
                    then Some (row_of_game (timeout_current_player g))
                    else store st !! c
                | None => store st !! c
                end).
    { intros c. rewrite Hstore. by rewrite list_to_map_to_list. }
    split; [|split; [|split]].
    + intros c g p Hg He Hp. rewrite Hgames, Hrow, Hg. cbn. unfold swept.
      rewrite He. split; [done|]. split; [done|].
      apply (Hhit c g p); [by apply elem_of_map_to_list|done..].
    + intros c g Hg He. rewrite Hgames, Hrow, Hg. cbn. unfold swept.
      by rewrite He.
    + intros c Hg. by rewrite Hgames, Hrow, Hg.
    + intros u Hu. apply Hmiss.
      intros k g Hin%elem_of_map_to_list. by apply (Hu k).
Qed.

(** At three in the afternoon the sweep finds the active game of channel 7
    untouched since noon, with user 1 awaited: it vacates slot a, and the
    whole sweep leaves the game vacated and user 1 unbound. *)
Lemma timeout_sweep_witness :
  eligible three_pm g_active = true
  /\ current_player g_active = Some 1
  /\ games (sweep_step e_three_pm 7 g_active st_active).1
     = <[7 := timeout_current_player g_active]> (games st_active)
  /\ timeout_checker e_three_pm st_vacated = (st_vacated, SweepDone)
  /\ games st_vacated !! 7 = Some (timeout_current_player g_active)
  /\ player_games st_vacated !! 1 = None.
Proof.
  split; [run|]. split; [run|]. split; [|split].
  - exact (proj1 (proj1 (proj2 (proj2 timeout_sweep)) e_three_pm 7 g_active
                    st_active 1 ltac:(run) ltac:(run))).
  - refine (proj1 (proj2 (proj2 (proj2 (proj2 (proj2 (proj2 timeout_sweep))))))
              e_three_pm e_three_pm st_active st_vacated ltac:(run) eq_refl).
  - assert (Hkey : forall c g, games st_active !! c = Some g ->
                               channel_id g = c).
    { intros c g Hg.
      assert (Hgames : games st_active = {[ 7 := g_active ]}) by run.
      rewrite Hgames in Hg. apply lookup_singleton_Some in Hg as [<- <-].
      run. }
    destruct (proj1 (proj2 (proj2 (proj2 (proj2 (proj2 (proj2 (proj2
                (proj2 timeout_sweep))))))) e_three_pm st_active st_vacated
                ltac:(run) Hkey) 7 g_active 1 ltac:(run) ltac:(run)
                ltac:(run)) as (Hg & _ & Hp & _).
    split; [exact Hg|exact Hp].
Defined.

(** * Completion and its clean-up *)

Lemma forget_gone (st : State) (uid : option Z) (u : Z) :
  (uid = Some u /\ u <> 0
   \/ player_games st !! u = None /\ pending_responses st !! u = None) ->
  player_games (forget st uid) !! u = None
  /\ pending_responses (forget st uid) !! u = None.
Proof.
  unfold forget, untrack.
  intros [[-> Hu]|[Hp Hm]].
  - cbn [truthy]. apply Z.eqb_neq in Hu as ->. cbn [negb]. fields.
    by rewrite !lookup_delete_eq.
  - destruct uid as [v|]; [|done]. destruct (truthy (Some v)); [|done].
    fields. destruct (decide (v = u)) as [->|Hne].
    + by rewrite !lookup_delete_eq.
    + by rewrite !lookup_delete_ne.
Qed.

Lemma post_completed_poem_found (e : env) (g : Game) (st : State) :
  get_channel e (channel_id g) = true ->
  let st' := post_completed_poem e g st in
  games st' !! channel_id g = None
  /\ store st' !! channel_id g = None
  /\ (forall u, u <> 0 -> player_a g = Some u \/ player_b g = Some u ->
      player_games st' !! u = None /\ pending_responses st' !! u = None).
Proof.
  intros Hch. cbv zeta. unfold post_completed_poem, delete_game. rewrite Hch.
  cbn [fold_left]. fields. rewrite !lookup_delete_eq.
  split; [done|]. split; [done|]. intros u Hu [Ha|Hb].
  - apply forget_gone. right. apply forget_gone. by left.
  - apply forget_gone. by left.
Qed.

Lemma post_completed_poem_lost (e : env) (g : Game) (st : State) :
  get_channel e (channel_id g) = false -> post_completed_poem e g st = st.
Proof. intros Hch. unfold post_completed_poem. by rewrite Hch. Qed.

(** C3, on the code.  User 2 sends the second and last contribution of the
    one-line game of channel 7.  When [bot.get_channel(7)] finds no
    channel, [post_completed_poem] returns before its clean-up: the
    contribution is accepted, the session is complete and still in
    [bot.games], its row is still in the store, and users 1 and 2 are
    still bound to it.  When the channel is found, the session, its row
    and the entries of both users are gone. *)
Theorem completion_cleanup_needs_channel :
  (let out := on_message e_lost 2 false false "g h i j k l" st_short_joined in
   out.2 = Received
   /\ (status <$> games out.1 !! 7) = Some complete
   /\ (row_status <$> store out.1 !! 7) = Some complete
   /\ player_games out.1 !! 1 = Some 7
   /\ player_games out.1 !! 2 = Some 7)
  /\ (let out :=
        on_message e_noon 2 false false "g h i j k l" st_short_joined in
      out.2 = Received
      /\ games out.1 !! 7 = None
      /\ store out.1 !! 7 = None
      /\ player_games out.1 !! 1 = None
      /\ player_games out.1 !! 2 = None
      /\ pending_responses out.1 !! 1 = None
      /\ pending_responses out.1 !! 2 = None).
Proof. by vm_compute. Qed.

(** * The store: column codecs *)

Lemma append_cons (a : ascii) (s t : string) :
  (String a s ++ t)%string = String a (s ++ t)%string.
Proof. reflexivity. Qed.

Lemma append_nil (t : string) : (EmptyString ++ t)%string = t.
Proof. reflexivity. Qed.

(** Pushes the appends of a string through its known head. *)
Ltac str := repeat (rewrite append_cons || rewrite append_nil).

Lemma snoc_append (s : string) (c : ascii) (rest : string) :
  (Json.snoc s c ++ rest = s ++ String c rest)%string.
Proof.
  unfold Json.snoc, Json.one. induction s as [|a s IH]; str; [done|by f_equal].
Qed.

Lemma append_assoc (a b c : string) :
  ((a ++ b) ++ c = a ++ (b ++ c))%string.
Proof. induction a as [|x a IH]; str; [done|by f_equal]. Qed.

Lemma append_empty_r (a : string) : (a ++ EmptyString)%string = a.
Proof. induction a as [|x a IH]; str; [done|by f_equal]. Qed.

Lemma digit_read (d : Z) :
  0 <= d < 10 ->
  Json.is_digit (Iso.digit d) = true
  /\ Z.of_N (N_of_ascii (Iso.digit d)) - 48 = d.
Proof.
  intros Hd.
  assert (d = 0 \/ d = 1 \/ d = 2 \/ d = 3 \/ d = 4 \/ d = 5 \/ d = 6
          \/ d = 7 \/ d = 8 \/ d = 9) as Hcases by lia.
  repeat (destruct Hcases as [->|Hcases]; [done|]). by subst.
Qed.

Lemma digits_zfill (w : nat) :
  forall (k : nat) (n acc : Z) (rest : string),
    0 <= n < 10 ^ Z.of_nat w ->
    Iso.digits (w + k) acc (Iso.zfill w n ++ rest)
    = Iso.digits k (acc * 10 ^ Z.of_nat w + n) rest.
Proof.
  induction w as [|w IH]; intros k n acc rest Hn.
  - cbn. f_equal. change (10 ^ Z.of_nat 0) with 1 in Hn. lia.
  - cbn [Iso.zfill]. rewrite snoc_append.
    replace (S w + k)%nat with (w + S k)%nat by lia.
    rewrite Nat2Z.inj_succ, Z.pow_succ_r in * by lia.
    rewrite IH by (split; [apply Z.div_pos; lia|apply Z.div_lt_upper_bound; lia]).
    cbn [Iso.digits].
    destruct (digit_read (n mod 10)) as [-> ->]; [apply Z.mod_pos_bound; lia|].
    f_equal. pose proof (Z.div_mod n 10). lia.
Qed.

Lemma digits_zfill_all (w : nat) (n : Z) (rest : string) :
  0 <= n < 10 ^ Z.of_nat w ->
  Iso.digits w 0 (Iso.zfill w n ++ rest) = Some (n, rest).
Proof.
  intros Hn. rewrite <- (Nat.add_0_r w) at 1. rewrite digits_zfill by done.
  cbn [Iso.digits]. by rewrite Z.mul_0_l, Z.add_0_l.
Qed.

Lemma days_in_month_le (y m : Z) : Datetime.days_in_month y m <= 31.
Proof.
  unfold Datetime.days_in_month. destruct (_ && _); [lia|].
  destruct (Z.to_nat m) as [|[|[|[|[|[|[|[|[|[|[|[|[|]]]]]]]]]]]]];
    cbn; try lia. by destruct n.
Qed.

Lemma valid_ranges (d : datetime) :
  Datetime.valid d = true ->
  0 <= year d < 10000 /\ 0 <= month d < 100 /\ 0 <= day d < 100
  /\ 0 <= hour d < 100 /\ 0 <= minute d < 100 /\ 0 <= second d < 100
  /\ 0 <= microsecond d < 1000000.
Proof.
  unfold Datetime.valid. rewrite !andb_true_iff, !Z.leb_le, !Z.ltb_lt.
  pose proof (days_in_month_le (year d) (month d)). lia.
Qed.

Lemma expect_head (n : N) (c : ascii) (rest : string) :
  Json.is_char c n = true -> Iso.expect n (String c rest) = Some rest.
Proof. intros H. cbn [Iso.expect]. by rewrite H. Qed.

Lemma fromisoformat_isoformat (d : datetime) :
  Datetime.valid d = true -> Iso.fromisoformat (Iso.isoformat d) = Some d.
Proof.
  intros Hv. destruct (valid_ranges d Hv) as (Hy & Hm & Hd & Hh & Hmi & Hs & Hu).
  change (10000) with (10 ^ Z.of_nat 4) in Hy.
  change (100) with (10 ^ Z.of_nat 2) in Hm, Hd, Hh, Hmi, Hs.
  change (1000000) with (10 ^ Z.of_nat 6) in Hu.
  unfold Iso.fromisoformat, Iso.isoformat.
  rewrite digits_zfill_all by done. cbn [mbind option_bind]. str.
  rewrite expect_head by done. cbn [mbind option_bind].
  rewrite digits_zfill_all by done. cbn [mbind option_bind]. str.
  rewrite expect_head by done. cbn [mbind option_bind].
  rewrite digits_zfill_all by done. cbn [mbind option_bind]. str.
  cbn [Iso.skip1 mbind option_bind].
  rewrite digits_zfill_all by done. cbn [mbind option_bind]. str.
  rewrite expect_head by done. cbn [mbind option_bind].
  rewrite digits_zfill_all by done. cbn [mbind option_bind]. str.
  rewrite expect_head by done. cbn [mbind option_bind].
  rewrite digits_zfill_all by done. cbn [mbind option_bind].
  destruct (Z.eqb_spec (microsecond d) 0) as [Hz|Hnz].
  - destruct d as [y m dd hh mm ss us].
    cbn [year month day hour minute second microsecond mbind option_bind] in *.
    subst us. by rewrite Hv.
  - str. rewrite expect_head by done. cbn [mbind option_bind].
    rewrite <- (append_empty_r (Iso.zfill 6 (microsecond d))).
    rewrite digits_zfill_all by done.
    destruct d as [y m dd hh mm ss us].
    cbn [year month day hour minute second microsecond mbind option_bind] in *.
    by rewrite Hv.
Qed.

Lemma strs_escape_char (c : ascii) (cur : string) (acc : list string)
    (rest : string) :
  Json.strs_go (Json.Inside cur) acc (Json.escape_char c ++ rest)
  = Json.strs_go (Json.Inside (Json.snoc cur c)) acc rest.
Proof. destruct c as [[] [] [] [] [] [] [] []]; reflexivity. Qed.

Lemma strs_escape (s : string) :
  forall (cur : string) (acc : list string) (rest : string),
    Json.strs_go (Json.Inside cur) acc
      (Json.escape s ++ String Json.quote rest)
    = Json.strs_go Json.After (acc ++ [(cur ++ s)%string]) rest.
Proof.
  induction s as [|c s IH]; intros cur acc rest.
  - cbn [Json.escape]. str. by rewrite append_empty_r.
  - cbn [Json.escape]. rewrite append_assoc, strs_escape_char, IH.
    by rewrite snoc_append.
Qed.

Lemma strs_value (x : string) (acc : list string) (rest : string) :
  Json.strs_go Json.Value acc (Json.encode_string x ++ rest)
  = Json.strs_go Json.After (acc ++ [x]) rest.
Proof.
  unfold Json.encode_string, Json.one. str. rewrite append_assoc. str.
  change (Json.strs_go Json.Value acc (String Json.quote ?s))
    with (Json.strs_go (Json.Inside EmptyString) acc s).
  by rewrite strs_escape.
Qed.

Lemma strs_items (xs : list string) :
  forall acc, xs <> [] ->
    Json.strs_go Json.Value acc
      (Text.join ", " (Json.encode_string <$> xs) ++ "]")
    = Some (acc ++ xs).
Proof.
  induction xs as [|x xs IH]; intros acc Hne; [done|].
  destruct xs as [|y ys].
  - cbn [fmap list_fmap Text.join]. by rewrite strs_value.
  - change (Text.join ", " (Json.encode_string <$> x :: y :: ys))
      with (Json.encode_string x ++ ", "
            ++ Text.join ", " (Json.encode_string <$> y :: ys))%string.
    rewrite !append_assoc, strs_value. str.
    change (Json.strs_go Json.After ?a (String "," (String " " ?s)))
      with (Json.strs_go Json.Value a s).
    rewrite IH by done. by rewrite <- app_assoc.
Qed.

Lemma loads_dumps_strs (l : list string) :
  Json.loads_strs (Json.dumps_strs l) = Some l.
Proof.
  destruct l as [|x xs]; [done|].
  unfold Json.loads_strs, Json.dumps_strs, Json.dumps_array. str.
  change (Json.strs_go Json.Start [] (String "[" ?s))
    with (Json.strs_go Json.Open [] s).
  assert (Hopen : forall rest,
             Json.strs_go Json.Open [] (Json.encode_string x ++ rest)
             = Json.strs_go Json.Value [] (Json.encode_string x ++ rest)).
  { intros rest. unfold Json.encode_string. by str. }
  destruct xs as [|y ys].
  - cbn [fmap list_fmap Text.join]. rewrite Hopen. by rewrite strs_value.
  - change (Text.join ", " (Json.encode_string <$> x :: y :: ys))
      with (Json.encode_string x ++ ", "
            ++ Text.join ", " (Json.encode_string <$> y :: ys))%string.
    rewrite !append_assoc, Hopen, strs_value. str.
    change (Json.strs_go Json.After ?a (String "," (String " " ?s)))
      with (Json.strs_go Json.Value a s).
    by rewrite strs_items.
Qed.

Lemma number_char_plain (c : ascii) :
  Json.is_digit c || Json.is_char c 45 = true ->
  Json.is_ws c = false /\ Json.is_char c 93 = false.
Proof. destruct c as [[] [] [] [] [] [] [] []]; by intros H. Qed.

Lemma ints_token (tok : string) :
  forall (pre : string) (acc : list Z) (rest : string),
    number_chars tok = true ->
    Json.ints_go (Json.Inside pre) acc (tok ++ rest)%string
    = Json.ints_go (Json.Inside (pre ++ tok)%string) acc rest.
Proof.
  induction tok as [|c t IH]; intros pre acc rest Hnum.
  - str. by rewrite append_empty_r.
  - cbn [number_chars] in Hnum. apply andb_prop in Hnum as [Hc Ht].
    str. cbn [Json.ints_go]. rewrite Hc, IH by done.
    by rewrite snoc_append.
Qed.

Lemma ints_value (tok : string) (acc : list Z) (rest : string) :
  number_chars tok = true -> tok <> EmptyString ->
  Json.ints_go Json.Value acc (tok ++ rest)%string
  = Json.ints_go (Json.Inside tok) acc rest
  /\ Json.ints_go Json.Open acc (tok ++ rest)%string
     = Json.ints_go (Json.Inside tok) acc rest.
Proof.
  intros Hnum Hne. destruct tok as [|c t]; [done|].
  cbn [number_chars] in Hnum. apply andb_prop in Hnum as [Hc Ht].
  destruct (number_char_plain c Hc) as [Hws Hclose].
  str. cbn [Json.ints_go]. rewrite Hws, Hclose, Hc, ints_token by done.
  unfold Json.one. by str.
Qed.

Lemma ints_close (tok : string) (z : Z) (acc : list Z) :
  Json.int_of_token tok = Some z ->
  Json.ints_go (Json.Inside tok) acc "]" = Some (acc ++ [z]).
Proof. intros H. cbn. by rewrite H. Qed.

Lemma ints_comma (tok : string) (z : Z) (acc : list Z) (rest : string) :
  Json.int_of_token tok = Some z ->
  Json.ints_go (Json.Inside tok) acc (String "," (String " " rest))
  = Json.ints_go Json.Value (acc ++ [z]) rest.
Proof. intros H. cbn [Json.ints_go]. cbn -[Json.ints_go]. by rewrite H. Qed.

Lemma uint_chars (d : Decimal.uint) :
  number_chars (NilEmpty.string_of_uint d) = true.
Proof. induction d; cbn [NilEmpty.string_of_uint number_chars]; by rewrite ?IHd. Qed.

Lemma to_uint_normal (p : positive) (d : Decimal.uint) :
  Pos.to_uint p <> Decimal.D0 d.
Proof.
  intros Hd.
  assert (Hn : Decimal.unorm (Pos.to_uint p) = Pos.to_uint p).
  { rewrite <- DecimalPos.Unsigned.to_of, DecimalPos.Unsigned.of_to. done. }
  rewrite Hd, DecimalFacts.unorm_D0 in Hn. unfold Decimal.unorm in Hn.
  destruct (Decimal.nzhead d) eqn:Hz; try done.
  - injection Hn as <-. by apply (DecimalPos.Unsigned.to_uint_nonzero p).
  - exact (DecimalFacts.nzhead_nonzero _ _ Hz).
Qed.

Lemma uint_head (d : Decimal.uint) :
  d <> Decimal.Nil -> (forall d', d <> Decimal.D0 d') ->
  exists c t,
    NilZero.string_of_uint d = String c t
    /\ NilEmpty.string_of_uint d = String c t
    /\ Json.is_char c 48 = false /\ Json.is_char c 45 = false.
Proof.
  intros Hnil Hzero. destruct d; [done|by destruct (Hzero d)|..];
    eexists _, _; repeat split.
Qed.

Lemma int_of_token_plain (c : ascii) (t : string) :
  Json.is_char c 48 = false -> Json.is_char c 45 = false ->
  Json.int_of_token (String c t)
  = Z.of_int <$> NilZero.int_of_string (String c t).
Proof.
  intros H0 Hm. unfold Json.int_of_token. rewrite Hm, H0. by destruct t.
Qed.

Lemma int_of_token_minus (c : ascii) (t : string) :
  Json.is_char c 48 = false ->
  Json.int_of_token (String "-" (String c t))
  = Z.of_int <$> NilZero.int_of_string (String "-" (String c t)).
Proof.
  intros H0. unfold Json.int_of_token.
  change (Json.is_char "-" 45) with true. cbn iota. rewrite H0.
  by destruct t.
Qed.

Lemma repr_int_token (z : Z) :
  Json.int_of_token (Json.repr_int z) = Some z
  /\ number_chars (Json.repr_int z) = true
  /\ Json.repr_int z <> EmptyString.
Proof.
  assert (Hparse : NilZero.int_of_string (Json.repr_int z) = Some (Z.to_int z)).
  { unfold Json.repr_int. apply NilZero.isi; destruct z as [|p|p]; try done;
      intros [= H]; by apply DecimalPos.Unsigned.to_uint_nonnil in H. }
  destruct z as [|p|p].
  - done.
  - destruct (uint_head (Pos.to_uint p)) as (c & t & Hs & Hs' & H0 & Hm);
      [apply DecimalPos.Unsigned.to_uint_nonnil|apply to_uint_normal|].
    change (Json.repr_int (Z.pos p)) with (NilZero.string_of_uint (Pos.to_uint p))
      in *.
    rewrite Hs in *. split; [|split; [|done]].
    + rewrite int_of_token_plain, Hparse by done. cbn [fmap option_fmap option_map].
      f_equal. apply DecimalZ.of_to.
    + rewrite <- Hs'. apply uint_chars.
  - destruct (uint_head (Pos.to_uint p)) as (c & t & Hs & Hs' & H0 & Hm);
      [apply DecimalPos.Unsigned.to_uint_nonnil|apply to_uint_normal|].
    change (Json.repr_int (Z.neg p))
      with (String "-" (NilZero.string_of_uint (Pos.to_uint p))) in *.
    rewrite Hs in *. split; [|split; [|done]].
    + rewrite int_of_token_minus, Hparse by done. cbn [fmap option_fmap option_map].
      f_equal. apply DecimalZ.of_to.
    + rewrite <- Hs'. cbn [number_chars]. apply uint_chars.
Qed.

Lemma ints_item (x : Z) (acc : list Z) :
  Json.ints_go Json.Value acc (Json.repr_int x ++ "]") = Some (acc ++ [x])
  /\ Json.ints_go Json.Open acc (Json.repr_int x ++ "]") = Some (acc ++ [x])
  /\ (forall rest,
        Json.ints_go Json.Value acc (Json.repr_int x ++ ", " ++ rest)
        = Json.ints_go Json.Value (acc ++ [x]) rest)
  /\ (forall rest,
        Json.ints_go Json.Open acc (Json.repr_int x ++ ", " ++ rest)
        = Json.ints_go Json.Value (acc ++ [x]) rest).
Proof.
  destruct (repr_int_token x) as (Htok & Hnum & Hne).
  repeat split; intros;
    rewrite ?(proj1 (ints_value _ _ _ Hnum Hne)),
      ?(proj2 (ints_value _ _ _ Hnum Hne));
    str; by rewrite ?(ints_close _ _ _ Htok), ?(ints_comma _ _ _ _ Htok).
Qed.

Lemma ints_items (xs : list Z) :
  forall acc, xs <> [] ->
    Json.ints_go Json.Value acc
      (Text.join ", " (Json.repr_int <$> xs) ++ "]")
    = Some (acc ++ xs).
Proof.
  induction xs as [|x xs IH]; intros acc Hne; [done|].
  destruct xs as [|y ys].
  - cbn [fmap list_fmap Text.join]. apply ints_item.
  - change (Text.join ", " (Json.repr_int <$> x :: y :: ys))
      with (Json.repr_int x ++ ", "
            ++ Text.join ", " (Json.repr_int <$> y :: ys))%string.
    rewrite !append_assoc.
    rewrite (proj1 (proj2 (proj2 (ints_item x acc)))).
    rewrite IH by done. by rewrite <- app_assoc.
Qed.

Lemma loads_dumps_ints (l : list Z) :
  Json.loads_ints (Json.dumps_ints l) = Some l.
Proof.
  destruct l as [|x xs]; [done|].
  unfold Json.loads_ints, Json.dumps_ints, Json.dumps_array. str.
  change (Json.ints_go Json.Start [] (String "[" ?s))
    with (Json.ints_go Json.Open [] s).
  destruct xs as [|y ys].
  - cbn [fmap list_fmap Text.join]. apply ints_item.
  - change (Text.join ", " (Json.repr_int <$> x :: y :: ys))
      with (Json.repr_int x ++ ", "
            ++ Text.join ", " (Json.repr_int <$> y :: ys))%string.
    rewrite !append_assoc.
    rewrite (proj2 (proj2 (proj2 (ints_item x [])))).
    by rewrite ints_items.
Qed.

(** * The store: save, then load *)

Lemma game_of_row_of_game (g : Game) :
  Datetime.valid (last_activity g) = true ->
  game_of_row (channel_id g) (row_of_game g) = Some (reloaded g).
Proof.
  intros Hv. unfold game_of_row, row_of_game.
  cbn [row_contributions row_contributors row_last_activity row_starter_id
       row_first_words row_words_per_turn row_total_lines row_player_a
       row_player_b row_status row_current_turn].
  by rewrite loads_dumps_strs, loads_dumps_ints, fromisoformat_isoformat.
Qed.

Lemma game_of_row_channel (c : Z) (r : row) (g : Game) :
  game_of_row c r = Some g -> channel_id g = c.
Proof.
  unfold game_of_row. intros H.
  destruct (Json.loads_strs _); [|done]. destruct (Json.loads_ints _); [|done].
  destruct (Iso.fromisoformat _); [|done]. cbn in H. by injection H as <-.
Qed.

Lemma load_rows_spec (l : list (Z * row)) :
  forall acc,
    NoDup l.*1 ->
    (forall c r, (c, r) ∈ l -> is_Some (game_of_row c r)) ->
    exists m,
      load_rows l acc = Some m
      /\ (forall c r, (c, r) ∈ l -> m !! c = game_of_row c r)
      /\ (forall c, c ∉ l.*1 -> m !! c = acc !! c).
Proof.
  induction l as [|[k r] l IH]; intros acc Hnd Hok.
  - exists acc. split; [done|]. split; [|done]. by intros c r ?%elem_of_nil.
  - cbn [fmap list_fmap fst] in Hnd. apply NoDup_cons in Hnd as [Hk Hnd].
    destruct (Hok k r) as [g Hg]; [left|].
    pose proof (game_of_row_channel _ _ _ Hg) as Hc.
    destruct (IH (<[k := g]> acc) Hnd) as (m & Hm & Hin & Hout).
    { intros c r' Hin. apply Hok. by right. }
    exists m. cbn [load_rows]. rewrite Hg. cbn [mbind option_bind].
    rewrite Hc. split; [done|]. split.
    + intros c r' [[= -> ->]|Hin']%elem_of_cons.
      * rewrite Hout by done. by rewrite lookup_insert_eq.
      * by apply Hin.
    + intros c Hc'. cbn [fmap list_fmap fst] in Hc'.
      apply not_elem_of_cons in Hc' as [Hne Hc'].
      rewrite Hout by done. by rewrite lookup_insert_ne.
Qed.

Lemma elem_of_select (db : gmap Z row) (c : Z) (r : row) :
  (c, r) ∈ select_non_complete db
  <-> db !! c = Some r /\ row_status r <> complete.
Proof.
  unfold select_non_complete. rewrite list_elem_of_filter, elem_of_map_to_list.
  cbn. tauto.
Qed.

Lemma select_NoDup (db : gmap Z row) : NoDup (select_non_complete db).*1.
Proof.
  eapply sublist_NoDup; [apply (NoDup_fst_map_to_list db)|].
  apply fmap_sublist, sublist_filter.
Qed.

(** C7. A game that is not complete, saved to a table whose other
    non-complete rows load, is found again by [load_all_games] under its
    channel with every stored field as it was: session id, starter,
    first words, words per turn, total lines, the contributions and the
    contributors in order, both slots, status, last activity and current
    turn; the transient [_skip_init] is set by the loader.  The timestamp
    is a [datetime], within the ranges of its class.  A game saved as
    complete is not loaded. *)
Theorem save_load_roundtrip (g : Game) (db : gmap Z row) :
  Datetime.valid (last_activity g) = true ->
  (forall c r, db !! c = Some r -> c <> channel_id g ->
               row_status r <> complete -> is_Some (game_of_row c r)) ->
  exists m,
    load_all_games (save_game g db) = Some m
    /\ (status g <> complete ->
        exists g',
          m !! channel_id g = Some g'
          /\ channel_id g' = channel_id g
          /\ starter_id g' = starter_id g
          /\ first_words g' = first_words g
          /\ words_per_turn g' = words_per_turn g
          /\ total_lines g' = total_lines g
          /\ contributions g' = contributions g
          /\ contributors g' = contributors g
          /\ player_a g' = player_a g
          /\ player_b g' = player_b g
          /\ status g' = status g
          /\ last_activity g' = last_activity g
          /\ current_turn g' = current_turn g
          /\ skip_init g' = true)
    /\ (status g = complete -> m !! channel_id g = None).
Proof.
  intros Hv Hdb. unfold load_all_games.
  destruct (load_rows_spec (select_non_complete (save_game g db)) ∅
              (select_NoDup _)) as (m & Hm & Hin & Hout).
  { intros c r [Hl Hs]%elem_of_select. unfold save_game in Hl.
    destruct (decide (c = channel_id g)) as [->|Hne].
    - rewrite lookup_insert_eq in Hl. injection Hl as <-.
      rewrite game_of_row_of_game by done. by eexists.
    - rewrite lookup_insert_ne in Hl by done. by eapply Hdb. }
  exists m. split; [done|]. split.
  - intros Hs. exists (reloaded g).
    rewrite (Hin (channel_id g) (row_of_game g)).
    + rewrite game_of_row_of_game by done. repeat split.
    + apply elem_of_select. unfold save_game. by rewrite lookup_insert_eq.
  - intros Hs. rewrite Hout; [done|].
    intros ((c & r) & Hc & [Hl Hr]%elem_of_select)%list_elem_of_fmap.
    cbn in Hc. subst c. unfold save_game in Hl.
    rewrite lookup_insert_eq in Hl. injection Hl as <-. done.
Qed.

(** The active game of channel 7, saved next to the row of channel 8. *)
Lemma save_load_roundtrip_witness :
  Datetime.valid (last_activity g_active) = true
  /\ status g_active <> complete
  /\ exists m g',
       load_all_games (save_game g_active db_other) = Some m
       /\ m !! channel_id g_active = Some g'
       /\ contributions g' = contributions g_active
       /\ contributors g' = contributors g_active.
Proof.
  split; [run|]. split; [run|].
  destruct (save_load_roundtrip g_active db_other ltac:(run))
    as (m & Hm & Hload & _).
  { intros c r Hl Hne Hs. unfold db_other, save_game in Hl.
    apply lookup_insert_Some in Hl as [[<- <-]|[_ Hl]]; [|done].
    rewrite game_of_row_of_game by run. by eexists. }
  destruct (Hload ltac:(run))
    as (g' & Hg' & _ & _ & _ & _ & _ & Hcs & Hus & _).
  exists m, g'. repeat split; done.
Defined.

(** A restart on the table of the active game of channel 7 rebuilds the
    game, the bindings of users 1 and 2, and the mark of user 1, who is
    awaited. *)
Example restart_active :
  (games <$> startup (store st_active)) = Some {[ 7 := reloaded g_active ]}
  /\ (player_games <$> startup (store st_active))
     = Some (player_games st_active)
  /\ (pending_responses <$> startup (store st_active))
     = Some (pending_responses st_active).
Proof. split; [run|split; run]. Qed.

(** * Further properties of the methods of [Game] *)

Lemma unique_fold (l : list Z) :
  forall seen,
    fold_left (fun seen uid => if decide (uid ∈ seen) then seen else seen ++ [uid])
      l seen
    = seen ++ filter (fun y => y ∉ seen) (first_seen l).
Proof.
  induction l as [|x l IH]; intros seen; cbn [fold_left first_seen].
  - by rewrite app_nil_r.
  - rewrite filter_cons. destruct (decide (x ∈ seen)) as [Hin|Hin].
    + rewrite IH, decide_False by (by intros ?). f_equal.
      rewrite list_filter_filter. apply list_filter_iff. intros y.
      split; [|by intros [? _]]. intros Hy. split; [done|]. by intros ->.
    + rewrite IH, decide_True by done. rewrite <- app_assoc. cbn [app].
      f_equal. f_equal. rewrite list_filter_filter. apply list_filter_iff.
      intros y. rewrite not_elem_of_app, not_elem_of_cons. split.
      * intros (? & ? & _). done.
      * intros [? ?]. split; [done|]. split; [done|]. apply not_elem_of_nil.
Qed.

Lemma filter_always (l : list Z) (seen : list Z) :
  seen = [] -> filter (fun y => y ∉ seen) l = l.
Proof.
  intros ->. induction l as [|x l IH]; [done|].
  rewrite filter_cons_True by apply not_elem_of_nil. by rewrite IH.
Qed.

Lemma first_seen_elem (l : list Z) (x : Z) : x ∈ first_seen l <-> x ∈ l.
Proof.
  induction l as [|y l IH]; cbn [first_seen]; [done|].
  rewrite !elem_of_cons, list_elem_of_filter, IH.
  destruct (decide (x = y)); tauto.
Qed.

Lemma first_seen_NoDup (l : list Z) : NoDup (first_seen l).
Proof.
  induction l as [|y l IH]; cbn [first_seen]; [constructor|].
  apply NoDup_cons. split; [|by apply NoDup_filter].
  rewrite list_elem_of_filter. tauto.
Qed.

(** X1. [get_unique_contributors] returns the distinct contributors in the
    order of their first appearance: no identity twice, and exactly the
    identities of [contributors]. *)
Theorem unique_contributors_first_seen (g : Game) :
  get_unique_contributors g = first_seen (contributors g)
  /\ NoDup (get_unique_contributors g)
  /\ (forall u, u ∈ get_unique_contributors g <-> u ∈ contributors g).
Proof.
  assert (H : get_unique_contributors g = first_seen (contributors g)).
  { unfold get_unique_contributors. rewrite unique_fold. cbn [app].
    by apply filter_always. }
  rewrite H. split; [done|]. split; [apply first_seen_NoDup|].
  intros u. apply first_seen_elem.
Qed.

(** The contributors of the active game of channel 7. *)
Lemma unique_contributors_first_seen_witness :
  get_unique_contributors g_active = first_seen (contributors g_active)
  /\ (2 ∈ get_unique_contributors g_active <-> 2 ∈ contributors g_active).
Proof.
  destruct (unique_contributors_first_seen g_active) as (H1 & _ & H3).
  split; [exact H1|exact (H3 2)].
Defined.

Lemma split_lstrip (s : string) : Text.split (Text.lstrip s) = Text.split s.
Proof.
  induction s as [|c s IH]; [done|]. cbn [Text.lstrip Text.split].
  destruct (Text.is_space c) eqn:Hc; [done|]. cbn [Text.split]. by rewrite Hc.
Qed.

Lemma rstrip_empty (s : string) :
  Text.rstrip s = EmptyString ->
  Text.split s = [] /\ Text.starts_token s = false.
Proof.
  induction s as [|c s IH]; [done|]. cbn [Text.rstrip Text.split Text.starts_token].
  destruct (Text.rstrip s) as [|a r]; [|done].
  destruct (Text.is_space c); [|done]. intros _. by destruct IH.
Qed.

Lemma rstrip_head (s : string) (a : ascii) (r : string) :
  Text.rstrip s = String a r -> exists t, s = String a t.
Proof.
  destruct s as [|c s]; [done|]. cbn [Text.rstrip].
  destruct (Text.rstrip s) as [|b r'].
  - destruct (Text.is_space c); [done|]. intros [= <- _]. by eexists.
  - intros [= <- _]. by eexists.
Qed.

Lemma split_rstrip (s : string) : Text.split (Text.rstrip s) = Text.split s.
Proof.
  induction s as [|c s IH]; [done|]. cbn [Text.rstrip].
  destruct (Text.rstrip s) as [|a r] eqn:Hr.
  - destruct (rstrip_empty s Hr) as [Hs Ht].
    cbn [Text.split]. destruct (Text.is_space c) eqn:Hc; [done|].
    cbn [Text.split Text.starts_token]. by rewrite Hc, Ht, Hs.
  - destruct (rstrip_head s a r Hr) as [t ->].
    cbn [Text.split] in *. destruct (Text.is_space c); [done|].
    cbn [Text.starts_token]. by rewrite IH.
Qed.

(** X2. Stripping leading and trailing blanks does not change the words of
    a text: [on_message], which counts the words of the stripped content,
    counts what [count_words] counts on the content as sent. *)
Theorem strip_keeps_words (s : string) :
  Text.split (Text.strip s) = Text.split s
  /\ count_words (Text.strip s) = count_words s.
Proof.
  assert (H : Text.split (Text.strip s) = Text.split s).
  { unfold Text.strip. by rewrite split_rstrip, split_lstrip. }
  split; [done|]. unfold count_words. by rewrite H.
Qed.

Lemma split_tokens (s : string) :
  Forall (fun t => t <> EmptyString /\ blank_free t = true) (Text.split s).
Proof.
  induction s as [|c s IH]; [constructor|]. cbn [Text.split].
  destruct (Text.is_space c) eqn:Hc; [done|].
  destruct (Text.starts_token s).
  - destruct (Text.split s) as [|t ts].
    + repeat constructor; [done|]. cbn. by rewrite Hc.
    + apply Forall_cons in IH as [[_ Ht] Hts]. constructor; [|done].
      split; [done|]. cbn [blank_free]. by rewrite Hc, Ht.
  - constructor; [|done]. split; [done|]. cbn. by rewrite Hc.
Qed.

(** X3. [last_word] has three outcomes: [None] without contributions; an
    [IndexError] when the last contribution has no word; otherwise the
    last word of the last contribution, which is not empty and holds no
    blank. *)
Theorem last_word_outcomes (g : Game) :
  (contributions g = [] -> last_word g = Ok None)
  /\ (forall c,
        last (contributions g) = Some c -> count_words c = 0 ->
        last_word g = Raised IndexError)
  /\ (forall c,
        last (contributions g) = Some c -> 0 < count_words c ->
        exists w,
          last_word g = Ok (Some w) /\ last (Text.split c) = Some w
          /\ w <> EmptyString /\ blank_free w = true).
Proof.
  unfold last_word, count_words. split; [by intros ->|]. split.
  - intros c -> Hc. destruct (Text.split c); [done|]. cbn in Hc. lia.
  - intros c -> Hc. pose proof (split_tokens c) as Htok.
    destruct (last (Text.split c)) as [w|] eqn:Hw.
    + exists w. split; [done|]. split; [done|].
      apply last_Some in Hw as [l' Hw]. rewrite Hw in Htok.
      apply Forall_app in Htok as [_ Htok].
      by apply Forall_cons in Htok as [Htok _].
    + apply last_None in Hw. rewrite Hw in Hc. cbn in Hc. lia.
Qed.

(** The last word of the active game of channel 7 is [l]. *)
Lemma last_word_outcomes_witness :
  last (contributions g_active) = Some "g h i j k l"
  /\ 0 < count_words "g h i j k l"
  /\ exists w, last_word g_active = Ok (Some w)
               /\ last (Text.split "g h i j k l") = Some w.
Proof.
  split; [run|]. split; [run|].
  destruct (proj2 (proj2 (last_word_outcomes g_active)) "g h i j k l"
              ltac:(run) ltac:(run)) as (w & H1 & H2 & _).
  by exists w.
Defined.

Lemma parity_cases (n : Z) : n mod 2 = 0 \/ n mod 2 = 1.
Proof. pose proof (Z.mod_pos_bound n 2). lia. Qed.

Lemma parity_flip (n : Z) : ((n + 1) mod 2 =? 0) = negb (n mod 2 =? 0).
Proof.
  rewrite Z.add_mod by done. by destruct (parity_cases n) as [->| ->].
Qed.

Lemma parity_one (n : Z) : (n mod 2 =? 1) = negb (n mod 2 =? 0).
Proof. by destruct (parity_cases n) as [->| ->]. Qed.

Lemma next_player (u : Z) (w : string) (t : datetime) (g : Game) :
  status g <> open ->
  current_player (add_contribution u w t g) = other_slot g.
Proof.
  intros Hs. unfold current_player, other_slot.
  destruct (add_contribution_slots u w t g) as (-> & -> & _ & _ & _ & ->).
  rewrite add_contribution_status, parity_flip.
  rewrite decide_False by (by destruct (_ <=? _)).
  by destruct (current_turn g mod 2 =? 0).
Qed.

(** X4. Turns alternate: after [add_contribution] on a game that is not
    open, the player expected next is the occupant of the slot that was
    not the one of the turn just played, the slot of the turn just played
    is the other one, and after one more contribution the slot of the
    first turn is expected again. *)
Theorem turns_alternate (u u' : Z) (w w' : string) (t t' : datetime)
    (g : Game) :
  status g <> open ->
  current_player (add_contribution u w t g) = other_slot g
  /\ other_slot (add_contribution u w t g) = current_player g
  /\ current_player (add_contribution u' w' t' (add_contribution u w t g))
     = current_player g.
Proof.
  intros Hs.
  assert (Hback : other_slot (add_contribution u w t g) = current_player g).
  { unfold current_player, other_slot.
    destruct (add_contribution_slots u w t g) as (-> & -> & _ & _ & _ & ->).
    rewrite parity_flip, decide_False by done.
    by destruct (current_turn g mod 2 =? 0). }
  split; [by apply next_player|]. split; [done|].
  rewrite next_player; [done|]. rewrite add_contribution_status.
  by destruct (_ <=? _).
Qed.

(** After the join of user 2 the starter, user 1, is expected. *)
Lemma turns_alternate_witness :
  status (seat 2 (new_Game 7 1 "a b c d e f" 6 4 false noon)) <> open
  /\ current_player g_active = Some 1.
Proof.
  split; [run|].
  exact (proj1 (turns_alternate 2 2 "g h i j k l" "g h i j k l" noon noon
                  (seat 2 (new_Game 7 1 "a b c d e f" 6 4 false noon))
                  ltac:(run))).
Defined.

(** X5. In an active game the slot is open for a join exactly when nobody
    is expected to play; a timeout opens it and the seat taken by a join
    closes it. *)
Theorem slot_open_iff_vacant (g : Game) :
  status g = active ->
  (slot_is_open g = true <-> current_player g = None)
  /\ slot_is_open (timeout_current_player g) = true
  /\ (forall u, slot_is_open (take_slot u g) = false).
Proof.
  intros Hs.
  assert (Hiff : forall g0, status g0 = active ->
            (slot_is_open g0 = true <-> current_player g0 = None)).
  { intros g0 H0. unfold slot_is_open, current_player.
    rewrite H0, decide_False by done. rewrite parity_one.
    destruct (current_turn g0 mod 2 =? 0), (player_a g0), (player_b g0);
      cbn; split; done. }
  split; [by apply Hiff|]. split.
  - apply Hiff.
    + by destruct (timeout_current_player_fields g) as (-> & _).
    + by apply current_player_vacated; rewrite Hs.
  - intros u. apply not_true_is_false. intros Ho.
    assert (Hst : status (take_slot u g) = active).
    { unfold take_slot. by destruct (_ =? _). }
    apply (Hiff _ Hst) in Ho. revert Ho. clear Hst.
    unfold current_player, take_slot.
    destruct (current_turn g mod 2 =? 0) eqn:Hp; fields;
      rewrite Hs, decide_False, Hp by done; done.
Qed.

(** The active game of channel 7, where user 1 is expected. *)
Lemma slot_open_iff_vacant_witness :
  status g_active = active
  /\ slot_is_open g_active = false
  /\ slot_is_open (timeout_current_player g_active) = true.
Proof.
  split; [run|]. split; [run|].
  exact (proj1 (proj2 (slot_open_iff_vacant g_active ltac:(run)))).
Defined.

(** * Starting a game *)

Lemma channel_free_not_busy (st : State) (c : Z) :
  channel_free st c ->
  match games st !! c with
  | Some existing => bool_decide (status existing ≠ complete)
  | None => false
  end = false.
Proof.
  intros [->|(g & -> & Hg)]; [done|]. by rewrite bool_decide_eq_false_2 by tauto.
Qed.

(** X6. [cmd_start] refuses, with the state unchanged, an identity that is
    bound to a game, then a channel that holds a game which is not
    complete, then words whose number is not [wordcount]; the answers are
    in this order of precedence. *)
Theorem cmd_start_refusals (e : env) (user channel : Z)
    (words : option string) (lines wordcount : Z) (st : State) :
  (is_Some (player_games st !! user) ->
   cmd_start e user channel words lines wordcount st = (st, AlreadyInGame))
  /\ (player_games st !! user = None ->
      forall g, games st !! channel = Some g -> status g <> complete ->
      cmd_start e user channel words lines wordcount st = (st, ChannelBusy))
  /\ (player_games st !! user = None -> channel_free st channel ->
      forall w, given words = Some w -> count_words w <> wordcount ->
      cmd_start e user channel words lines wordcount st
      = (st, NeedExactly wordcount (count_words w))).
Proof.
  unfold cmd_start. split; [|split].
  - intros Hb. by rewrite decide_True.
  - intros Hu g Hg Hs. rewrite decide_False by (rewrite Hu; by intros []).
    by rewrite Hg, bool_decide_eq_true_2.
  - intros Hu Hfree w Hw Hne.
    rewrite decide_False by (rewrite Hu; by intros []).
    rewrite (channel_free_not_busy _ _ Hfree), Hw. by rewrite decide_True.
Qed.

(** User 1, who plays in channel 7, wants to start a game in channel 8; and
    user 3 wants to start one in channel 7. *)
Lemma cmd_start_refusals_witness :
  is_Some (player_games st_active !! 1)
  /\ cmd_start e_noon 1 8 None 4 6 st_active = (st_active, AlreadyInGame)
  /\ player_games st_active !! 3 = None
  /\ cmd_start e_noon 3 7 None 4 6 st_active = (st_active, ChannelBusy).
Proof.
  assert (H1 : is_Some (player_games st_active !! 1)) by (by exists 7; run).
  split; [exact H1|]. split.
  - exact (proj1 (cmd_start_refusals e_noon 1 8 None 4 6 st_active) H1).
  - split; [run|].
    exact (proj1 (proj2 (cmd_start_refusals e_noon 3 7 None 4 6 st_active))
             ltac:(run) g_active ltac:(run) ltac:(run)).
Defined.

(** X7. [cmd_start] by an unbound identity in a free channel.  With the
    right number of words it puts an open game under the channel, with
    these words as the only contribution of the starter, who holds slot a
    and is bound to the channel; no mark is set.  Without words it puts a
    pending game with no contribution, binds the starter and marks it.
    The game is saved under its channel, and a complete game that was
    under the channel is replaced in memory and in the store. *)
Theorem cmd_start_creates (e : env) (user channel : Z)
    (words : option string) (lines wordcount : Z) (st : State) :
  player_games st !! user = None -> channel_free st channel ->
  let out := cmd_start e user channel words lines wordcount st in
  (forall w, given words = Some w -> count_words w = wordcount ->
     let g := new_Game channel user w wordcount lines false (now e) in
     out.2 = Started
     /\ games out.1 = <[channel := g]> (games st)
     /\ store out.1 = <[channel := row_of_game g]> (store st)
     /\ player_games out.1 = <[user := channel]> (player_games st)
     /\ pending_responses out.1 = pending_responses st
     /\ status g = open /\ current_turn g = 1
     /\ contributions g = [w] /\ contributors g = [user]
     /\ player_a g = Some user /\ player_b g = None)
  /\ (given words = None ->
      let g := pending_Game channel user wordcount lines (now e) in
      out.2 = Starting
      /\ games out.1 = <[channel := g]> (games st)
      /\ store out.1 = <[channel := row_of_game g]> (store st)
      /\ player_games out.1 = <[user := channel]> (player_games st)
      /\ pending_responses out.1 = <[user := channel]> (pending_responses st)
      /\ status g = pending /\ current_turn g = 1
      /\ contributions g = [] /\ contributors g = []
      /\ player_a g = Some user /\ player_b g = None).
Proof.
  intros Hu Hfree out. subst out. unfold cmd_start.
  rewrite decide_False by (rewrite Hu; by intros []).
  rewrite (channel_free_not_busy _ _ Hfree). split.
  - intros w -> Hc. by rewrite decide_False by tauto.
  - by intros ->.
Qed.

(** From the empty table user 1 starts a game in channel 7, with six words
    and without. *)
Lemma cmd_start_creates_witness :
  player_games initial !! 1 = None /\ channel_free initial 7
  /\ (cmd_start e_noon 1 7 (Some "a b c d e f") 4 6 initial).2 = Started
  /\ (cmd_start e_noon 1 7 None 4 6 initial).2 = Starting.
Proof.
  assert (Hf : channel_free initial 7) by (by left).
  split; [run|]. split; [exact Hf|]. split.
  - exact (proj1 (proj1 (cmd_start_creates e_noon 1 7 (Some "a b c d e f") 4 6
                           initial ltac:(run) Hf)
                    "a b c d e f" ltac:(run) ltac:(run))).
  - exact (proj1 (proj2 (cmd_start_creates e_noon 1 7 None 4 6
                           initial ltac:(run) Hf) ltac:(run))).
Defined.

(** * Direct messages *)

(** X8. [on_message] ignores the messages of bots and the messages sent
    in a guild; it answers that no turn is pending, with the state
    unchanged, to an identity without a mark; and when the mark names a
    channel that holds no game it clears the mark and changes nothing
    else. *)
Theorem on_message_unrouted (e : env) (author : Z) (is_bot in_guild : bool)
    (content : string) (st : State) :
  (is_bot = true \/ in_guild = true ->
   on_message e author is_bot in_guild content st = (st, Ignored))
  /\ (pending_responses st !! author = None ->
      on_message e author false false content st = (st, NoPendingTurn))
  /\ (forall c,
        pending_responses st !! author = Some c -> games st !! c = None ->
        let out := on_message e author false false content st in
        out.2 = NoPendingTurnNow
        /\ pending_responses out.1 = delete author (pending_responses st)
        /\ games out.1 = games st /\ store out.1 = store st
        /\ player_games out.1 = player_games st).
Proof.
  unfold on_message. split; [|split].
  - intros [-> | ->]; [done|]. by destruct is_bot.
  - by intros ->.
  - intros c -> ->. done.
Qed.

(** User 3, who plays nowhere, writes to the bot. *)
Lemma on_message_unrouted_witness :
  pending_responses st_active !! 3 = None
  /\ on_message e_noon 3 false false "a b c d e f" st_active
     = (st_active, NoPendingTurn).
Proof.
  split; [run|].
  exact (proj1 (proj2 (on_message_unrouted e_noon 3 false false "a b c d e f"
                         st_active)) ltac:(run)).
Defined.

(** X9. The first words of a pending game.  Free text with
    [words_per_turn] words, routed by the mark to a pending game, makes the
    game open with the stripped text as its first words and only
    contribution and the sender as its contributor; the turn counter and
    the slots are not touched, [last_activity] is the time of the
    message, the game is saved, the mark of the sender is cleared and no
    other mark is set. *)
Theorem on_message_first_words (e : env) (author : Z) (content : string)
    (st : State) (c : Z) (g : Game) :
  pending_responses st !! author = Some c -> games st !! c = Some g ->
  status g = pending ->
  count_words (Text.strip content) = words_per_turn g ->
  let out := on_message e author false false content st in
  let g' := first_words_Game author (Text.strip content) (now e) g in
  out.2 = WordsLockedIn
  /\ games out.1 = <[c := g']> (games st)
  /\ store out.1 = <[channel_id g := row_of_game g']> (store st)
  /\ pending_responses out.1 = delete author (pending_responses st)
  /\ player_games out.1 = player_games st
  /\ status g' = open
  /\ first_words g' = Text.strip content
  /\ contributions g' = [Text.strip content] /\ contributors g' = [author]
  /\ current_turn g' = current_turn g
  /\ player_a g' = player_a g /\ player_b g' = player_b g
  /\ last_activity g' = now e.
Proof.
  intros Hm Hg Hs Hc. cbv zeta.
  rewrite (on_message_routed _ _ _ _ _ _ Hm Hg). cbv zeta.
  rewrite decide_False by (by intros ?). by rewrite decide_True.
Qed.

(** User 1 sends the six first words of the pending game of channel 7. *)
Lemma on_message_first_words_witness :
  pending_responses st_pending !! 1 = Some 7
  /\ (status <$> games st_pending !! 7) = Some pending
  /\ (on_message e_noon 1 false false " a b c d e f " st_pending).2
     = WordsLockedIn.
Proof.
  split; [run|]. split; [run|].
  exact (proj1 (on_message_first_words e_noon 1 " a b c d e f " st_pending 7
                  (pending_Game 7 1 6 4 noon)
                  ltac:(run) ltac:(run) ltac:(run) ltac:(run))).
Defined.

(** X10. An accepted turn.  Free text with [words_per_turn] words from the
    identity expected in an active game is appended with [add_contribution]
    and answered [Received].  When the game does not end with it, the game
    is saved, the mark of the sender is cleared and the occupant of the
    other slot, if there is one and the user is found, is marked for the
    channel of the game; bindings are not touched.  When it ends the game,
    the state is the one [post_completed_poem] makes of the saved game. *)
Theorem on_message_turn (e : env) (author : Z) (content : string)
    (st : State) (c : Z) (g : Game) :
  pending_responses st !! author = Some c -> games st !! c = Some g ->
  status g = active -> current_player g = Some author ->
  count_words (Text.strip content) = words_per_turn g ->
  let out := on_message e author false false content st in
  let g' := add_contribution author (Text.strip content) (now e) g in
  let saved := commit c g' (clear_mark author st) in
  out.2 = Received
  /\ (total_turns g <= current_turn g + 1 ->
      status g' = complete /\ out.1 = post_completed_poem e g' saved)
  /\ (current_turn g + 1 < total_turns g ->
      status g' = active
      /\ games out.1 = <[c := g']> (games st)
      /\ store out.1 = <[channel_id g := row_of_game g']> (store st)
      /\ player_games out.1 = player_games st
      /\ pending_responses out.1
         = match other_slot g with
           | Some p =>
               if negb (p =? 0) && fetch_user e p
               then <[p := channel_id g]> (delete author (pending_responses st))
               else delete author (pending_responses st)
           | None => delete author (pending_responses st)
           end).
Proof.
  intros Hm Hg Hs Hcur Hc. cbv zeta.
  rewrite (on_message_routed _ _ _ _ _ _ Hm Hg). cbv zeta.
  rewrite decide_False by (by intros ?).
  rewrite decide_False by (by rewrite Hs).
  rewrite decide_False by (by intros ?). cbn [fst snd].
  split; [done|]. unfold finish_turn. rewrite add_contribution_status.
  destruct (add_contribution_slots author (Text.strip content) (now e) g)
    as (_ & _ & Hch & _).
  split.
  - intros Hle. apply Z.leb_le in Hle. rewrite Hle. by rewrite decide_True.
  - intros Hlt. apply Z.leb_gt in Hlt. rewrite Hlt.
    rewrite decide_False by (by rewrite Hs). split; [done|].
    unfold prompt_next_player.
    rewrite next_player by (by rewrite Hs). rewrite Hch.
    unfold commit, clear_mark, save_game. rewrite Hch.
    destruct (other_slot g) as [p|]; [|done].
    destruct (p =? 0); [done|]. cbn [negb andb].
    by destruct (fetch_user e p).
Qed.

(** User 1, expected in the active game of channel 7, sends six words: the
    game goes on and user 2 is marked. *)
Lemma on_message_turn_witness :
  pending_responses st_active !! 1 = Some 7
  /\ current_player g_active = Some 1
  /\ let out := on_message e_noon 1 false false "m n o p q r" st_active in
     out.2 = Received /\ pending_responses out.1 !! 2 = Some 7.
Proof.
  split; [run|]. split; [run|].
  destruct (on_message_turn e_noon 1 "m n o p q r" st_active 7 g_active
              ltac:(run) ltac:(run) ltac:(run) ltac:(run) ltac:(run))
    as (Hr & _ & Hgo).
  split; [exact Hr|].
  destruct (Hgo ltac:(run)) as (_ & _ & _ & _ & Hp).
  rewrite Hp. run.
Defined.

(** * Joining: refusals and the first join *)

Lemma not_elsewhere_check (st : State) (user c : Z) :
  not_elsewhere st user c ->
  match player_games st !! user with
  | Some other => if decide (other ≠ c) then Some other else None
  | None => None
  end = None.
Proof.
  intros Hb. destruct (player_games st !! user) as [o|] eqn:Ho; [|done].
  rewrite decide_False; [done|]. intros Hne. by apply Hne, Hb.
Qed.

(** X11. The refusals of [cmd_join] leave the state unchanged and come in
    this order: no game in the channel, or a complete one; a pending game;
    an identity bound to another channel, which is named in the answer; no
    open slot; the starter of an open game joining it. *)
Theorem cmd_join_refusals (e : env) (user c : Z) (words : option string)
    (st : State) :
  (games st !! c = None -> cmd_join e user c words st = (st, NoActiveGame))
  /\ (forall g, games st !! c = Some g ->
      (status g = complete ->
       cmd_join e user c words st = (st, NoActiveGame))
      /\ (status g = pending ->
          cmd_join e user c words st = (st, WaitingForStarter))
      /\ (forall other,
            status g = open \/ status g = active ->
            player_games st !! user = Some other -> other <> c ->
            cmd_join e user c words st = (st, InOtherGame other))
      /\ (status g = active -> not_elsewhere st user c ->
          slot_is_open g = false ->
          cmd_join e user c words st = (st, TwoActivePlayers))
      /\ (status g = open -> not_elsewhere st user c ->
          player_a g = Some user ->
          cmd_join e user c words st = (st, CantPlayYourself))).
Proof.
  unfold cmd_join. split; [by intros ->|]. intros g ->.
  split; [|split; [|split; [|split]]].
  - intros Hs. by rewrite decide_True.
  - intros Hs. rewrite decide_False by (by rewrite Hs). by rewrite decide_True.
  - intros other Hs Hb Hne.
    rewrite !decide_False by (destruct Hs as [-> | ->]; done).
    by rewrite Hb, decide_True.
  - intros Hs Hb Hclosed. rewrite !decide_False by (by rewrite Hs).
    by rewrite (not_elsewhere_check _ _ _ Hb), Hclosed.
  - intros Hs Hb Ha. rewrite !decide_False by (by rewrite Hs).
    rewrite (not_elsewhere_check _ _ _ Hb).
    unfold slot_is_open. rewrite Hs. cbn [negb]. by rewrite decide_True.
Qed.

(** User 3 joins the active game of channel 7, which has its two players;
    and user 1 joins the game it has just started. *)
Lemma cmd_join_refusals_witness :
  games st_active !! 7 = Some g_active
  /\ slot_is_open g_active = false
  /\ cmd_join e_noon 3 7 None st_active = (st_active, TwoActivePlayers)
  /\ cmd_join e_noon 1 7 None st_open = (st_open, CantPlayYourself).
Proof.
  split; [run|]. split; [run|]. split.
  - refine (proj1 (proj2 (proj2 (proj2
              (proj2 (cmd_join_refusals e_noon 3 7 None st_active)
                 g_active ltac:(run))))) ltac:(run) _ ltac:(run)).
    intros other Ho. exfalso. revert Ho. run.
  - refine (proj2 (proj2 (proj2 (proj2
              (proj2 (cmd_join_refusals e_noon 1 7 None st_open)
                 (new_Game 7 1 "a b c d e f" 6 4 false noon) ltac:(run)))))
              ltac:(run) _ ltac:(run)).
    intros other Ho. assert (Some other = Some 7) as [= ->]; [|done].
    rewrite <- Ho. run.
Defined.

Lemma finish_turn_goes_on (e : env) (g : Game) (st : State) :
  status g = active ->
  games (finish_turn e g st) = games st
  /\ store (finish_turn e g st) = store st
  /\ player_games (finish_turn e g st) = player_games st
  /\ pending_responses (finish_turn e g st)
     = match current_player g with
       | Some p =>
           if negb (p =? 0) && fetch_user e p
           then <[p := channel_id g]> (pending_responses st)
           else pending_responses st
       | None => pending_responses st
       end.
Proof.
  intros Hs. unfold finish_turn. rewrite decide_False by (by rewrite Hs).
  unfold prompt_next_player. destruct (current_player g) as [p|]; [|done].
  destruct (p =? 0); [done|]. by destruct (fetch_user e p).
Qed.

(** X12. The first join.  An identity that is not the starter and is not
    bound elsewhere joins an open game.  With [words_per_turn] words it
    takes slot b, the game becomes active, the words are appended as its
    contribution and the identity is bound; the game ends at once when
    the turn counter reaches [total_turns], as it does for a game of one
    line, and otherwise the player of the next turn is marked.  Without
    words it takes slot b, the game becomes active with its contributions
    and turn counter as they were, and the identity is bound and
    marked. *)
Theorem cmd_join_open (e : env) (user c : Z) (words : option string)
    (st : State) (g : Game) :
  games st !! c = Some g -> status g = open ->
  player_a g <> Some user -> not_elsewhere st user c ->
  let out := cmd_join e user c words st in
  (forall w, given words = Some w -> count_words w = words_per_turn g ->
     let g' :=
       add_contribution user w (now e)
         (set_status active (set_player_b (Some user) g)) in
     out.2 = JoinedPoem
     /\ player_a g' = player_a g /\ player_b g' = Some user
     /\ contributions g' = contributions g ++ [w]
     /\ contributors g' = contributors g ++ [user]
     /\ current_turn g' = current_turn g + 1
     /\ (total_turns g <= current_turn g + 1 -> status g' = complete)
     /\ (current_turn g + 1 < total_turns g ->
         status g' = active
         /\ games out.1 = <[c := g']> (games st)
         /\ store out.1 = <[channel_id g := row_of_game g']> (store st)
         /\ player_games out.1 = <[user := c]> (player_games st)
         /\ pending_responses out.1
            = match current_player g' with
              | Some p =>
                  if negb (p =? 0) && fetch_user e p
                  then <[p := channel_id g]> (pending_responses st)
                  else pending_responses st
              | None => pending_responses st
              end))
  /\ (given words = None ->
      let g' := set_status active (set_player_b (Some user) g) in
      out.2 = JoinedCheckDMs
      /\ games out.1 = <[c := g']> (games st)
      /\ store out.1 = <[channel_id g := row_of_game g']> (store st)
      /\ player_games out.1 = <[user := c]> (player_games st)
      /\ pending_responses out.1 = <[user := c]> (pending_responses st)).
Proof.
  intros Hg Hs Ha Hb out.
  assert (Hok : join_allows st user c g).
  { unfold join_allows, slot_is_open. rewrite Hs.
    repeat split; try done. by intros [_ ?]. }
  assert (Hseat : seat user g = set_status active (set_player_b (Some user) g)).
  { unfold seat. by rewrite decide_True. }
  subst out. rewrite (cmd_join_allowed _ _ _ _ _ _ Hg Hok), Hseat. split.
  - intros w -> Hc. rewrite decide_False by (by intros ?).
    rewrite decide_True by done. cbv zeta. cbn [fst snd].
    set (g0 := set_status active (set_player_b (Some user) g)).
    destruct (add_contribution_slots user w (now e) g0)
      as (Hpa & Hpb & Hch & _ & _ & Hct).
    destruct (add_contribution_lists user w (now e) g0) as [Hcs Hus].
    pose proof (add_contribution_status user w (now e) g0) as Hst.
    change (total_turns g0) with (total_turns g) in Hst.
    change (current_turn g0) with (current_turn g) in *.
    split; [done|]. split; [done|]. split; [done|]. split; [done|].
    split; [done|]. split; [done|]. split.
    + intros Hle. apply Z.leb_le in Hle. by rewrite Hst, Hle.
    + intros Hlt. apply Z.leb_gt in Hlt. rewrite Hlt in Hst.
      change (status g0) with active in Hst.
      destruct (finish_turn_goes_on e _
                  (set_store
                     (save_game (add_contribution user w (now e) g0)
                        (store st))
                     (set_player_games (<[user:=c]> (player_games st))
                        (set_games
                           (<[c:=add_contribution user w (now e) g0]>
                              (games st)) st))) Hst)
        as (Hgs & Hdb & Hpg & Hpr).
      rewrite Hgs, Hdb, Hpg, Hpr. unfold save_game. rewrite Hch.
      split; [exact Hst|]. split; [reflexivity|]. split; [reflexivity|].
      split; reflexivity.
  - by intros ->.
Qed.

(** User 2 joins the one-line game of channel 7 with six words, which ends
    it; and joins the four-line game of channel 7 without words. *)
Lemma cmd_join_open_witness :
  games st_short !! 7 = Some (new_Game 7 1 "a b c d e f" 6 1 false noon)
  /\ (cmd_join e_noon 2 7 (Some "g h i j k l") st_short).2 = JoinedPoem
  /\ status (add_contribution 2 "g h i j k l" noon
               (set_status active
                  (set_player_b (Some 2)
                     (new_Game 7 1 "a b c d e f" 6 1 false noon))))
     = complete.
Proof.
  split; [run|].
  assert (Hb : not_elsewhere st_short 2 7).
  { intros other Ho. exfalso. revert Ho. run. }
  destruct (proj1 (cmd_join_open e_noon 2 7 (Some "g h i j k l") st_short
                     (new_Game 7 1 "a b c d e f" 6 1 false noon)
                     ltac:(run) ltac:(run) ltac:(run) Hb)
              "g h i j k l" ltac:(run) ltac:(run))
    as (Hr & _ & _ & _ & _ & _ & Hend & _).
  split; [exact Hr|]. apply Hend. run.
Defined.

(** * Withdrawal and status *)

(** X13. [cmd_abandon] by an identity that is not bound answers that it is
    in no game and changes nothing; by a bound identity it answers
    otherwise.  After it the identity is bound to nothing, so a second
    [cmd_abandon] answers that it is in no game and changes nothing. *)
Theorem cmd_abandon_twice (e e' : env) (user : Z) (st : State) :
  (player_games st !! user = None -> cmd_abandon e user st = (st, NotInGame))
  /\ (is_Some (player_games st !! user) ->
      (cmd_abandon e user st).2 <> NotInGame)
  /\ player_games (cmd_abandon e user st).1 !! user = None
  /\ cmd_abandon e' user (cmd_abandon e user st).1
     = ((cmd_abandon e user st).1, NotInGame).
Proof.
  assert (Hnone : forall e0 s, player_games s !! user = None ->
                    cmd_abandon e0 user s = (s, NotInGame)).
  { intros e0 s Hs. unfold cmd_abandon. by rewrite Hs. }
  assert (Hgone : player_games (cmd_abandon e user st).1 !! user = None).
  { rewrite cmd_abandon_state.
    destruct (player_games st !! user) as [c|] eqn:Hu; [|done].
    destruct (games st !! c); unfold commit, untrack; fields;
      apply lookup_delete_eq. }
  split; [apply Hnone|]. split; [|split; [done|by apply Hnone]].
  intros [c Hc]. unfold cmd_abandon. rewrite Hc.
  change (games (untrack user st)) with (games st).
  destruct (games st !! c); [|done].
  destruct (get_channel e c); [destruct (last_word _)|]; done.
Qed.

(** User 3 is in no game; user 1 leaves the active game of channel 7, and
    leaves again. *)
Lemma cmd_abandon_twice_witness :
  cmd_abandon e_noon 3 st_active = (st_active, NotInGame)
  /\ cmd_abandon e_noon 1 (cmd_abandon e_noon 1 st_active).1
     = ((cmd_abandon e_noon 1 st_active).1, NotInGame).
Proof.
  split.
  - apply (proj1 (cmd_abandon_twice e_noon e_noon 3 st_active)). run.
  - exact (proj2 (proj2 (proj2 (cmd_abandon_twice e_noon e_noon 1 st_active)))).
Defined.



(** * Loading the table *)

Lemma load_rows_None (l : list (Z * row)) :
  forall acc,
    load_rows l acc = None
    <-> exists c r, (c, r) ∈ l /\ game_of_row c r = None.
Proof.
  induction l as [|[k r] l IH]; intros acc; cbn [load_rows].
  - split; [done|]. by intros (c & r & ?%elem_of_nil & _).
  - destruct (game_of_row k r) as [g|] eqn:Hg; cbn [mbind option_bind].
    + rewrite IH. split.
      * intros (c & r' & Hin & Hn). exists c, r'. split; [by right|done].
      * intros (c & r' & Hin & Hn).
        apply elem_of_cons in Hin as [Heq|Hin]; [|by exists c, r'].
        injection Heq as -> ->. congruence.
    + split; [|done]. intros _. exists k, r. split; [left|done].
Qed.

(** X15. [load_all_games] fails exactly when a row that is not complete
    does not decode: its contributions, its contributors or its timestamp.
    When it returns, the dictionary holds under each channel the decoded
    row of that channel, and nothing for a channel without a row or with a
    complete one; every game in it has its key as [channel_id], is not
    complete, and has [_skip_init] set. *)
Theorem load_all_games_spec (db : gmap Z row) :
  (load_all_games db = None
   <-> exists c r, db !! c = Some r /\ row_status r <> complete
                   /\ game_of_row c r = None)
  /\ (forall m,
        load_all_games db = Some m ->
        (forall c,
           m !! c
           = match db !! c with
             | Some r =>
                 if decide (row_status r = complete) then None
                 else game_of_row c r
             | None => None
             end)
        /\ (forall c g,
              m !! c = Some g ->
              channel_id g = c /\ status g <> complete
              /\ skip_init g = true)).
Proof.
  unfold load_all_games. split.
  - rewrite load_rows_None. split.
    + intros (c & r & [Hl Hs]%elem_of_select & Hn). by exists c, r.
    + intros (c & r & Hl & Hs & Hn). exists c, r.
      split; [by apply elem_of_select|done].
  - intros m Hm.
    assert (Hok : forall c r, (c, r) ∈ select_non_complete db ->
                    is_Some (game_of_row c r)).
    { intros c r Hin. destruct (game_of_row c r) eqn:Hg; [by eexists|].
      assert (load_rows (select_non_complete db) ∅ = None); [|congruence].
      apply load_rows_None. by exists c, r. }
    destruct (load_rows_spec _ ∅ (select_NoDup db) Hok)
      as (m' & Hm' & Hin & Hout).
    assert (m' = m) as -> by congruence.
    assert (Hall : forall c,
              m !! c
              = match db !! c with
                | Some r =>
                    if decide (row_status r = complete) then None
                    else game_of_row c r
                | None => None
                end).
    { intros c. destruct (db !! c) as [r|] eqn:Hc.
      - case_decide as Hs.
        + rewrite Hout; [done|].
          intros ((c' & r') & Hk & [Hl Hr]%elem_of_select)%list_elem_of_fmap.
          cbn in Hk. subst c'. congruence.
        + apply Hin. by apply elem_of_select.
      - rewrite Hout; [done|].
        intros ((c' & r') & Hk & [Hl Hr]%elem_of_select)%list_elem_of_fmap.
        cbn in Hk. subst c'. congruence. }
    split; [done|]. intros c g Hg. rewrite Hall in Hg.
    destruct (db !! c) as [r|]; [|done]. case_decide as Hs; [done|].
    split; [by eapply game_of_row_channel|].
    unfold game_of_row in Hg.
    destruct (Json.loads_strs _); [|done].
    destruct (Json.loads_ints _); [|done].
    destruct (Iso.fromisoformat _); [|done].
    cbn in Hg. by injection Hg as <-.
Qed.

(** The table of the active game of channel 7 loads. *)
Lemma load_all_games_spec_witness :
  exists m,
    load_all_games (store st_active) = Some m
    /\ forall c g, m !! c = Some g -> channel_id g = c.
Proof.
  destruct (load_all_games (store st_active)) as [m|] eqn:Hm;
    [|exfalso; revert Hm; run].
  exists m. split; [done|]. intros c g Hg.
  by destruct (proj2 (proj2 (load_all_games_spec (store st_active)) m Hm)
                 c g Hg) as (Hk & _).
Defined.

(** * Rebuilding the router indices *)

Lemma track_lookup (uid : option Z) (c : Z) (m : gmap Z Z) (u c' : Z) :
  track uid c m !! u = Some c' ->
  m !! u = Some c' \/ (uid = Some u /\ u <> 0 /\ c' = c).
Proof.
  unfold track. destruct uid as [p|]; [|by left]. cbn [truthy].
  destruct (p =? 0) eqn:Hp; cbn [negb]; [by left|].
  apply Z.eqb_neq in Hp. intros [[-> ->]|[_ H]]%lookup_insert_Some; [|by left].
  by right.
Qed.

Lemma track_keeps (uid : option Z) (c : Z) (m : gmap Z Z) (u : Z) :
  is_Some (m !! u) -> is_Some (track uid c m !! u).
Proof.
  intros Hm. unfold track. destruct uid as [p|]; [|done].
  destruct (truthy (Some p)); [|done].
  destruct (decide (p = u)) as [->|Hne].
  - rewrite lookup_insert_eq. by eexists.
  - by rewrite lookup_insert_ne.
Qed.

Lemma track_sets (c : Z) (m : gmap Z Z) (u : Z) :
  u <> 0 -> track (Some u) c m !! u = Some c.
Proof.
  intros Hu. unfold track. cbn [truthy].
  apply Z.eqb_neq in Hu. rewrite Hu. cbn [negb]. apply lookup_insert_eq.
Qed.

Lemma rebuild_frame (st : State) (item : Z * Game) :
  games (rebuild st item) = games st /\ store (rebuild st item) = store st
  /\ player_games (rebuild st item)
     = track (player_b item.2) item.1
         (track (player_a item.2) item.1 (player_games st)).
Proof.
  destruct item as [c g]. unfold rebuild. cbn [fst snd].
  destruct (bool_decide (status g = pending) && truthy (player_a g));
    [done|].
  by destruct (bool_decide (status g = active) && truthy (current_player g)).
Qed.

Lemma rebuild_marks (st : State) (c : Z) (g : Game) (u c' : Z) :
  pending_responses (rebuild st (c, g)) !! u = Some c' ->
  pending_responses st !! u = Some c' \/ (u <> 0 /\ c' = c /\ backs g u).
Proof.
  unfold rebuild, backs.
  destruct (bool_decide (status g = pending)) eqn:Hp; cbn [andb].
  - apply bool_decide_eq_true in Hp.
    destruct (truthy (player_a g)) eqn:Ha.
    + fields. intros [H|(Hu & Hne & ->)]%track_lookup; [by left|].
      right. split; [done|]. split; [done|]. by left.
    + rewrite Hp. rewrite bool_decide_eq_false_2 by done. cbn [andb].
      fields. by left.
  - destruct (bool_decide (status g = active)) eqn:Hact; cbn [andb];
      [|fields; by left].
    apply bool_decide_eq_true in Hact.
    destruct (truthy (current_player g)); [|fields; by left].
    fields. intros [H|(Hu & Hne & ->)]%track_lookup; [by left|].
    right. split; [done|]. split; [done|]. by right.
Qed.

Lemma rebuild_marks_keep (st : State) (item : Z * Game) (u : Z) :
  is_Some (pending_responses st !! u) ->
  is_Some (pending_responses (rebuild st item) !! u).
Proof.
  destruct item as [c g]. intros Hm. unfold rebuild.
  destruct (bool_decide (status g = pending) && truthy (player_a g));
    [fields; by apply track_keeps|].
  destruct (bool_decide (status g = active) && truthy (current_player g));
    [fields; by apply track_keeps|done].
Qed.

Lemma rebuild_marks_set (st : State) (c : Z) (g : Game) (u : Z) :
  u <> 0 -> backs g u ->
  pending_responses (rebuild st (c, g)) !! u = Some c.
Proof.
  intros Hu [[Hs Ha]|[Hs Hc]]; unfold rebuild.
  - rewrite bool_decide_eq_true_2 by done. rewrite Ha. cbn [truthy andb].
    apply Z.eqb_neq in Hu as Hu'. rewrite Hu'. cbn [negb]. fields.
    by apply track_sets.
  - rewrite bool_decide_eq_false_2 by (by rewrite Hs). cbn [andb].
    rewrite bool_decide_eq_true_2 by done. rewrite Hc. cbn [truthy andb].
    apply Z.eqb_neq in Hu as Hu'. rewrite Hu'. cbn [negb]. fields.
    by apply track_sets.
Qed.

Lemma rebuild_fold (l : list (Z * Game)) :
  forall st,
    let st' := fold_left rebuild l st in
    games st' = games st /\ store st' = store st
    /\ (forall u c,
          player_games st' !! u = Some c ->
          player_games st !! u = Some c
          \/ (u <> 0 /\ exists g, (c, g) ∈ l /\ seated g u))
    /\ (forall u c,
          pending_responses st' !! u = Some c ->
          pending_responses st !! u = Some c
          \/ (u <> 0 /\ exists g, (c, g) ∈ l /\ backs g u))
    /\ (forall u, is_Some (player_games st !! u) ->
                  is_Some (player_games st' !! u))
    /\ (forall u, is_Some (pending_responses st !! u) ->
                  is_Some (pending_responses st' !! u))
    /\ (forall c g u, (c, g) ∈ l -> u <> 0 -> seated g u ->
                      is_Some (player_games st' !! u))
    /\ (forall c g u, (c, g) ∈ l -> u <> 0 -> backs g u ->
                      is_Some (pending_responses st' !! u)).
Proof.
  induction l as [|[k g] l IH]; intros st; cbn [fold_left].
  - cbv zeta. repeat split; try done; try (by left).
    + by intros c g u ?%elem_of_nil.
    + by intros c g u ?%elem_of_nil.
  - destruct (IH (rebuild st (k, g)))
      as (Hg & Hd & Hpg & Hpr & Hkeep & Hmkeep & Hall & Hmall).
    destruct (rebuild_frame st (k, g)) as (Hg0 & Hd0 & Hpg0).
    cbn [fst snd] in Hpg0. cbv zeta.
    split; [congruence|]. split; [congruence|]. split; [|split].
    + intros u c [H|(Hu & g0 & Hin & Hs)]%Hpg.
      * rewrite Hpg0 in H.
        apply track_lookup in H as [H|(Hb & Hu & ->)].
        -- apply track_lookup in H as [H|(Ha & Hu & ->)]; [by left|].
           right. split; [done|]. exists g. split; [left|by left].
        -- right. split; [done|]. exists g. split; [left|by right].
      * right. split; [done|]. exists g0. split; [by right|done].
    + intros u c [H|(Hu & g0 & Hin & Hs)]%Hpr.
      * apply rebuild_marks in H as [H|(Hu & -> & Hb)]; [by left|].
        right. split; [done|]. exists g. split; [left|done].
      * right. split; [done|]. exists g0. split; [by right|done].
    + split; [|split; [|split]].
      * intros u Hu. apply Hkeep. rewrite Hpg0. by do 2 apply track_keeps.
      * intros u Hu. by apply Hmkeep, rebuild_marks_keep.
      * intros c g0 u [[= -> ->]|Hin]%elem_of_cons Hu Hs;
          [|by eapply Hall].
        apply Hkeep. rewrite Hpg0. destruct Hs as [Ha|Hb].
        -- apply track_keeps. rewrite Ha, track_sets by done. by eexists.
        -- rewrite Hb, track_sets by done. by eexists.
      * intros c g0 u [[= -> ->]|Hin]%elem_of_cons Hu Hs;
          [|by eapply Hmall].
        apply Hmkeep. rewrite (rebuild_marks_set _ _ _ _ Hu Hs). by eexists.
Qed.

(** X16. The start of the bot, [ExquisiteCorpseBot.__init__]: when the
    table loads, the games are the loaded ones and the table is as it was;
    every binding it rebuilds is of an identity other than [0] that holds
    a slot of the game under the bound channel, and every mark is of an
    identity other than [0] that this game awaits, as the starter of a
    pending game or as the current player of an active one; and every
    such seat has a binding and every such wait a mark. *)
Theorem startup_indices (db : gmap Z row) (st : State) :
  startup db = Some st ->
  load_all_games db = Some (games st) /\ store st = db
  /\ (forall u c,
        player_games st !! u = Some c ->
        u <> 0 /\ exists g, games st !! c = Some g /\ seated g u)
  /\ (forall u c,
        pending_responses st !! u = Some c ->
        u <> 0 /\ exists g, games st !! c = Some g /\ backs g u)
  /\ (forall c g u,
        games st !! c = Some g -> u <> 0 ->
        (seated g u -> is_Some (player_games st !! u))
        /\ (backs g u -> is_Some (pending_responses st !! u))).
Proof.
  unfold startup. destruct (load_all_games db) as [m|]; [|done].
  cbn [mbind option_bind]. intros [= <-].
  destruct (rebuild_fold (map_to_list m) (mk_State m ∅ ∅ db))
    as (Hg & Hd & Hpg & Hpr & _ & _ & Hall & Hmall).
  cbv zeta in *. cbn [games store player_games pending_responses] in *.
  rewrite Hg, Hd. split; [done|]. split; [done|]. split; [|split].
  - intros u c [H|(Hu & g & Hin%elem_of_map_to_list & Hs)]%Hpg; [done|].
    split; [done|]. by exists g.
  - intros u c [H|(Hu & g & Hin%elem_of_map_to_list & Hs)]%Hpr; [done|].
    split; [done|]. by exists g.
  - intros c g u Hin%elem_of_map_to_list Hu. split; intros Hs.
    + by eapply Hall.
    + by eapply Hmall.
Qed.

(** The start of the bot on the table of the active game of channel 7. *)
Lemma startup_indices_witness :
  exists st,
    startup (store st_active) = Some st
    /\ load_all_games (store st_active) = Some (games st)
    /\ forall u c, player_games st !! u = Some c -> u <> 0.
Proof.
  destruct (startup (store st_active)) as [st|] eqn:Hst; [|revert Hst; run].
  exists st. split; [done|].
  destruct (startup_indices _ _ Hst) as (Hl & _ & Hpg & _).
  split; [done|]. intros u c H. by destruct (Hpg u c H).
Defined.

(** * Invariants of the live games and of the table *)

Lemma shaped_new_Game (c u : Z) (w : string) (wc lines : Z) (t : datetime) :
  count_words w = wc -> shaped c (new_Game c u w wc lines false t).
Proof.
  intros Hw. unfold shaped, counted, worded, new_Game. fields.
  split; [done|]. split; [split; done|]. by constructor.
Qed.

Lemma shaped_pending_Game (c u wc lines : Z) (t : datetime) :
  shaped c (pending_Game c u wc lines t).
Proof.
  unfold shaped, counted, worded, pending_Game, new_Game. fields.
  split; [done|]. split; [split; done|]. constructor.
Qed.

Lemma shaped_seat (c u : Z) (g : Game) :
  shaped c g -> status g = open \/ status g = active -> shaped c (seat u g).
Proof.
  intros (Hk & [Hp Hn] & Hw) Hs.
  assert (Hnp : status g <> pending) by (destruct Hs as [-> | ->]; done).
  unfold shaped, counted, worded, seat, take_slot.
  case_decide; [|destruct (_ =? _)]; fields;
    (split; [done|]; split; [split; [done|by intros _; apply Hn]|done]).
Qed.

Lemma shaped_add_contribution (c u : Z) (w : string) (t : datetime)
    (g : Game) :
  shaped c g -> status g <> pending -> count_words w = words_per_turn g ->
  shaped c (add_contribution u w t g).
Proof.
  intros (Hk & [Hp Hn] & Hw) Hs Hc.
  destruct (add_contribution_slots u w t g) as (_ & _ & Hch & Hwp & _ & Hct).
  destruct (add_contribution_lists u w t g) as [Hcs _].
  pose proof (add_contribution_status u w t g) as Hst.
  unfold shaped, counted, worded. rewrite Hch, Hwp, Hct, Hcs, Hst.
  split; [done|]. split; [split|].
  - by destruct (_ <=? _).
  - intros _. rewrite length_app, Nat2Z.inj_add, Hn by done. cbn. lia.
  - apply Forall_app. split; [done|]. by constructor.
Qed.

Lemma shaped_leave_slots (c u : Z) (g : Game) :
  shaped c g -> shaped c (leave_slots u g).
Proof.
  destruct (leave_slots_frame u g)
    as (_ & _ & Hs & Hcs & _ & Hct & _ & Hch & _ & _ & Hwp & _).
  unfold shaped, counted, worded. by rewrite Hs, Hcs, Hct, Hch, Hwp.
Qed.

Lemma shaped_first_words_Game (c u : Z) (w : string) (t : datetime)
    (g : Game) :
  shaped c g -> status g = pending -> count_words w = words_per_turn g ->
  shaped c (first_words_Game u w t g).
Proof.
  intros (Hk & [Hp Hn] & Hw) Hs Hc. destruct (Hp Hs) as [_ Hct].
  unfold shaped, counted, worded, first_words_Game. fields.
  split; [done|]. split; [split; [done|by rewrite Hct]|]. by constructor.
Qed.

Lemma shaped_timeout_current_player (c : Z) (g : Game) :
  shaped c g -> shaped c (timeout_current_player g).
Proof.
  unfold shaped, counted, worded, timeout_current_player.
  by destruct (_ =? _).
Qed.

Lemma wf_initial : wf initial.
Proof.
  split; [split|]; intros c x H;
    [change (games initial) with (∅ : gmap Z Game) in H
    |change (store initial) with (∅ : gmap Z row) in H
    |change (games initial) with (∅ : gmap Z Game) in H]; done.
Qed.

Lemma wf_frame (st st' : State) :
  games st' = games st -> store st' = store st -> wf st -> wf st'.
Proof. intros Hg Hd Hwf. unfold wf, synced. by rewrite Hg, Hd. Qed.

Lemma wf_put (st st' : State) (c : Z) (g : Game) :
  wf st -> shaped c g ->
  games st' = <[c := g]> (games st) ->
  store st' = save_game g (store st) ->
  wf st'.
Proof.
  intros [[Hlive Hrow] Hall] Hg Hgs Hdb. unfold wf, synced.
  rewrite Hgs, Hdb. unfold save_game. rewrite (proj1 Hg).
  split; [split|].
  - intros k g0. destruct (decide (c = k)) as [->|Hne].
    + rewrite !lookup_insert_eq. by intros [= <-].
    + rewrite !lookup_insert_ne by done. apply Hlive.
  - intros k r. destruct (decide (c = k)) as [->|Hne].
    + by rewrite !lookup_insert_eq.
    + rewrite !lookup_insert_ne by done. apply Hrow.
  - intros k g0.
    intros [[<- <-]|[_ H]]%lookup_insert_Some; [done|by apply Hall].
Qed.

Lemma wf_drop (st st' : State) (c : Z) :
  wf st ->
  games st' = delete c (games st) ->
  store st' = delete_game c (store st) ->
  wf st'.
Proof.
  intros [[Hlive Hrow] Hall] Hgs Hdb. unfold wf, synced.
  rewrite Hgs, Hdb. unfold delete_game. split; [split|].
  - intros k g0. destruct (decide (c = k)) as [->|Hne].
    + by rewrite !lookup_delete_eq.
    + rewrite !lookup_delete_ne by done. apply Hlive.
  - intros k r. destruct (decide (c = k)) as [->|Hne].
    + by rewrite !lookup_delete_eq.
    + rewrite !lookup_delete_ne by done. apply Hrow.
  - intros k g0. intros [_ H]%lookup_delete_Some. by apply Hall.
Qed.

Lemma wf_post_completed_poem (e : env) (g : Game) (st : State) :
  wf st -> wf (post_completed_poem e g st).
Proof.
  intros Hwf. unfold post_completed_poem.
  destruct (get_channel e (channel_id g)); [|done]. cbn [fold_left].
  eapply (wf_drop (forget (forget st (player_a g)) (player_b g)));
    [|reflexivity|reflexivity].
  eapply wf_frame; [| |exact Hwf].
  - by rewrite !(proj1 (forget_frame _ _)).
  - by rewrite !(proj2 (forget_frame _ _)).
Qed.

Lemma wf_finish_turn (e : env) (g : Game) (st : State) :
  wf st -> wf (finish_turn e g st).
Proof.
  intros Hwf. unfold finish_turn. case_decide.
  - by apply wf_post_completed_poem.
  - destruct (prompt_next_player_games e g st) as (Hg & _ & Hd).
    by eapply wf_frame.
Qed.

Lemma wf_sweep_loop (e : env) (l : list (Z * Game)) :
  forall st,
    (forall k g, (k, g) ∈ l -> shaped k g) ->
    wf st -> wf (sweep_loop e l st).1.
Proof.
  induction l as [|[k g] l IH]; intros st Hl Hwf; [done|].
  cbn [sweep_loop]. pose proof (sweep_step_state e k g st) as Hst.
  assert (Hwf' : wf (sweep_step e k g st).1).
  { rewrite Hst. destruct (eligible (now e) g); [|done].
    destruct (current_player g) as [p|]; [|done].
    eapply wf_put; [exact Hwf| |reflexivity|reflexivity].
    apply shaped_timeout_current_player, Hl. left. }
  destruct (sweep_step e k g st) as [st' [x|]]; cbn [fst] in *; [done|].
  apply IH; [|done]. intros k' g' Hin. apply Hl. by right.
Qed.

Lemma step_wf (e : env) (ev : event) (st : State) :
  wf st -> wf (step e ev st).1.
Proof.
  intros Hwf. pose proof Hwf as [_ Hall].
  destruct ev as [user ch a|author is_bot in_guild content|]; cbn [step].
  - destruct a as [words lines wordcount|words| | |]; cbn [corpse].
    + (* start *)
      unfold cmd_start. case_decide; [done|].
      destruct (match games st !! ch with
                | Some existing => bool_decide (status existing ≠ complete)
                | None => false end); [done|].
      destruct (given words) as [w|].
      * case_decide as Hc; [done|].
        eapply wf_put; [exact Hwf| |reflexivity|reflexivity].
        by apply shaped_new_Game.
      * eapply wf_put; [exact Hwf| |reflexivity|reflexivity].
        apply shaped_pending_Game.
    + (* join *)
      destruct (games st !! ch) as [g|] eqn:Hg;
        [|by rewrite cmd_join_refused by (intros; congruence)].
      destruct (join_allows_decidable st user ch g) as [Hok|Hno];
        [|by rewrite cmd_join_refused by (intros; congruence)].
      rewrite (cmd_join_allowed _ _ _ _ _ _ Hg Hok).
      assert (Hs : status g = open \/ status g = active).
      { destruct Hok as (? & ? & _). destruct (status g); tauto. }
      pose proof (shaped_seat ch user g (Hall _ _ Hg) Hs) as Hseat.
      destruct (given words) as [w|].
      * case_decide as Hc; [done|].
        cbv zeta. cbn [fst]. apply wf_finish_turn.
        eapply wf_put; [exact Hwf| |reflexivity|reflexivity].
        apply shaped_add_contribution; [done| |].
        -- rewrite (proj1 (seat_fields user g Hs)). done.
        -- rewrite Hc. unfold seat, take_slot.
           case_decide; [done|]. by destruct (_ =? _).
      * cbv zeta. cbn [fst].
        by eapply wf_put; [exact Hwf| |reflexivity|reflexivity].
    + (* status *)
      unfold cmd_status. by repeat case_match.
    + (* abandon *)
      rewrite cmd_abandon_state.
      destruct (player_games st !! user) as [k|]; [|done].
      destruct (games st !! k) as [g|] eqn:Hg.
      * eapply wf_put; [exact Hwf| |reflexivity|reflexivity].
        by apply shaped_leave_slots, Hall.
      * by eapply wf_frame.
    + done.
  - (* free text *)
    destruct is_bot; [done|]. destruct in_guild; [done|].
    destruct (pending_responses st !! author) as [k|] eqn:Hm;
      [|by unfold on_message; rewrite Hm].
    destruct (games st !! k) as [g|] eqn:Hg;
      [|unfold on_message; rewrite Hm, Hg; by eapply wf_frame].
    rewrite (on_message_routed _ _ _ _ _ _ Hm Hg). cbv zeta.
    case_decide as Hc; [done|].
    case_decide as Hp.
    + eapply wf_put; [exact Hwf| |reflexivity|reflexivity].
      apply (shaped_first_words_Game k author _ (now e) g); [|done..].
      by apply Hall.
    + case_decide as Hcur; [by eapply wf_frame|].
      cbn [fst]. apply wf_finish_turn.
      eapply wf_put; [exact Hwf| |reflexivity|reflexivity].
      apply shaped_add_contribution; [by apply Hall|done..].
  - (* sweep *)
    apply wf_sweep_loop; [|done].
    intros k g Hin%elem_of_map_to_list. by apply Hall.
Qed.

Lemma reachable_wf (st : State) : reachable st -> wf st.
Proof.
  induction 1 as [|e ev st _ IH]; [apply wf_initial|by apply step_wf].
Qed.

Lemma reachable_st_active : reachable st_active.
Proof.
  exact (reach_step e_noon (Command 2 7 (ActJoin (Some "g h i j k l")))
           st_open
           (reach_step e_noon (Command 1 7 (ActStart (Some "a b c d e f") 4 6))
              initial reach_initial)).
Qed.

Lemma games_st_active (c : Z) (g : Game) :
  games st_active !! c = Some g -> c = 7 /\ g = g_active.
Proof.
  assert (Hgames : games st_active = {[ 7 := g_active ]}) by run.
  rewrite Hgames. by intros [-> <-]%lookup_singleton_Some.
Qed.

(** X17. In every state the bot reaches from the empty table, a game is
    kept under its own [channel_id]; a pending game has no contribution
    and is at turn 1; a game that is not pending has as many
    contributions as its turn counter says; and every contribution has
    exactly [words_per_turn] words. *)
Theorem reachable_games_shaped (st : State) (c : Z) (g : Game) :
  reachable st -> games st !! c = Some g ->
  channel_id g = c
  /\ (status g = pending -> contributions g = [] /\ current_turn g = 1)
  /\ (status g <> pending ->
      Z.of_nat (length (contributions g)) = current_turn g)
  /\ (forall w, w ∈ contributions g -> count_words w = words_per_turn g).
Proof.
  intros Hr Hg. destruct (reachable_wf st Hr) as [_ Hall].
  destruct (Hall c g Hg) as (Hk & [Hp Hn] & Hw).
  split; [done|]. split; [done|]. split; [done|].
  intros w Hin. unfold worded in Hw. rewrite Forall_forall in Hw.
  by apply Hw.
Qed.

(** The active game of channel 7, at turn 2 with two contributions. *)
Lemma reachable_games_shaped_witness :
  games st_active !! 7 = Some g_active
  /\ channel_id g_active = 7
  /\ Z.of_nat (length (contributions g_active)) = current_turn g_active.
Proof.
  assert (Hg : games st_active !! 7 = Some g_active) by run.
  destruct (reachable_games_shaped st_active 7 g_active
              reachable_st_active Hg) as (Hk & _ & Hn & _).
  split; [done|]. split; [done|]. apply Hn. run.
Defined.

(** ** Timestamps and restarts *)

Lemma shaped_reloaded (c : Z) (g : Game) : shaped c g -> shaped c (reloaded g).
Proof. by intros H. Qed.

Lemma seat_last_activity (u : Z) (g : Game) :
  last_activity (seat u g) = last_activity g.
Proof.
  unfold seat, take_slot. case_decide; [done|]. by destruct (_ =? _).
Qed.

Lemma add_contribution_last_activity (u : Z) (w : string) (t : datetime)
    (g : Game) :
  last_activity (add_contribution u w t g) = t.
Proof. unfold add_contribution. by case_match. Qed.

Lemma change_timed (t : datetime) (entry : option (string * Z))
    (o : option Game) (g' : Game) :
  change t entry o g' -> Datetime.valid t = true ->
  (forall g, o = Some g -> Datetime.valid (last_activity g) = true) ->
  Datetime.valid (last_activity g') = true.
Proof.
  intros Hch Ht Ho. destruct Hch; try done.
  - by rewrite seat_last_activity; apply Ho.
  - by rewrite add_contribution_last_activity.
  - destruct (leave_slots_frame u g) as (_ & _ & _ & _ & _ & _ & -> & _).
    by apply Ho.
  - by rewrite add_contribution_last_activity.
  - destruct (timeout_current_player_fields g)
      as (_ & _ & _ & _ & _ & -> & _).
    by apply Ho.
Qed.

Lemma step_timed (e : env) (ev : event) (st : State) :
  Datetime.valid (now e) = true -> timed st -> timed (step e ev st).1.
Proof.
  intros Ht Hst c g' [Hsame|Hch]%step_games; [by eapply Hst|].
  eapply change_timed; [done..|]. intros g Hg. by eapply Hst.
Qed.

Lemma startup_games (st : State) :
  wf st -> timed st ->
  exists st',
    startup (store st) = Some st' /\ store st' = store st
    /\ forall c,
         games st' !! c
         = match games st !! c with
           | Some g =>
               if decide (status g = complete) then None
               else Some (reloaded g)
           | None => None
           end.
Proof.
  intros [[Hlive Hdead] Hall] Hv.
  assert (Hrow : forall c r,
            (c, r) ∈ select_non_complete (store st) ->
            exists g, games st !! c = Some g /\ r = row_of_game g
                      /\ status g <> complete
                      /\ game_of_row c r = Some (reloaded g)).
  { intros c r [Hl Hs]%elem_of_select.
    destruct (games st !! c) as [g|] eqn:Hg;
      [|by destruct Hs; eapply Hdead].
    rewrite (Hlive c g Hg) in Hl. injection Hl as <-. exists g.
    destruct (Hall c g Hg) as (Hk & _).
    split; [done|]. split; [done|]. split; [done|].
    rewrite <- Hk. apply game_of_row_of_game. by eapply Hv. }
  unfold startup, load_all_games.
  destruct (load_rows_spec (select_non_complete (store st)) ∅
              (select_NoDup _)) as (m & Hm & Hin & Hout).
  { intros c r (g & _ & _ & _ & Hg)%Hrow. by eexists. }
  rewrite Hm. cbn [mbind option_bind]. eexists. split; [done|].
  destruct (rebuild_fold (map_to_list m) (mk_State m ∅ ∅ (store st)))
    as (Hg & Hd & _).
  cbv zeta in Hg, Hd. rewrite Hg, Hd. split; [done|]. intros c.
  cbn [games].
  assert (Hno : forall k, (forall g, games st !! k = Some g ->
                             status g = complete) ->
                          k ∉ (select_non_complete (store st)).*1).
  { intros k Hk ((k' & r) & Heq & Hsel)%list_elem_of_fmap.
    cbn in Heq. subst k'. apply Hrow in Hsel as (g & Hg' & _ & Hs & _).
    by apply Hs, Hk. }
  destruct (games st !! c) as [g|] eqn:Hgc.
  - case_decide as Hs.
    + rewrite Hout; [done|]. apply Hno. intros g0. rewrite Hgc. congruence.
    + assert (Hsel : (c, row_of_game g) ∈ select_non_complete (store st)).
      { apply elem_of_select. split; [by apply Hlive|done]. }
      rewrite (Hin _ _ Hsel).
      apply Hrow in Hsel as (g0 & Hg0 & _ & _ & ->). congruence.
  - rewrite Hout; [done|]. apply Hno. intros g0. by rewrite Hgc.
Qed.

Lemma restart_wf (st st' : State) :
  wf st -> timed st -> startup (store st) = Some st' ->
  wf st' /\ timed st'.
Proof.
  intros Hwf Hv Hst. pose proof Hwf as [[Hlive Hdead] Hall].
  destruct (startup_games st Hwf Hv) as (st0 & Hst0 & Hd & Hg).
  assert (st0 = st') as -> by congruence.
  assert (Hback : forall c g', games st' !! c = Some g' ->
            exists g, games st !! c = Some g /\ g' = reloaded g).
  { intros c g' Hg'. rewrite Hg in Hg'.
    destruct (games st !! c) as [g|]; [|done].
    case_decide; [done|]. injection Hg' as <-. by exists g. }
  split; [split; [split|]|].
  - intros c g' (g & Hgc & ->)%Hback. rewrite Hd.
    change (row_of_game (reloaded g)) with (row_of_game g). by apply Hlive.
  - intros c r Hr Hnone. rewrite Hd in Hr. rewrite Hg in Hnone.
    destruct (games st !! c) as [g|] eqn:Hgc; [|by eapply Hdead].
    case_decide as Hs; [|done].
    rewrite (Hlive c g Hgc) in Hr. by injection Hr as <-.
  - intros c g' (g & Hgc & ->)%Hback. by apply shaped_reloaded, Hall.
  - intros c g' (g & Hgc & ->)%Hback. by apply (Hv c g).
Qed.

Lemma operated_wf (st : State) : operated st -> wf st /\ timed st.
Proof.
  induction 1 as [|e ev st Ht _ [IH1 IH2]|st st' _ [IH1 IH2] Hst].
  - split; [apply wf_initial|]. intros c g H.
    change (games initial) with (∅ : gmap Z Game) in H. done.
  - split; [by apply step_wf|by apply step_timed].
  - by eapply restart_wf.
Qed.

Lemma operated_st_active : operated st_active.
Proof.
  exact (op_step e_noon (Command 2 7 (ActJoin (Some "g h i j k l")))
           st_open ltac:(run)
           (op_step e_noon (Command 1 7 (ActStart (Some "a b c d e f") 4 6))
              initial ltac:(run) op_initial)).
Qed.

(** X18. The table follows the live games.  In every state of the bot in
    operation, restarts included, the row of each live game is the one
    [save_game] writes for it; a row of a channel without a live game is
    the row of a complete game, which a restart leaves in the table when
    the clean-up of a completion did not run; so every row that is not
    complete is the row of the live game of its channel. *)
Theorem store_follows_games (st : State) :
  operated st ->
  (forall c g, games st !! c = Some g -> store st !! c = Some (row_of_game g))
  /\ (forall c r, store st !! c = Some r -> games st !! c = None ->
                  row_status r = complete)
  /\ (forall c r, store st !! c = Some r -> row_status r <> complete ->
                  exists g, games st !! c = Some g /\ r = row_of_game g).
Proof.
  intros Hop. destruct (operated_wf st Hop) as [[[Hlive Hdead] _] _].
  split; [done|]. split; [done|]. intros c r Hr Hs.
  destruct (games st !! c) as [g|] eqn:Hg; [|by destruct Hs; eapply Hdead].
  exists g. split; [done|]. rewrite (Hlive c g Hg) in Hr. by injection Hr.
Qed.

(** After the completion of the one-line game of channel 7 with the
    channel not found, and a restart, channel 7 has no live game and the
    row of a complete one. *)
Lemma store_follows_games_witness :
  startup (store st_lost) = Some st_restarted
  /\ games st_restarted !! 7 = None
  /\ exists r, store st_restarted !! 7 = Some r /\ row_status r = complete.
Proof.
  assert (Hst : startup (store st_lost) = Some st_restarted) by run.
  assert (Hop : operated st_restarted).
  { refine (op_restart st_lost st_restarted _ Hst).
    unfold st_lost, st_short.
    apply op_step; [run|]. apply op_step; [run|]. apply op_initial. }
  assert (Hnone : games st_restarted !! 7 = None) by run.
  split; [exact Hst|]. split; [exact Hnone|].
  destruct (store st_restarted !! 7) as [r|] eqn:Hr;
    [|exfalso; revert Hr; run].
  exists r. split; [done|].
  exact (proj1 (proj2 (store_follows_games st_restarted Hop)) 7 r Hr Hnone).
Defined.

(** X19. A restart recovers the games.  From a state the bot has reached,
    with timestamps within the ranges of [datetime], the start of the bot
    on the table of that state succeeds, leaves the table as it is, and
    holds every game that was not complete with its stored fields, under
    the same channel, and no complete game. *)
Theorem restart_recovers (st : State) :
  reachable st ->
  (forall c g, games st !! c = Some g ->
               Datetime.valid (last_activity g) = true) ->
  exists st',
    startup (store st) = Some st' /\ store st' = store st
    /\ forall c,
         games st' !! c
         = match games st !! c with
           | Some g =>
               if decide (status g = complete) then None
               else Some (reloaded g)
           | None => None
           end.
Proof.
  intros Hr Hv. pose proof (reachable_wf st Hr) as Hwf.
  destruct (startup_games st Hwf Hv) as (st' & Hst & Hd & Hg).
  exists st'. split; [exact Hst|]. split; [exact Hd|exact Hg].
Qed.

(** A restart on the table of the active game of channel 7. *)
Lemma restart_recovers_witness :
  exists st',
    startup (store st_active) = Some st'
    /\ games st' !! 7 = Some (reloaded g_active).
Proof.
  destruct (restart_recovers st_active reachable_st_active)
    as (st' & Hst & _ & Hg).
  { intros c g [_ ->]%games_st_active. run. }
  exists st'. split; [done|]. rewrite Hg.
  assert (games st_active !! 7 = Some g_active) as -> by run.
  by rewrite decide_False by run.
Defined.

(** * The poem at completion *)

Lemma paired_lines_length (l : list string) :
  Z.of_nat (length (paired_lines l)) = (Z.of_nat (length l) + 1) / 2.
Proof.
  induction l as [|a|a b l IH] using pair_list_ind; [done..|].
  cbn [paired_lines length]. rewrite !Nat2Z.inj_succ, IH.
  replace (Z.succ (Z.succ (Z.of_nat (length l))) + 1)
    with (Z.of_nat (length l) + 1 + 1 * 2) by lia.
  rewrite Z.div_add by done. lia.
Qed.

Lemma poem_lines_paired (g : Game) :
  poem_lines g = paired_lines (contributions g).
Proof.
  unfold poem_lines.
  pose proof (poem_lines_from (contributions g) [] []) as H.
  cbn [app length] in H. rewrite <- H. f_equal.
  rewrite <- (list_fmap_id (range_by_2 _)) at 1.
  apply list_fmap_ext. intros ? k _. done.
Qed.

(** X20. The poem of a game that ends is full.  In a state the bot has
    reached, on an open or active game of at least one line, when the
    contribution of a turn or of a join makes the game complete, the game
    has exactly [total_turns] contributions, its turn counter is
    [total_turns], [lines_complete] is [total_lines], and the loop of
    [get_poem] builds exactly [total_lines] lines. *)
Theorem completion_fills_poem (st : State) (c u : Z) (w : string)
    (t : datetime) (g g' : Game) :
  reachable st -> games st !! c = Some g -> 0 < total_lines g ->
  status g = open \/ status g = active ->
  g' = add_contribution u w t g \/ g' = add_contribution u w t (seat u g) ->
  status g' = complete ->
  Z.of_nat (length (contributions g')) = total_turns g'
  /\ current_turn g' = total_turns g'
  /\ lines_complete g' = total_lines g'
  /\ get_poem g' = Text.join newline (poem_lines g')
  /\ Z.of_nat (length (poem_lines g')) = total_lines g'.
Proof.
  intros Hr Hg Hpos Hs Hg' Hdone.
  destruct (reachable_wf st Hr) as [_ Hall].
  destruct (Hall c g Hg) as (_ & [_ Hn] & _).
  pose proof (reachable_completion st Hr c g Hg Hpos) as Hinv.
  assert (Hnc : status g <> complete) by (destruct Hs as [-> | ->]; done).
  assert (Hnp : status g <> pending) by (destruct Hs as [-> | ->]; done).
  assert (Hlt : current_turn g < total_turns g).
  { destruct (Z.lt_ge_cases (current_turn g) (total_turns g)); [done|].
    by destruct Hnc, Hinv as [_ ->]. }
  specialize (Hn Hnp).
  assert (exists g0,
            g' = add_contribution u w t g0 /\ status g0 <> complete
            /\ current_turn g0 = current_turn g
            /\ total_lines g0 = total_lines g
            /\ contributions g0 = contributions g)
    as (g0 & -> & Hs0 & Hct0 & Htl0 & Hcs0).
  { destruct Hg' as [-> | ->]; [by exists g|]. exists (seat u g).
    destruct (seat_fields u g Hs) as (Hst & Hct & Htl & Hcs & _).
    rewrite Hst. done. }
  rewrite add_contribution_status in Hdone.
  unfold total_turns in *. rewrite Htl0, Hct0 in Hdone.
  destruct (Z.leb_spec (total_lines g * 2) (current_turn g + 1)); [|done].
  destruct (add_contribution_slots u w t g0) as (_ & _ & _ & _ & Htl & Hct).
  destruct (add_contribution_lists u w t g0) as [Hcs _].
  assert (Hlen : Z.of_nat (length (contributions (add_contribution u w t g0)))
                 = total_lines g * 2).
  { rewrite Hcs, Hcs0, length_app, Nat2Z.inj_add. cbn. lia. }
  rewrite Htl, Htl0, Hct, Hct0.
  split; [done|]. split; [lia|]. split; [|split; [done|]].
  - unfold lines_complete. rewrite Hlen. by rewrite Z.div_mul.
  - rewrite poem_lines_paired, paired_lines_length, Hlen.
    rewrite Z.add_comm, Z.div_add by done. done.
Qed.

(** User 2 joins the one-line game of channel 7 with six words: the poem
    has its one line. *)
Lemma completion_fills_poem_witness :
  games st_short !! 7 = Some (new_Game 7 1 "a b c d e f" 6 1 false noon)
  /\ Z.of_nat
       (length
          (poem_lines
             (add_contribution 2 "g h i j k l" noon
                (seat 2 (new_Game 7 1 "a b c d e f" 6 1 false noon))))) = 1.
Proof.
  assert (Hg : games st_short !! 7
               = Some (new_Game 7 1 "a b c d e f" 6 1 false noon)) by run.
  split; [exact Hg|].
  assert (Hr : reachable st_short).
  { unfold st_short. apply reach_step, reach_initial. }
  destruct (completion_fills_poem st_short 7 2 "g h i j k l" noon
              (new_Game 7 1 "a b c d e f" 6 1 false noon)
              (add_contribution 2 "g h i j k l" noon
                 (seat 2 (new_Game 7 1 "a b c d e f" 6 1 false noon)))
              Hr Hg) as (_ & _ & _ & _ & Hlines).
  - run.
  - left. run.
  - by right.
  - run.
  - rewrite Hlines. run.
Defined.

(** * Where [last_word] raises *)

(** X21. [last_word] is defined on games that ask for words.  In every
    state of the bot in operation, restarts included, on a live game whose
    [words_per_turn] is not zero, evaluating [last_word] does not raise
    [IndexError]: it is [None] exactly when the game has no contribution,
    and a word otherwise. *)
Theorem last_word_defined (st : State) (c : Z) (g : Game) :
  operated st -> games st !! c = Some g -> words_per_turn g <> 0 ->
  exists o,
    last_word g = Ok o /\ (o = None <-> contributions g = []).
Proof.
  intros Hop Hg Hn. destruct (operated_wf st Hop) as [[_ Hall] _].
  destruct (Hall c g Hg) as (_ & _ & Hw). unfold last_word.
  destruct (last (contributions g)) as [x|] eqn:Hc.
  - apply last_Some in Hc as [l' Hc]. unfold worded in Hw. rewrite Hc in *.
    apply Forall_app in Hw as [_ Hw]. apply Forall_cons in Hw as [Hw _].
    unfold count_words in Hw.
    destruct (Text.split x) as [|y ys] eqn:Hx; [by destruct Hn|].
    destruct (last (y :: ys)) as [z|] eqn:Hz;
      [|by apply last_None in Hz].
    exists (Some z). split; [done|]. split; [done|].
    intros H. by apply app_nil in H as [_ ?].
  - apply last_None in Hc. exists None. by rewrite Hc.
Qed.

(** The last word of the active game of channel 7. *)
Lemma last_word_defined_witness :
  exists o, last_word g_active = Ok o.
Proof.
  destruct (last_word_defined st_active 7 g_active operated_st_active
              ltac:(run) ltac:(run)) as (o & Ho & _).
  by exists o.
Defined.

(** X22. What a sweep leaves alone.  However far [timeout_checker] gets
    in its snapshot of the games, to the end or to the iteration in which
    an exception leaves it, no game enters or leaves [bot.games]; every
    game is as it was or is its vacated form, with its status,
    contributions, contributors, turn counter and timestamp; and nobody
    is bound or marked who was not. *)
Theorem sweep_frame (e : env) (st : State) (n : nat) :
  let snapshot := map_to_list (games st) in
  let st1 := (sweep_loop e (take n snapshot) st).1 in
  timeout_checker e st = sweep_loop e (take (length snapshot) snapshot) st
  /\ (forall c g,
        games st !! c = Some g ->
        exists g',
          games st1 !! c = Some g'
          /\ (g' = g \/ g' = timeout_current_player g)
          /\ status g' = status g
          /\ contributions g' = contributions g
          /\ contributors g' = contributors g
          /\ current_turn g' = current_turn g
          /\ last_activity g' = last_activity g)
  /\ (forall c, games st !! c = None -> games st1 !! c = None)
  /\ (forall u c, player_games st1 !! u = Some c ->
                  player_games st !! u = Some c)
  /\ (forall u c, pending_responses st1 !! u = Some c ->
                  pending_responses st !! u = Some c).
Proof.
  cbv zeta. set (l := map_to_list (games st)).
  assert (Hnd : NoDup (take n l).*1).
  { rewrite fmap_take.
    eapply sublist_NoDup; [apply (NoDup_fst_map_to_list (games st))|].
    apply sublist_take. }
  assert (Hfrom : forall c g', games (sweep_loop e (take n l) st).1 !! c
                               = Some g' ->
            games st !! c = Some g'
            \/ exists g, games st !! c = Some g
                         /\ g' = timeout_current_player g).
  { intros c g' Hg'.
    apply sweep_loop_lookup in Hg'; [|done].
    destruct Hg' as [H|(g & Hin & _ & ->)]; [by left|].
    right. exists g. split; [|done].
    apply elem_of_map_to_list. by apply (subseteq_take n l). }
  split; [by rewrite take_ge|]. split; [|split; [|split]].
  - intros c g Hg.
    destruct (sweep_loop_stays e (take n l) st c) as [g' Hg'];
      [by rewrite Hg|].
    exists g'. split; [done|].
    apply Hfrom in Hg' as [H|(g0 & Hg0 & ->)].
    + assert (g' = g) as -> by congruence. by split; [left|].
    + assert (g0 = g) as -> by congruence.
      destruct (timeout_current_player_fields g)
        as (-> & -> & _ & -> & -> & -> & _).
      by split; [right|].
  - intros c Hc.
    destruct (games (sweep_loop e (take n l) st).1 !! c) as [g'|] eqn:Hg';
      [|done].
    apply Hfrom in Hg' as [H|(g0 & Hg0 & _)]; congruence.
  - intros u c. apply sweep_loop_indices.
  - intros u c. apply sweep_loop_indices.
Qed.

(** Three hours after the last contribution, the sweep of the active game
    of channel 7, stopped after one game: the game is its vacated form. *)
Lemma sweep_frame_witness :
  exists g',
    games (sweep_loop e_three_pm (take 1 (map_to_list (games st_active)))
             st_active).1 !! 7 = Some g'
    /\ status g' = status g_active
    /\ contributions g' = contributions g_active.
Proof.
  destruct (proj1 (proj2 (sweep_frame e_three_pm st_active 1)) 7 g_active
              ltac:(run)) as (g' & Hg' & _ & Hs & Hc & _).
  by exists g'.
Defined.

(** X23. A game of no word per turn raises.  [cmd_start] with words that
    are not the empty string and hold no word, and a word count of zero,
    creates the game; then [last_word] raises [IndexError] on it, in
    [cmd_status] of the starter and, when the channel is found, in
    [cmd_abandon] after the starter has been removed from the game. *)
Theorem blank_words_raise (e e' : env) (user c lines : Z) (w : string)
    (st : State) :
  player_games st !! user = None -> channel_free st c ->
  Text.nonempty w = true -> count_words w = 0 ->
  let out := cmd_start e user c (Some w) lines 0 st in
  out.2 = Started
  /\ (cmd_status user c out.1).2 = Crashed IndexError
  /\ (cmd_abandon e' user out.1).2
     = (if get_channel e' c then Crashed IndexError else LeftGame)
  /\ player_games (cmd_abandon e' user out.1).1 !! user = None.
Proof.
  intros Hu Hfree Hne Hc. cbv zeta.
  assert (Hout : cmd_start e user c (Some w) lines 0 st
                 = (set_store
                      (save_game (new_Game c user w 0 lines false (now e))
                         (store st))
                      (set_player_games (<[user := c]> (player_games st))
                         (set_games
                            (<[c := new_Game c user w 0 lines false (now e)]>
                               (games st)) st)), Started)).
  { unfold cmd_start. rewrite decide_False by (rewrite Hu; by intros [? ?]).
    rewrite (channel_free_not_busy _ _ Hfree). cbn [given]. rewrite Hne.
    by rewrite decide_False by (by intros ?). }
  rewrite Hout. cbn [fst snd].
  assert (Hraise : forall g, contributions g = [w] ->
                             last_word g = Raised IndexError).
  { intros g Hg. unfold last_word. rewrite Hg. cbn [last].
    unfold count_words in Hc. by destruct (Text.split w). }
  split; [done|]. split; [|split].
  - unfold cmd_status. fields. rewrite !lookup_insert_eq.
    by rewrite Hraise.
  - unfold cmd_abandon. fields. rewrite lookup_insert_eq.
    unfold untrack. fields. rewrite lookup_insert_eq.
    destruct (get_channel e' c); [|done].
    rewrite Hraise; [done|].
    by destruct (leave_slots_frame user
                   (new_Game c user w 0 lines false (now e)))
      as (_ & _ & _ & -> & _).
  - rewrite cmd_abandon_state. fields. rewrite !lookup_insert_eq.
    unfold commit, untrack. fields. apply lookup_delete_eq.
Qed.

(** User 1 starts a game in channel 7 with one blank and a word count of
    zero, and asks for its status. *)
Lemma blank_words_raise_witness :
  (cmd_status 1 7 (cmd_start e_noon 1 7 (Some " ") 4 0 initial).1).2
  = Crashed IndexError.
Proof.
  refine (proj1 (proj2 (blank_words_raise e_noon e_noon 1 7 4 " " initial
                          ltac:(run) _ ltac:(run) ltac:(run)))).
  left. run.
Defined.

(** * The life of a game *)

Lemma rank_add_contribution (u : Z) (w : string) (t : datetime) (g : Game) :
  rank (status g) <= rank (status (add_contribution u w t g)).
Proof.
  rewrite add_contribution_status.
  destruct (_ <=? _), (status g); cbn; lia.
Qed.

(** X24. The life of a game.  Over the handler of one event, a game that
    is still under its channel afterwards has a status that has not moved
    back in the order pending, open, active, complete, unless it is the
    open or pending game of a [start] in that channel, which replaces a
    complete game only.  Nothing is said of a game that has left
    [bot.games].  The clean-up of [post_completed_poem], in whatever state
    it resumes after its send, adds or changes no game: it removes the
    game that is then under the channel of the completed game, when the
    channel was found, and no other. *)
Theorem game_fate :
  (forall e ev st c g g',
     games st !! c = Some g -> games (step e ev st).1 !! c = Some g' ->
     rank (status g) <= rank (status g')
     \/ (status g = complete /\ rank (status g') <= 1 /\ starts_in ev c))
  /\ (forall e g0 st c,
        games (post_completed_poem e g0 st) !! c
        = if get_channel e (channel_id g0)
          then delete (channel_id g0) (games st) !! c
          else games st !! c).
Proof.
  split.
  2:{ intros e g0 st c. unfold post_completed_poem.
      destruct (get_channel e (channel_id g0)); [|done].
      cbn [fold_left]. fields. by rewrite !(proj1 (forget_frame _ _)). }
  intros e ev st c g g' Hg.
  assert (Hsame : games st !! c = Some g' ->
                  rank (status g) <= rank (status g')
                  \/ (status g = complete /\ rank (status g') <= 1
                      /\ starts_in ev c)).
  { intros Hg'. left. assert (g' = g) as -> by congruence. lia. }
  destruct ev as [user ch a|author is_bot in_guild content|]; cbn [step].
  - destruct a as [words lines wordcount|words| | |]; cbn [corpse].
    + (* start *)
      unfold cmd_start. case_decide; [done|].
      destruct (match games st !! ch with
                | Some existing => bool_decide (status existing ≠ complete)
                | None => false end) eqn:Hbusy; [done|].
      assert (Hnew : forall g1,
                rank (status g1) <= 1 ->
                <[ch := g1]> (games st) !! c = Some g' ->
                rank (status g) <= rank (status g')
                \/ (status g = complete /\ rank (status g') <= 1
                    /\ starts_in (Command user ch
                                    (ActStart words lines wordcount)) c)).
      { intros g1 Hrank. destruct (decide (ch = c)) as [->|Hne].
        - rewrite lookup_insert_eq. intros [= <-]. right.
          rewrite Hg in Hbusy. apply bool_decide_eq_false in Hbusy.
          split; [by destruct (decide (status g = complete))|].
          split; [done|]. by exists user, words, lines, wordcount.
        - rewrite lookup_insert_ne by done. exact Hsame. }
      destruct (given words) as [w|].
      * case_decide; [done|]. apply Hnew. cbn. lia.
      * apply Hnew. cbn. lia.
    + (* join *)
      destruct (games st !! ch) as [g0|] eqn:Hg0;
        [|by rewrite cmd_join_refused by (intros; congruence)].
      destruct (join_allows_decidable st user ch g0) as [Hok|Hno];
        [|by rewrite cmd_join_refused by (intros; congruence)].
      rewrite (cmd_join_allowed _ _ _ _ _ _ Hg0 Hok).
      assert (Hs : status g0 = open \/ status g0 = active).
      { destruct Hok as (? & ? & _). destruct (status g0); tauto. }
      destruct (seat_fields user g0 Hs) as (Hseat & _).
      assert (Hr0 : rank (status g0) <= 2)
        by (destruct Hs as [-> | ->]; cbn; lia).
      destruct (given words) as [w|] eqn:Hw.
      * case_decide as Hc; [done|]. cbv zeta. cbn [fst].
        intros Hl%finish_turn_games. revert Hl. fields.
        destruct (decide (ch = c)) as [->|Hne].
        -- assert (g0 = g) as -> by congruence.
           rewrite lookup_insert_eq. intros [= <-]. left.
           pose proof (rank_add_contribution user w (now e) (seat user g))
             as Hrank.
           rewrite Hseat in Hrank. change (rank active) with 2 in Hrank.
           lia.
        -- rewrite lookup_insert_ne by done. exact Hsame.
      * cbv zeta. fields. destruct (decide (ch = c)) as [->|Hne].
        -- assert (g0 = g) as -> by congruence.
           rewrite lookup_insert_eq. intros [= <-]. left. rewrite Hseat.
           change (rank active) with 2. lia.
        -- rewrite lookup_insert_ne by done. exact Hsame.
    + (* status *)
      assert ((cmd_status user ch st).1 = st) as ->; [|done].
      unfold cmd_status. by repeat case_match.
    + (* abandon *)
      rewrite cmd_abandon_state.
      destruct (player_games st !! user) as [k|]; [|done].
      destruct (games st !! k) as [g0|] eqn:Hg0; [|done].
      unfold commit, untrack. fields.
      destruct (decide (k = c)) as [->|Hne].
      * assert (g0 = g) as -> by congruence.
        rewrite lookup_insert_eq. intros [= <-]. left.
        destruct (leave_slots_frame user g) as (_ & _ & -> & _). lia.
      * rewrite lookup_insert_ne by done. exact Hsame.
    + done.
  - (* free text *)
    destruct is_bot; [done|]. destruct in_guild; [done|].
    destruct (pending_responses st !! author) as [k|] eqn:Hm;
      [|by unfold on_message; rewrite Hm].
    destruct (games st !! k) as [g0|] eqn:Hg0;
      [|by unfold on_message; rewrite Hm, Hg0].
    rewrite (on_message_routed _ _ _ _ _ _ Hm Hg0). cbv zeta.
    case_decide as Hc; [done|]. case_decide as Hp.
    + unfold commit, clear_mark. fields.
      destruct (decide (k = c)) as [->|Hne].
      * assert (g0 = g) as -> by congruence.
        rewrite lookup_insert_eq. intros [= <-]. left. rewrite Hp. cbn. lia.
      * rewrite lookup_insert_ne by done. exact Hsame.
    + case_decide as Hcur; [done|]. cbn [fst].
      intros Hl%finish_turn_games. revert Hl.
      unfold commit, clear_mark. fields.
      destruct (decide (k = c)) as [->|Hne].
      * assert (g0 = g) as -> by congruence.
        rewrite lookup_insert_eq. intros [= <-]. left.
        apply rank_add_contribution.
      * rewrite lookup_insert_ne by done. exact Hsame.
  - (* sweep *)
    intros [H|(g0 & Hg0 & _ & ->)]%timeout_checker_lookup; [by apply Hsame|].
    assert (g0 = g) as -> by congruence. left.
    destruct (timeout_current_player_fields g) as (-> & _). lia.
Qed.

(** User 1 sends six words to the active game of channel 7, which goes
    on. *)
Lemma game_fate_witness :
  exists g',
    games (step e_noon (Message 1 false false "m n o p q r") st_active).1 !! 7
    = Some g'
    /\ rank (status g_active) <= rank (status g').
Proof.
  destruct (games (step e_noon (Message 1 false false "m n o p q r")
                     st_active).1 !! 7) as [g'|] eqn:Hg';
    [|exfalso; revert Hg'; run].
  exists g'. split; [done|].
  destruct (proj1 game_fate e_noon (Message 1 false false "m n o p q r")
              st_active 7 g_active g' ltac:(run) Hg') as [H|(Hc & _)];
    [done|].
  exfalso. revert Hc. run.
Defined.
